(** * Workforce scheduler: a shallow embedding of [workforce_strategies.py]

    The Python module keeps two registries (agents, tasks), a pending queue,
    an assignment strategy and an event bus inside [WorkforceManager].
    Every method is embedded as a function in a small state-and-exception
    monad over the manager, so that a raised [KeyError], [ValueError] or
    [OverflowError] keeps the mutations already performed, exactly as in
    Python.

    Modelling conventions
    - a [dict] is an association list in insertion order; assigning to an
      existing key keeps its position, as Python dicts do.  The two
      registries are only ever written with [d[x.id] = x], so they are
      lists of records keyed by the record's own id field;
    - Python objects held in a registry are identified with their registry
      entry: a field mutation is an update of the entry with that id.
      Each entry has its lists and dicts to itself, as the
      [default_factory] of the dataclasses provides: no two agents share
      one [current_tasks] list or one [performance_metrics] dict;
    - the numbers of [performance_metrics] are the ints the code writes (and
      the [0.0] and quotients it stores), each identified with its exact
      value in [Q]; [successful / total] is Python's true division
      ([py_truediv]): the binary64 double nearest to the quotient, or
      [OverflowError] when that is beyond the largest double;
    - the handlers registered on the manager are observers: a [Handler]
      returns or raises an [Exception], and makes no call on the manager.
      [Bus] models the event bus alone for arbitrary callables, which may
      also raise outside [Exception] ([SystemExit], [KeyboardInterrupt]);
      [observer_emit_event_refines] relates the two. *)

From Stdlib Require Import String List ZArith QArith Qabs Bool Lia Arith.
From Stdlib Require Floats.SpecFloat.
Import ListNotations.
Local Open Scope string_scope.
Local Open Scope list_scope.

Set Implicit Arguments.

(** ** Entity model *)

Inductive TaskStatus := PENDING | IN_PROGRESS | COMPLETED | FAILED | CANCELLED.

Inductive AgentRole := WORKER | SUPERVISOR | COORDINATOR | SPECIALIST.

(** Values of type [Any] that the scheduler stores or forwards. *)
Inductive PyVal := VNone | VStr (s : string).

Definition status_eqb (a b : TaskStatus) : bool :=
  match a, b with
  | PENDING, PENDING | IN_PROGRESS, IN_PROGRESS | COMPLETED, COMPLETED
  | FAILED, FAILED | CANCELLED, CANCELLED => true
  | _, _ => false
  end.

(** *** Python dicts with string keys *)

Section Dict.
Variable V : Type.

Definition dict := list (string * V).

Fixpoint dict_get (k : string) (d : dict) : option V :=
  match d with
  | [] => None
  | (k', v) :: d' => if String.eqb k' k then Some v else dict_get k d'
  end.

Definition dict_mem (k : string) (d : dict) : bool :=
  match dict_get k d with Some _ => true | None => false end.

(** [d[k] = v] *)
Fixpoint dict_set (k : string) (v : V) (d : dict) : dict :=
  match d with
  | [] => [(k, v)]
  | (k', v') :: d' =>
      if String.eqb k' k then (k, v) :: d' else (k', v') :: dict_set k v d'
  end.
End Dict.

Record Task := mkTask {
  task_id : string;
  description : string;
  requirements : list string;
  priority : Z;
  status : TaskStatus;
  assigned_agent : option string;
  result : PyVal;
  dependencies : list string;
  metadata : dict PyVal
}.

Record Agent := mkAgent {
  agent_id : string;
  name : string;
  role : AgentRole;
  capabilities : list string;
  max_concurrent_tasks : Z;
  current_tasks : list string;
  performance_metrics : dict Q;
  is_active : bool
}.

(** Field updates ([obj.field = v]). *)
Definition set_status (st : TaskStatus) (t : Task) : Task :=
  mkTask (task_id t) (description t) (requirements t) (priority t) st
         (assigned_agent t) (result t) (dependencies t) (metadata t).

Definition set_assigned_agent (a : option string) (t : Task) : Task :=
  mkTask (task_id t) (description t) (requirements t) (priority t) (status t)
         a (result t) (dependencies t) (metadata t).

Definition set_result (r : PyVal) (t : Task) : Task :=
  mkTask (task_id t) (description t) (requirements t) (priority t) (status t)
         (assigned_agent t) r (dependencies t) (metadata t).

Definition set_metadata (m : dict PyVal) (t : Task) : Task :=
  mkTask (task_id t) (description t) (requirements t) (priority t) (status t)
         (assigned_agent t) (result t) (dependencies t) m.

Definition set_current_tasks (l : list string) (a : Agent) : Agent :=
  mkAgent (agent_id a) (name a) (role a) (capabilities a)
          (max_concurrent_tasks a) l (performance_metrics a) (is_active a).

Definition set_performance_metrics (m : dict Q) (a : Agent) : Agent :=
  mkAgent (agent_id a) (name a) (role a) (capabilities a)
          (max_concurrent_tasks a) (current_tasks a) m (is_active a).

(** Python truthiness of an [Optional[str]]: [None] and [""] are falsy. *)
Definition truthy (o : option string) : bool :=
  match o with
  | None => false
  | Some s => negb (String.eqb s "")
  end.

(** ** Assignment strategies *)

(** [len(agent.current_tasks) < agent.max_concurrent_tasks] *)
Definition under_capacity (a : Agent) : bool :=
  Z.ltb (Z.of_nat (length (current_tasks a))) (max_concurrent_tasks a).

(** [all(req in agent.capabilities for req in task.requirements)] *)
Definition has_capabilities (t : Task) (a : Agent) : bool :=
  forallb (fun req => existsb (String.eqb req) (capabilities a))
          (requirements t).

(** [a.performance_metrics.get('success_rate', 0.0)] *)
Definition success_rate (a : Agent) : Q :=
  match dict_get "success_rate" (performance_metrics a) with
  | Some r => r
  | None => 0
  end.

Definition Qgtb (x y : Q) : bool := negb (Qle_bool x y).

(** [max(l, key=...)] on a non-empty list: the first maximal element. *)
Definition max_by_success_rate (x : Agent) (l : list Agent) : Agent :=
  fold_left
    (fun best a => if Qgtb (success_rate a) (success_rate best) then a else best)
    l x.

(** [min(l, key=lambda a: len(a.current_tasks))]: the first minimal one. *)
Definition min_by_load (x : Agent) (l : list Agent) : Agent :=
  fold_left
    (fun best a =>
       if Nat.ltb (length (current_tasks a)) (length (current_tasks best))
       then a else best)
    l x.

(** The three concrete strategies; round-robin carries its cursor. *)
Inductive WorkforceStrategy :=
| RoundRobinStrategy (last_assigned_index : Z)
| CapabilityBasedStrategy
| PriorityBasedStrategy.

Definition assign_task (st : WorkforceStrategy) (task : Task)
    (available_agents : list Agent) : WorkforceStrategy * option Agent :=
  match st with
  | RoundRobinStrategy last =>
      match available_agents with
      | [] => (st, None)
      | _ =>
          let idx := ((last + 1) mod Z.of_nat (length available_agents))%Z in
          (RoundRobinStrategy idx, nth_error available_agents (Z.to_nat idx))
      end
  | CapabilityBasedStrategy =>
      match filter (has_capabilities task) available_agents with
      | [] => (st, None)
      | a :: rest => (st, Some (max_by_success_rate a rest))
      end
  | PriorityBasedStrategy =>
      match filter (fun a => has_capabilities task a && under_capacity a)
                   available_agents with
      | [] => (st, None)
      | a :: rest => (st, Some (min_by_load a rest))
      end
  end.

(** ** Metrics accumulator *)

(** The exceptions that leave a method.  [BaseException name] stands for
    one that is not an [Exception]: [SystemExit], [KeyboardInterrupt],
    [GeneratorExit]. *)
Inductive PyErr :=
| KeyError (k : string)
| ValueError (what : string)
| OverflowError (what : string)
| BaseException (name : string).

Inductive Res (A : Type) := Ok (a : A) | Raise (e : PyErr).
Arguments Raise {A} e.

(** *** True division

    [a / b] on Python ints is the correctly rounded quotient: the binary64
    double nearest to [a / b], ties to the even mantissa, with gradual
    underflow; it raises [OverflowError] when the rounded quotient does not
    fit a double. *)

(** [num / den] rounded to the nearest integer, ties to even
    ([0 <= num], [0 < den]). *)
Definition round_half_even (num den : Z) : Z :=
  let q := (num / den)%Z in
  match (2 * (num mod den) ?= den)%Z with
  | Lt => q
  | Gt => (q + 1)%Z
  | Eq => if Z.even q then q else (q + 1)%Z
  end.

(** The exponent [e] with [2^e <= n/d < 2^(e+1)]. *)
Definition floor_log2 (n d : positive) : Z :=
  let e := (Z.log2 (Zpos n) - Z.log2 (Zpos d))%Z in
  if (0 <=? e)%Z
  then (if (Zpos d * 2 ^ e <=? Zpos n)%Z then e else (e - 1)%Z)
  else (if (Zpos d <=? Zpos n * 2 ^ (- e))%Z then e else (e - 1)%Z).

(** The double nearest to [n/d]: a multiple of [2^u] with a mantissa of 53
    bits ([u] is the exponent of the last place, at least [-1074]);
    [None] when it reaches [2^1024].  With [u < 0] the value is below
    [2^53], so only the other branch can overflow. *)
Definition round_binary64_pos (n d : positive) : option Q :=
  let u := Z.max (floor_log2 n d - 52) (-1074) in
  if (0 <=? u)%Z then
    let v := (round_half_even (Zpos n) (Zpos d * 2 ^ u) * 2 ^ u)%Z in
    if (2 ^ 1024 <=? v)%Z then None else Some (inject_Z v)
  else
    Some (round_half_even (Zpos n * 2 ^ (- u)) (Zpos d) # Z.to_pos (2 ^ (- u))).

Definition round_binary64 (q : Q) : option Q :=
  match Qnum q with
  | Z0 => Some 0
  | Zpos n => round_binary64_pos n (Qden q)
  | Zneg n => option_map Qopp (round_binary64_pos n (Qden q))
  end.

(** [a / b] for [b <> 0]; [None] is [OverflowError]. *)
Definition py_truediv (a b : Q) : option Q := round_binary64 (a / b).

(** The value of a finite double of the Standard Library's IEEE 754
    specification, against which [py_truediv] is checked below. *)
Definition SF2Q (f : SpecFloat.spec_float) : option Q :=
  match f with
  | SpecFloat.S754_zero _ => Some 0
  | SpecFloat.S754_finite sign m e =>
      let z := if sign then Zneg m else Zpos m in
      Some (if (0 <=? e)%Z then inject_Z (z * 2 ^ e)
            else z # Z.to_pos (2 ^ (- e)))
  | _ => None
  end.

(** The quotient of two positive ints by [SFdiv] in binary64. *)
Definition specfloat_div (a b : positive) : option Q :=
  SF2Q (SpecFloat.SFdiv 53 1024 (SpecFloat.S754_finite false a 0)
                          (SpecFloat.S754_finite false b 0)).

Definition same_number (x y : option Q) : bool :=
  match x, y with
  | Some a, Some b => Qeq_bool a b
  | None, None => true
  | _, _ => false
  end.

(** [_update_agent_metrics] on the agent's metrics dict.  The dict after a
    raise holds the writes made before it. *)
Definition _update_agent_metrics (success : bool) (m0 : dict Q)
  : dict Q * Res unit :=
  let m1 := if dict_mem "total_tasks" m0 then m0
            else dict_set "successful_tasks" 0 (dict_set "total_tasks" 0 m0) in
  match dict_get "total_tasks" m1 with
  | None => (m1, Raise (KeyError "total_tasks"))
  | Some t =>
      let m2 := dict_set "total_tasks" (t + 1) m1 in
      let step3 :=
        if success then
          match dict_get "successful_tasks" m2 with
          | None => (m2, Raise (KeyError "successful_tasks"))
          | Some s => (dict_set "successful_tasks" (s + 1) m2, Ok tt)
          end
        else (m2, Ok tt) in
      match step3 with
      | (m3, Raise e) => (m3, Raise e)
      | (m3, Ok _) =>
          match dict_get "total_tasks" m3, dict_get "successful_tasks" m3 with
          | Some total, Some successful =>
              if Qgtb total 0 then
                match py_truediv successful total with
                | Some rate => (dict_set "success_rate" rate m3, Ok tt)
                | None =>
                    (m3, Raise (OverflowError
                                  "integer division result too large for a float"))
                end
              else (dict_set "success_rate" 0 m3, Ok tt)
          | None, _ => (m3, Raise (KeyError "total_tasks"))
          | _, None => (m3, Raise (KeyError "successful_tasks"))
          end
      end
  end.

(** ** Event bus and manager state *)

Definition EventData := dict PyVal.

(** A handler registered on the manager.  It observes: [handler_body] says
    whether the call raises an [Exception] ([Some msg]) or returns
    ([None]), and it makes no call on the manager.  A callable that raises
    outside [Exception] is a [Bus.Callable]. *)
Record Handler := mkHandler {
  handler_name : string;
  handler_body : string -> EventData -> option string
}.

(** The manager, together with the two observable effects of the bus:
    the handler invocations made so far and the lines printed. *)
Record WorkforceManager := mkManager {
  agents : list Agent;
  tasks : list Task;
  task_queue : list string;
  strategy : WorkforceStrategy;
  event_handlers : dict (list Handler);
  handler_calls : list (string * string * EventData);
  stdout : list string
}.

(** [WorkforceManager(strategy)] *)
Definition new_manager (st : WorkforceStrategy) : WorkforceManager :=
  mkManager [] [] [] st [] [] [].

Definition with_agents (f : list Agent -> list Agent) (s : WorkforceManager) :=
  mkManager (f (agents s)) (tasks s) (task_queue s) (strategy s)
            (event_handlers s) (handler_calls s) (stdout s).

Definition with_tasks (f : list Task -> list Task) (s : WorkforceManager) :=
  mkManager (agents s) (f (tasks s)) (task_queue s) (strategy s)
            (event_handlers s) (handler_calls s) (stdout s).

Definition with_queue (f : list string -> list string) (s : WorkforceManager) :=
  mkManager (agents s) (tasks s) (f (task_queue s)) (strategy s)
            (event_handlers s) (handler_calls s) (stdout s).

Definition with_strategy (st : WorkforceStrategy) (s : WorkforceManager) :=
  mkManager (agents s) (tasks s) (task_queue s) st
            (event_handlers s) (handler_calls s) (stdout s).

Definition with_event_handlers (h : dict (list Handler)) (s : WorkforceManager) :=
  mkManager (agents s) (tasks s) (task_queue s) (strategy s)
            h (handler_calls s) (stdout s).

Definition with_bus_effects (c : list (string * string * EventData))
    (o : list string) (s : WorkforceManager) :=
  mkManager (agents s) (tasks s) (task_queue s) (strategy s)
            (event_handlers s) c o.

(** *** Registries *)

Definition get_task (tid : string) (ts : list Task) : option Task :=
  find (fun t => String.eqb (task_id t) tid) ts.

Definition get_agent (aid : string) (l : list Agent) : option Agent :=
  find (fun a => String.eqb (agent_id a) aid) l.

(** Mutation of the object stored under an id (the entry a lookup finds). *)
Fixpoint update_task (tid : string) (f : Task -> Task) (ts : list Task) :=
  match ts with
  | [] => []
  | t :: ts' =>
      if String.eqb (task_id t) tid then f t :: ts'
      else t :: update_task tid f ts'
  end.

Fixpoint update_agent (aid : string) (f : Agent -> Agent) (l : list Agent) :=
  match l with
  | [] => []
  | a :: l' =>
      if String.eqb (agent_id a) aid then f a :: l'
      else a :: update_agent aid f l'
  end.

(** [self.tasks[task.id] = task] *)
Definition put_task (t : Task) (ts : list Task) : list Task :=
  match get_task (task_id t) ts with
  | Some _ => update_task (task_id t) (fun _ => t) ts
  | None => ts ++ [t]
  end.

(** [self.agents[agent.id] = agent] *)
Definition put_agent (a : Agent) (l : list Agent) : list Agent :=
  match get_agent (agent_id a) l with
  | Some _ => update_agent (agent_id a) (fun _ => a) l
  | None => l ++ [a]
  end.

(** [del self.agents[agent_id]] *)
Definition del_agent (aid : string) (l : list Agent) : list Agent :=
  filter (fun a => negb (String.eqb (agent_id a) aid)) l.

(** [l.remove(x)]: drops the first occurrence; [None] is [ValueError]. *)
Fixpoint list_remove (x : string) (l : list string) : option (list string) :=
  match l with
  | [] => None
  | y :: l' =>
      if String.eqb y x then Some l'
      else match list_remove x l' with
           | Some r => Some (y :: r)
           | None => None
           end
  end.

(** [x in l] *)
Definition mem (x : string) (l : list string) : bool :=
  existsb (String.eqb x) l.

(** *** The monad of manager methods *)

Definition M (A : Type) := WorkforceManager -> WorkforceManager * Res A.

Definition ret {A} (a : A) : M A := fun s => (s, Ok a).

Definition raise {A} (e : PyErr) : M A := fun s => (s, Raise e).

Definition bind {A B} (m : M A) (k : A -> M B) : M B :=
  fun s =>
    match m s with
    | (s', Ok a) => k a s'
    | (s', Raise e) => (s', Raise e)
    end.

Definition modify (f : WorkforceManager -> WorkforceManager) : M unit :=
  fun s => (f s, Ok tt).

Declare Scope py_scope.
Delimit Scope py_scope with py.
Notation "x <- m ;; k" := (bind m (fun x => k))
  (at level 61, m at next level, right associativity) : py_scope.
Notation "m ;; k" := (bind m (fun _ => k))
  (at level 61, right associativity) : py_scope.
Local Open Scope py_scope.

(** [for x in l: body(x)] over a list that the body does not mutate. *)
Fixpoint for_each {A} (l : list A) (body : A -> M unit) : M unit :=
  match l with
  | [] => ret tt
  | x :: l' => body x ;; for_each l' body
  end.

(** *** Event bus *)

(** [add_event_handler] *)
Definition add_event_handler (event_type : string) (handler : Handler)
  : M unit :=
  modify (fun s =>
    let hs := match dict_get event_type (event_handlers s) with
              | Some l => l
              | None => []
              end in
    with_event_handlers
      (dict_set event_type (hs ++ [handler]) (event_handlers s)) s).

(** One turn of the loop of [_emit_event]: call the handler inside
    [try], print on [except Exception].  With observers for handlers the
    turn always ends normally; [Bus.call_handler] is the turn for an
    arbitrary callable. *)
Definition call_handler (event_type : string) (data : EventData)
    (h : Handler) : M unit :=
  modify (fun s =>
    with_bus_effects
      (handler_calls s ++ [(handler_name h, event_type, data)])
      (match handler_body h event_type data with
       | None => stdout s
       | Some e => stdout s ++ [String.append "Error in event handler: " e]
       end) s).

Definition _emit_event (event_type : string) (data : EventData) : M unit :=
  fun s =>
    match dict_get event_type (event_handlers s) with
    | Some hs => for_each hs (call_handler event_type data) s
    | None => (s, Ok tt)
    end.

(** *** The bus with arbitrary callables

    [add_event_handler] and [_emit_event] read and write nothing of the
    manager but [event_handlers], so the bus is modelled on its own here
    for callables that may end in any of the three ways Python allows.
    A callable is given the event type and the data only: it does not
    subscribe handlers or publish events while it runs. *)

Module Bus.

(** How a call [handler(event_type, data)] ends. *)
Inductive Outcome :=
| Returns
| RaisesException (msg : string)
| RaisesBaseException (name : string).

Record Callable := mkCallable {
  callable_name : string;
  callable_body : string -> EventData -> Outcome
}.

(** [self.event_handlers] with the invocations made and the lines
    printed. *)
Record EventBus := mkBus {
  bus_handlers : dict (list Callable);
  bus_calls : list (string * string * EventData);
  bus_stdout : list string
}.

Definition new_bus : EventBus := mkBus [] [] [].

Definition subscribed (event_type : string) (b : EventBus) : list Callable :=
  match dict_get event_type (bus_handlers b) with
  | Some l => l
  | None => []
  end.

(** [add_event_handler] *)
Definition add_event_handler (event_type : string) (handler : Callable)
    (b : EventBus) : EventBus :=
  mkBus (dict_set event_type (subscribed event_type b ++ [handler])
                  (bus_handlers b))
        (bus_calls b) (bus_stdout b).

(** One turn of the loop: [try: handler(event_type, data)
    except Exception as e: print(...)].  An exception outside
    [Exception] is not caught. *)
Definition call_handler (event_type : string) (data : EventData)
    (h : Callable) (b : EventBus) : EventBus * Res unit :=
  let called := bus_calls b ++ [(callable_name h, event_type, data)] in
  match callable_body h event_type data with
  | Returns => (mkBus (bus_handlers b) called (bus_stdout b), Ok tt)
  | RaisesException msg =>
      (mkBus (bus_handlers b) called
             (bus_stdout b ++ [String.append "Error in event handler: " msg]),
       Ok tt)
  | RaisesBaseException name =>
      (mkBus (bus_handlers b) called (bus_stdout b), Raise (BaseException name))
  end.

(** [for handler in self.event_handlers[event_type]: ...] *)
Fixpoint deliver (event_type : string) (data : EventData)
    (hs : list Callable) (b : EventBus) : EventBus * Res unit :=
  match hs with
  | [] => (b, Ok tt)
  | h :: hs' =>
      match call_handler event_type data h b with
      | (b', Ok _) => deliver event_type data hs' b'
      | (b', Raise e) => (b', Raise e)
      end
  end.

Definition _emit_event (event_type : string) (data : EventData)
    (b : EventBus) : EventBus * Res unit :=
  match dict_get event_type (bus_handlers b) with
  | Some hs => deliver event_type data hs b
  | None => (b, Ok tt)
  end.

(** A sequence of [add_event_handler] calls. *)
Definition subscribe_all (regs : list (string * Callable)) (b : EventBus)
  : EventBus :=
  fold_left (fun b' r => add_event_handler (fst r) (snd r) b') regs b.

(** What the bus prints for the handlers that raise an [Exception]. *)
Definition error_lines (event_type : string) (data : EventData)
    (hs : list Callable) : list string :=
  flat_map (fun h => match callable_body h event_type data with
                     | RaisesException msg =>
                         [String.append "Error in event handler: " msg]
                     | _ => []
                     end) hs.

(** The invocations of one delivery to [hs], in order. *)
Definition invocations (event_type : string) (data : EventData)
    (hs : list Callable) : list (string * string * EventData) :=
  map (fun h => (callable_name h, event_type, data)) hs.

(** The handler ends inside [Exception]: it returns or raises one. *)
Definition contained (event_type : string) (data : EventData)
    (h : Callable) : Prop :=
  forall name, callable_body h event_type data <> RaisesBaseException name.

(** An observer of the manager as a callable. *)
Definition of_handler (h : Handler) : Callable :=
  mkCallable (handler_name h)
    (fun event_type data =>
       match handler_body h event_type data with
       | None => Returns
       | Some msg => RaisesException msg
       end).

(** The bus of a manager. *)
Definition of_manager (s : WorkforceManager) : EventBus :=
  mkBus (map (fun kv => (fst kv, map of_handler (snd kv)))
             (event_handlers s))
        (handler_calls s) (stdout s).

End Bus.

(** *** Scheduler core *)

Definition register_agent (agent : Agent) : M unit :=
  modify (with_agents (put_agent agent)) ;;
  _emit_event "agent_registered" [("agent_id", VStr (agent_id agent))].

Definition _get_available_agents (s : WorkforceManager) : list Agent :=
  filter (fun a => is_active a && under_capacity a) (agents s).

Definition _assign_task_to_agent (task : Task) (agent : Agent) : M unit :=
  modify (with_tasks (update_task (task_id task)
            (fun t => set_status IN_PROGRESS
                        (set_assigned_agent (Some (agent_id agent)) t)))) ;;
  modify (with_agents (update_agent (agent_id agent)
            (fun a => set_current_tasks (current_tasks a ++ [task_id task]) a))) ;;
  _emit_event "task_assigned"
    [("task_id", VStr (task_id task)); ("agent_id", VStr (agent_id agent))].

(** The first loop of [_process_task_queue]; the queue itself is not
    touched before the second loop, so the loop runs over its value. *)
Fixpoint drain_loop (queue processed_tasks : list string) : M (list string) :=
  match queue with
  | [] => ret processed_tasks
  | tid :: queue' =>
      fun s =>
        match get_task tid (tasks s) with
        | None => (s, Raise (KeyError tid))
        | Some task =>
            if negb (status_eqb (status task) PENDING)
            then drain_loop queue' (processed_tasks ++ [tid]) s
            else
              let available_agents := _get_available_agents s in
              let (st', assigned_agent) :=
                assign_task (strategy s) task available_agents in
              match assigned_agent with
              | Some agent =>
                  (_assign_task_to_agent task agent ;;
                   drain_loop queue' (processed_tasks ++ [tid]))
                    (with_strategy st' s)
              | None => drain_loop queue' processed_tasks (with_strategy st' s)
              end
        end
  end.

(** [self.task_queue.remove(task_id)] *)
Definition queue_remove (tid : string) : M unit :=
  fun s =>
    match list_remove tid (task_queue s) with
    | Some q => (with_queue (fun _ => q) s, Ok tt)
    | None => (s, Raise (ValueError "list.remove(x): x not in list"))
    end.

Definition _process_task_queue : M unit :=
  fun s =>
    (processed_tasks <- drain_loop (task_queue s) [] ;;
     for_each processed_tasks queue_remove) s.

(** The dependency gate of [submit_task]: some dependency is missing or
    not completed. *)
Definition dependency_unmet (ts : list Task) (dep_id : string) : bool :=
  match get_task dep_id ts with
  | None => true
  | Some d => negb (status_eqb (status d) COMPLETED)
  end.

Definition submit_task (task : Task) : M bool :=
  fun s =>
    if existsb (dependency_unmet (tasks s)) (dependencies task)
    then (s, Ok false)
    else
      (modify (with_tasks (put_task task)) ;;
       modify (with_queue (fun q => q ++ [task_id task])) ;;
       _emit_event "task_submitted" [("task_id", VStr (task_id task))] ;;
       _process_task_queue ;;
       ret true) s.

(** The block shared verbatim by [complete_task] and [fail_task]:
    [if task.assigned_agent: agent = self.agents[...];
     agent.current_tasks.remove(task_id);
     self._update_agent_metrics(agent, success)]. *)
Definition release_agent (assigned : option string) (tid : string)
    (success : bool) : M unit :=
  fun s =>
    match assigned with
    | Some aid =>
        if truthy assigned then
          match get_agent aid (agents s) with
          | None => (s, Raise (KeyError aid))
          | Some agent =>
              match list_remove tid (current_tasks agent) with
              | None => (s, Raise (ValueError "list.remove(x): x not in list"))
              | Some l =>
                  let (m, r) :=
                    _update_agent_metrics success (performance_metrics agent) in
                  (with_agents
                     (update_agent aid
                        (fun a => set_performance_metrics m
                                    (set_current_tasks l a))) s,
                   r)
              end
          end
        else (s, Ok tt)
    | None => (s, Ok tt)
    end.

Definition all_deps_completed (ts : list Task) (task : Task) : bool :=
  forallb (fun dep_id =>
             match get_task dep_id ts with
             | Some d => status_eqb (status d) COMPLETED
             | None => true
             end)
          (dependencies task).

Definition _process_dependent_tasks (completed_task_id : string) : M unit :=
  fun s =>
    for_each (tasks s)
      (fun task s' =>
         if mem completed_task_id (dependencies task)
            && status_eqb (status task) PENDING
            && negb (mem (task_id task) (task_queue s'))
         then
           if all_deps_completed (tasks s') task
           then (with_queue (fun q => q ++ [task_id task]) s', Ok tt)
           else (s', Ok tt)
         else (s', Ok tt)) s.

Definition complete_task (tid : string) (res : PyVal) : M bool :=
  fun s =>
    match get_task tid (tasks s) with
    | None => (s, Ok false)
    | Some task =>
        if negb (status_eqb (status task) IN_PROGRESS) then (s, Ok false)
        else
          (modify (with_tasks (update_task tid
                     (fun t => set_result res (set_status COMPLETED t)))) ;;
           release_agent (assigned_agent task) tid true ;;
           _emit_event "task_completed" [("task_id", VStr tid)] ;;
           _process_dependent_tasks tid ;;
           _process_task_queue ;;
           ret true) s
    end.

Definition fail_task (tid : string) (reason : PyVal) : M bool :=
  fun s =>
    match get_task tid (tasks s) with
    | None => (s, Ok false)
    | Some task =>
        if negb (status_eqb (status task) IN_PROGRESS) then (s, Ok false)
        else
          (modify (with_tasks (update_task tid
                     (fun t => set_metadata
                                 (dict_set "failure_reason" reason (metadata t))
                                 (set_status FAILED t)))) ;;
           release_agent (assigned_agent task) tid false ;;
           _emit_event "task_failed"
             [("task_id", VStr tid); ("reason", reason)] ;;
           ret true) s
    end.

Definition _reassign_task (tid : string) : M unit :=
  fun s =>
    match get_task tid (tasks s) with
    | None => (s, Raise (KeyError tid))
    | Some task =>
        ((fun s1 =>
            match assigned_agent task with
            | Some aid =>
                if truthy (assigned_agent task) then
                  match get_agent aid (agents s1) with
                  | None => (s1, Raise (KeyError aid))
                  | Some agent =>
                      match list_remove tid (current_tasks agent) with
                      | None =>
                          (s1, Raise (ValueError "list.remove(x): x not in list"))
                      | Some l =>
                          (with_agents
                             (update_agent aid (set_current_tasks l)) s1,
                           Ok tt)
                      end
                  end
                else (s1, Ok tt)
            | None => (s1, Ok tt)
            end) ;;
         modify (with_tasks (update_task tid
                   (fun t => set_status PENDING (set_assigned_agent None t)))) ;;
         modify (with_queue (fun q => q ++ [tid]))) s
    end.

(** [for task_id in agent.current_tasks: self._reassign_task(task_id)].
    The list iterated is the live list of the agent being removed, which
    [_reassign_task] itself shortens; the Python list iterator is an index
    [i] into that list, re-read at every turn.  [fuel] bounds the number
    of turns ([reassign_loop_fuel] shows the initial length is enough). *)
Fixpoint reassign_loop (aid : string) (fuel i : nat) : M unit :=
  match fuel with
  | O => ret tt
  | S fuel' =>
      fun s =>
        match get_agent aid (agents s) with
        | None => (s, Ok tt)
        | Some agent =>
            match nth_error (current_tasks agent) i with
            | None => (s, Ok tt)
            | Some tid =>
                (_reassign_task tid ;; reassign_loop aid fuel' (S i)) s
            end
        end
  end.

Definition remove_agent (aid : string) : M bool :=
  fun s =>
    match get_agent aid (agents s) with
    | Some agent =>
        (reassign_loop aid (length (current_tasks agent)) 0 ;;
         modify (with_agents (del_agent aid)) ;;
         _emit_event "agent_removed" [("agent_id", VStr aid)] ;;
         ret true) s
    | None => (s, Ok false)
    end.

(** ** Public calls and runs *)

Inductive Call :=
| RegisterAgent (agent : Agent)
| RemoveAgent (aid : string)
| SubmitTask (task : Task)
| CompleteTask (tid : string) (res : PyVal)
| FailTask (tid : string) (reason : PyVal)
| AddEventHandler (event_type : string) (handler : Handler).

(** The return value of a call: [None] for the methods returning nothing. *)
Definition exec (c : Call) : M (option bool) :=
  match c with
  | RegisterAgent a => register_agent a ;; ret None
  | RemoveAgent aid => b <- remove_agent aid ;; ret (Some b)
  | SubmitTask t => b <- submit_task t ;; ret (Some b)
  | CompleteTask tid r => b <- complete_task tid r ;; ret (Some b)
  | FailTask tid r => b <- fail_task tid r ;; ret (Some b)
  | AddEventHandler k h => add_event_handler k h ;; ret None
  end.

(** The manager after a call; a caller that catches the exception of a
    raising call goes on with the state the call left behind. *)
Definition step (s : WorkforceManager) (c : Call) : WorkforceManager :=
  fst (exec c s).

Definition run (s : WorkforceManager) (cs : list Call) : WorkforceManager :=
  fold_left step cs s.

(** ** Concrete scenarios *)

Module Scenario.

Definition agent (aid : string) (caps : list string) (cap : Z) : Agent :=
  mkAgent aid aid WORKER caps cap [] [] true.

Definition task (tid : string) (reqs deps : list string) : Task :=
  mkTask tid tid reqs 1 PENDING None VNone deps [].

Definition status_of (tid : string) (s : WorkforceManager) :=
  option_map status (get_task tid (tasks s)).

Definition assigned_of (tid : string) (s : WorkforceManager) :=
  option_map assigned_agent (get_task tid (tasks s)).

Definition held_by (aid : string) (s : WorkforceManager) :=
  option_map current_tasks (get_agent aid (agents s)).

(** One agent of capacity two holding [t1] and [t2]. *)
Definition two_held : WorkforceManager :=
  run (new_manager CapabilityBasedStrategy)
      [RegisterAgent (agent "a1" ["x"] 2);
       SubmitTask (task "t1" ["x"] []);
       SubmitTask (task "t2" ["x"] [])].

(** One agent of capacity one running [t1], with [t2] waiting. *)
Definition one_waiting : WorkforceManager :=
  run (new_manager CapabilityBasedStrategy)
      [RegisterAgent (agent "a1" ["x"] 1);
       SubmitTask (task "t1" ["x"] []);
       SubmitTask (task "t2" ["x"] [])].

(** [tY] depends on [tX] and was submitted once [tX] was Completed, while
    the only agent able to run it was busy; [tX] was then submitted again
    and is running on [a1], and [a2] has been freed by a failure. *)
Definition dependent_waiting : WorkforceManager :=
  run (new_manager CapabilityBasedStrategy)
      [RegisterAgent (agent "a1" ["x"] 1);
       RegisterAgent (agent "a2" ["y"] 1);
       SubmitTask (task "tX" ["x"] []);
       CompleteTask "tX" VNone;
       SubmitTask (task "tB" ["y"] []);
       SubmitTask (task "tY" ["y"] ["tX"]);
       SubmitTask (task "tX" ["x"] []);
       FailTask "tB" VNone].

End Scenario.

(** ** Vocabulary of the properties *)


(** Handlers registered for an event kind, in registration order. *)
Definition subscribed (event_type : string) (s : WorkforceManager)
  : list Handler :=
  match dict_get event_type (event_handlers s) with
  | Some l => l
  | None => []
  end.

(** A sequence of [add_event_handler] calls. *)
Definition subscribe_all (regs : list (string * Handler))
    (s : WorkforceManager) : WorkforceManager :=
  fold_left (fun s' r => fst (add_event_handler (fst r) (snd r) s')) regs s.

(** What the bus prints for the handlers that raise. *)
Definition error_lines (event_type : string) (data : EventData)
    (hs : list Handler) : list string :=
  flat_map (fun h => match handler_body h event_type data with
                     | Some e => [String.append "Error in event handler: " e]
                     | None => []
                     end) hs.

(** The invariant of the data model as the specification words it. *)
Definition assigned_iff_in_progress (s : WorkforceManager) : Prop :=
  forall t, In t (tasks s) ->
    (assigned_agent t <> None <-> status t = IN_PROGRESS).

(** The invariant the code maintains: a task has no agent recorded
    exactly while it is Pending. *)
Definition unassigned_iff_pending (t : Task) : Prop :=
  assigned_agent t = None <-> status t = PENDING.

Definition terminal (st : TaskStatus) : bool :=
  match st with
  | COMPLETED | FAILED => true
  | _ => false
  end.

(** The metrics dict of an agent with [total] recorded outcomes, [n] of
    them successes; it has no key at all before the first update. *)
Definition metrics_dict (total successful rate : Q) : dict Q :=
  [("total_tasks", total); ("successful_tasks", successful);
   ("success_rate", rate)].

(** The two registry writes of [_assign_task_to_agent]. *)
Definition assigned_state (task : Task) (agent : Agent)
    (s : WorkforceManager) : WorkforceManager :=
  with_agents
    (update_agent (agent_id agent)
       (fun a => set_current_tasks (current_tasks a ++ [task_id task]) a))
    (with_tasks
       (update_task (task_id task)
          (fun t => set_status IN_PROGRESS
                      (set_assigned_agent (Some (agent_id agent)) t)))
       s).

(** The registry and queue writes of [_reassign_task] once the task is
    detached from its agent. *)
Definition requeued_state (tid : string) (s : WorkforceManager)
  : WorkforceManager :=
  with_queue (fun q => q ++ [tid])
    (with_tasks
       (update_task tid
          (fun t => set_status PENDING (set_assigned_agent None t))) s).

(** A sequence of calls each of which satisfies [ok] in the state it is
    made in. *)
Fixpoint admissible (ok : WorkforceManager -> Call -> Prop)
    (s : WorkforceManager) (cs : list Call) : Prop :=
  match cs with
  | [] => True
  | c :: cs' => ok s c /\ admissible ok (step s c) cs'
  end.

(** What callers may pass for the data-model invariant to make sense:
    a submitted task object is itself consistent (a fresh task is). *)
Definition submits_consistent (c : Call) : Prop :=
  match c with
  | SubmitTask t => unassigned_iff_pending t
  | _ => True
  end.

(** [len(a.current_tasks) <= a.max_concurrent_tasks] for agents with a
    capacity of at least one. *)
Definition within_capacity (a : Agent) : Prop :=
  (1 <= max_concurrent_tasks a ->
   Z.of_nat (length (current_tasks a)) <= max_concurrent_tasks a)%Z.

(** Agents are handed to [register_agent] within their capacity (a fresh
    agent holds no task). *)
Definition registers_within_capacity (c : Call) : Prop :=
  match c with
  | RegisterAgent a => within_capacity a
  | _ => True
  end.

Definition capacity_respected (s : WorkforceManager) : Prop :=
  NoDup (map agent_id (agents s)) /\ Forall within_capacity (agents s).

(** Every queued id is a registered task. *)
Definition queue_registered (s : WorkforceManager) : Prop :=
  forall tid, In tid (task_queue s) -> get_task tid (tasks s) <> None.

(** Task [tid] is registered with status [st]. *)
Definition has_status (tid : string) (st : TaskStatus)
    (s : WorkforceManager) : Prop :=
  exists t, get_task tid (tasks s) = Some t /\ status t = st.

(** Agent [aid], if registered, does not hold [tid]. *)
Definition not_held_by (tid aid : string) (s : WorkforceManager) : Prop :=
  forall agent, get_agent aid (agents s) = Some agent ->
                ~ In tid (current_tasks agent).

(** Calls that leave the registry entry of [tid] alone: no task with that
    id is submitted again, and no agent is removed while its
    [current_tasks] lists [tid]. *)
Definition spares (tid : string) (s : WorkforceManager) (c : Call) : Prop :=
  match c with
  | SubmitTask t => task_id t <> tid
  | RemoveAgent aid => not_held_by tid aid s
  | _ => True
  end.


Definition tasks_consistent (s : WorkforceManager) : Prop :=
  Forall unassigned_iff_pending (tasks s).

(** An agent a strategy can pick for a task: available to the scheduler
    (active, under capacity) and, except under round-robin, which ignores
    requirements, holding every required capability. *)
Definition eligible (st : WorkforceStrategy) (t : Task) (a : Agent) : bool :=
  is_active a && under_capacity a &&
  match st with
  | RoundRobinStrategy _ => true
  | _ => has_capabilities t a
  end.

Definition has_eligible_agent (s : WorkforceManager) (t : Task) : bool :=
  existsb (eligible (strategy s) t) (agents s).

(** What one pass of the first loop of [_process_task_queue] may do to
    the manager: the queue is as before, a task is either untouched or
    was Pending and is now InProgress with an agent recorded, and no agent
    becomes eligible that was not. *)
Definition evolves (s s' : WorkforceManager) : Prop :=
  task_queue s' = task_queue s /\
  (forall tid t, get_task tid (tasks s) = Some t ->
     exists t', get_task tid (tasks s') = Some t' /\
       (t' = t \/
        (status t = PENDING /\
         exists aid,
           t' = set_status IN_PROGRESS (set_assigned_agent (Some aid) t)))) /\
  (forall t, has_eligible_agent s' t = true -> has_eligible_agent s t = true).

(** The metrics dict is one [_update_agent_metrics] can update without
    raising, whatever the outcome recorded (the empty dict of a fresh agent
    and every dict the manager wrote from it are). *)
Definition metrics_ready (m : dict Q) : Prop :=
  forall success, snd (_update_agent_metrics success m) = Ok tt.

(** The agent recorded on a task can be released: it is registered, lists
    the task, and its metrics can be updated. *)
Definition release_ready (s : WorkforceManager) (task : Task) : Prop :=
  truthy (assigned_agent task) = true ->
  exists aid agent,
    assigned_agent task = Some aid /\
    get_agent aid (agents s) = Some agent /\
    In (task_id task) (current_tasks agent) /\
    metrics_ready (performance_metrics agent).

(** [d] is a registered, Completed task. *)
Definition completed_in (ts : list Task) (d : string) : Prop :=
  exists td, get_task d ts = Some td /\ status td = COMPLETED.

(** Every registered task that is Pending is in the queue. *)
Definition pending_queued (s : WorkforceManager) : Prop :=
  forall tid t, get_task tid (tasks s) = Some t -> status t = PENDING ->
                In tid (task_queue s).

(** The queue and the registry agree: queued ids are registered, and
    Pending tasks are queued. *)
Definition queue_sound (s : WorkforceManager) : Prop :=
  queue_registered s /\ pending_queued s.

Definition task_ids_distinct (s : WorkforceManager) : Prop :=
  NoDup (map task_id (tasks s)).

(** *** Metrics of one agent along a run *)









(** *** Capacity *)

(** Agent [a] is registered over its capacity of at least one. *)
Definition over_capacity (a : Agent) : Prop :=
  (1 <= max_concurrent_tasks a)%Z /\
  (max_concurrent_tasks a < Z.of_nat (length (current_tasks a)))%Z.

(** ** Further methods of the module *)

(** [get_workforce_status]: the dict of counts, keys in source order. *)
Definition count_status (st : TaskStatus) (ts : list Task) : nat :=
  length (filter (fun t => status_eqb (status t) st) ts).

Definition get_workforce_status (s : WorkforceManager) : dict nat :=
  [("total_agents", length (agents s));
   ("active_agents", length (filter is_active (agents s)));
   ("total_tasks", length (tasks s));
   ("pending_tasks", count_status PENDING (tasks s));
   ("in_progress_tasks", count_status IN_PROGRESS (tasks s));
   ("completed_tasks", count_status COMPLETED (tasks s));
   ("failed_tasks", count_status FAILED (tasks s));
   ("queue_length", length (task_queue s))].

(** [agent.role.value] *)
Definition role_value (r : AgentRole) : string :=
  match r with
  | WORKER => "worker"
  | SUPERVISOR => "supervisor"
  | COORDINATOR => "coordinator"
  | SPECIALIST => "specialist"
  end.

(** One value of the dict returned by [get_agent_workload]. *)
Record WorkloadInfo := mkWorkloadInfo {
  info_name : string;
  info_role : string;
  info_current_tasks : nat;
  info_max_concurrent : Z;
  info_utilization : Q;
  info_performance_metrics : dict Q
}.

(** The outcome of [get_agent_workload]: the dict, or the
    [ZeroDivisionError] of [len(...) / agent.max_concurrent_tasks]. *)
Inductive WorkloadResult :=
| Workloads (workload : dict WorkloadInfo)
| ZeroDivisionError.

(** The loop of [get_agent_workload] over [self.agents.items()]. *)
Fixpoint workload_loop (l : list Agent) (workload : dict WorkloadInfo)
  : WorkloadResult :=
  match l with
  | [] => Workloads workload
  | agent :: l' =>
      if Z.eqb (max_concurrent_tasks agent) 0 then ZeroDivisionError
      else
        workload_loop l'
          (dict_set (agent_id agent)
             (mkWorkloadInfo (name agent) (role_value (role agent))
                (length (current_tasks agent)) (max_concurrent_tasks agent)
                (inject_Z (Z.of_nat (length (current_tasks agent)))
                 / inject_Z (max_concurrent_tasks agent))
                (performance_metrics agent))
             workload)
  end.

Definition get_agent_workload (s : WorkforceManager) : WorkloadResult :=
  workload_loop (agents s) [].

(** ** Vocabulary of the further properties *)

(** Successive [assign_task] calls of one strategy object, one per task,
    on the same candidate list. *)
Fixpoint assign_each (st : WorkforceStrategy) (ts : list Task)
    (candidates : list Agent) : WorkforceStrategy * list (option Agent) :=
  match ts with
  | [] => (st, [])
  | t :: ts' =>
      let (st1, r) := assign_task st t candidates in
      let (st2, rs) := assign_each st1 ts' candidates in
      (st2, r :: rs)
  end.

(** The elements at positions 0, 2, 4, ... *)
Fixpoint evens (l : list string) : list string :=
  match l with
  | x :: _ :: l' => x :: evens l'
  | _ => l
  end.

(** The elements at positions 1, 3, 5, ... *)
Fixpoint odds (l : list string) : list string :=
  match l with
  | _ :: y :: l' => y :: odds l'
  | _ => []
  end.

(** Whether the registry holds [tid] as a Pending task. *)
Definition pending_in (s : WorkforceManager) (tid : string) : bool :=
  match get_task tid (tasks s) with
  | Some t => status_eqb (status t) PENDING
  | None => false
  end.

(** No submitted task object is Cancelled. *)
Definition submits_not_cancelled (c : Call) : Prop :=
  match c with
  | SubmitTask t => status t <> CANCELLED
  | _ => True
  end.

(** Task [tid] is registered as Completed with result [res]. *)
Definition completed_with (tid : string) (res : PyVal)
    (s : WorkforceManager) : Prop :=
  exists t, get_task tid (tasks s) = Some t /\
            status t = COMPLETED /\ result t = res.

(** The value [get_agent_workload] stores for an agent. *)
Definition workload_info (a : Agent) : WorkloadInfo :=
  mkWorkloadInfo (name a) (role_value (role a))
    (length (current_tasks a)) (max_concurrent_tasks a)
    (inject_Z (Z.of_nat (length (current_tasks a)))
     / inject_Z (max_concurrent_tasks a))
    (performance_metrics a).

Definition no_task_cancelled (s : WorkforceManager) : Prop :=
  Forall (fun t => status t <> CANCELLED) (tasks s).

Definition agent_ids_distinct (s : WorkforceManager) : Prop :=
  NoDup (map agent_id (agents s)).

(** The registry still lists the ids [base], in that order, first. *)
Definition extends_ids (base : list string) (s : WorkforceManager) : Prop :=
  exists more, map task_id (tasks s) = base ++ more.

(** An agent that is not active holds no task. *)
Definition idle_when_inactive (a : Agent) : Prop :=
  is_active a = false -> current_tasks a = [].

Definition registers_idle_when_inactive (c : Call) : Prop :=
  match c with
  | RegisterAgent a => idle_when_inactive a
  | _ => True
  end.

Definition inactive_agents_idle (s : WorkforceManager) : Prop :=
  NoDup (map agent_id (agents s)) /\ Forall idle_when_inactive (agents s).

(** * Properties *)

(** ** Basic facts *)

Lemma status_eqb_eq a b : status_eqb a b = true <-> a = b.
Proof. destruct a, b; simpl; split; congruence. Qed.

Lemma status_eqb_refl a : status_eqb a a = true.
Proof. now destruct a. Qed.

Lemma status_eqb_neq a b : status_eqb a b = false <-> a <> b.
Proof. destruct a, b; simpl; split; congruence. Qed.

Lemma dict_get_set_same V k (v : V) d : dict_get k (dict_set k v d) = Some v.
Proof.
  induction d as [|[k' v'] d IH]; simpl.
  - now rewrite String.eqb_refl.
  - destruct (String.eqb k' k) eqn:E; simpl.
    + now rewrite String.eqb_refl.
    + now rewrite E.
Qed.

Lemma dict_get_set_other V k k' (v : V) d :
  k <> k' -> dict_get k' (dict_set k v d) = dict_get k' d.
Proof.
  intros Hn. induction d as [|[k0 v0] d IH]; simpl.
  - destruct (String.eqb_spec k k'); congruence.
  - destruct (String.eqb_spec k0 k) as [->|Hk]; simpl.
    + destruct (String.eqb_spec k k'); congruence.
    + now rewrite IH.
Qed.

(** ** Agent removal (C1) *)

(** C1 (defect).  Removing agent [a1] while it holds [t1; t2] returns
    [True] but detaches [t1] only: the loop runs over the very list that
    [_reassign_task] shortens, so [t2] is skipped.  It stays InProgress,
    still assigned to the agent that no longer exists, and is not queued. *)
Theorem remove_agent_skips_held_task :
  let r := remove_agent "a1" Scenario.two_held in
  Scenario.held_by "a1" Scenario.two_held = Some ["t1"; "t2"] /\
  snd r = Ok true /\
  get_agent "a1" (agents (fst r)) = None /\
  Scenario.status_of "t1" (fst r) = Some PENDING /\
  Scenario.assigned_of "t1" (fst r) = Some None /\
  Scenario.status_of "t2" (fst r) = Some IN_PROGRESS /\
  Scenario.assigned_of "t2" (fst r) = Some (Some "a1") /\
  task_queue (fst r) = ["t1"].
Proof. vm_compute. repeat split; reflexivity. Qed.

(** ** Raised faults (C3) *)

(** C3 (defect).  After the removal above, [t2] records an agent that is
    gone; [complete_task] and [fail_task] then raise [KeyError] from
    [self.agents[task.assigned_agent]] instead of returning [False], and
    the status write made before the lookup stays. *)
Theorem complete_task_raises_for_removed_agent :
  let s := fst (remove_agent "a1" Scenario.two_held) in
  snd (complete_task "t2" VNone s) = Raise (KeyError "a1") /\
  Scenario.status_of "t2" (fst (complete_task "t2" VNone s)) = Some COMPLETED /\
  snd (fail_task "t2" VNone s) = Raise (KeyError "a1") /\
  Scenario.status_of "t2" (fst (fail_task "t2" VNone s)) = Some FAILED.
Proof. vm_compute. repeat split; reflexivity. Qed.

(** ** Failure and the queue (C4) *)

(** C4 (defect).  [fail_task] never calls [_process_task_queue].  With
    [t1] running on the only agent and [t2] waiting, failing [t1]
    returns [True] and frees the agent, the strategy would pick that
    agent for [t2], yet [t2] stays Pending in the queue; [complete_task]
    on the same state does drain the queue. *)
Theorem fail_task_does_not_drain_queue :
  let s := Scenario.one_waiting in
  let r := fail_task "t1" VNone s in
  snd r = Ok true /\
  Scenario.status_of "t1" (fst r) = Some FAILED /\
  Scenario.held_by "a1" (fst r) = Some [] /\
  option_map agent_id
    (snd (assign_task (strategy (fst r)) (Scenario.task "t2" ["x"] [])
            (_get_available_agents (fst r)))) = Some "a1" /\
  Scenario.status_of "t2" (fst r) = Some PENDING /\
  task_queue (fst r) = ["t2"] /\
  Scenario.status_of "t2" (fst (complete_task "t1" VNone s)) = Some IN_PROGRESS.
Proof. vm_compute. repeat split; reflexivity. Qed.

(** ** Metrics *)



(** [py_truediv] against the IEEE 754 division of the Standard Library
    ([SFdiv] in binary64): exact quotients, ties, the overflow threshold
    and gradual underflow. *)
Example py_truediv_agrees_with_SFdiv :
  forallb
    (fun p : positive * positive =>
       same_number
         (py_truediv (inject_Z (Zpos (fst p))) (inject_Z (Zpos (snd p))))
         (specfloat_div (fst p) (snd p)))
    [(1, 3); (2, 3); (3, 4); (1, 10); (7, 9); (5, 7); (1, 1);
     (123456789, 987654321); (9007199254740993, 1); (9007199254740995, 3);
     (1, 9007199254740993); (4611686018427387903, 7);
     (10 ^ 310, 1); (10 ^ 400, 3); (3, 10 ^ 320); (1, 10 ^ 330);
     (2 ^ 1024 - 2 ^ 970, 1); (2 ^ 1024 - 2 ^ 970 - 1, 1);
     (5, 2 ^ 1075); (3, 2 ^ 1075); (1, 2 ^ 1075); (7, 2 ^ 1076)]%positive
  = true.
Proof. vm_compute. reflexivity. Qed.

Example py_truediv_one_third :
  py_truediv 1 3 = Some (6004799503160661 # 18014398509481984).
Proof. vm_compute. reflexivity. Qed.

Example py_truediv_overflow : py_truediv (inject_Z (10 ^ 310)) 1 = None.
Proof. vm_compute. reflexivity. Qed.









(** ** Event bus *)

Lemma with_bus_effects_id s :
  with_bus_effects (handler_calls s) (stdout s) s = s.
Proof. now destruct s. Qed.

Lemma for_each_call_handler event_type data hs : forall s,
  for_each hs (call_handler event_type data) s =
  (with_bus_effects
     (handler_calls s
        ++ map (fun h => (handler_name h, event_type, data)) hs)
     (stdout s ++ error_lines event_type data hs) s,
   Ok tt).
Proof.
  induction hs as [|h hs IH]; intros s.
  - cbn. now rewrite !app_nil_r, with_bus_effects_id.
  - cbn [for_each]. unfold bind at 1. unfold call_handler at 1, modify.
    rewrite IH. cbn [handler_calls stdout with_bus_effects map error_lines
                     flat_map agents tasks task_queue strategy event_handlers].
    rewrite <- !app_assoc. f_equal.
    destruct (handler_body h event_type data); cbn [app];
      now rewrite <- ?app_assoc.
Qed.

Lemma emit_event_spec event_type data s :
  _emit_event event_type data s =
  (with_bus_effects
     (handler_calls s
        ++ map (fun h => (handler_name h, event_type, data))
               (subscribed event_type s))
     (stdout s ++ error_lines event_type data (subscribed event_type s)) s,
   Ok tt).
Proof.
  unfold _emit_event, subscribed.
  destruct (dict_get event_type (event_handlers s)) as [hs|].
  - apply for_each_call_handler.
  - cbn. now rewrite !app_nil_r, with_bus_effects_id.
Qed.

Lemma subscribed_add_event_handler k k' h s :
  subscribed k (fst (add_event_handler k' h s)) =
  if String.eqb k' k then subscribed k s ++ [h] else subscribed k s.
Proof.
  unfold add_event_handler, modify, subscribed. cbn [fst event_handlers with_event_handlers].
  destruct (String.eqb_spec k' k) as [->|Hk].
  - now rewrite dict_get_set_same.
  - now rewrite dict_get_set_other.
Qed.

Lemma subscribed_subscribe_all k regs : forall s,
  subscribed k (subscribe_all regs s) =
  subscribed k s
    ++ map snd (filter (fun r => String.eqb (fst r) k) regs).
Proof.
  induction regs as [|[k' h] regs IH]; intros s.
  - cbn. now rewrite app_nil_r.
  - cbn [subscribe_all fold_left]. fold (subscribe_all regs).
    rewrite IH, subscribed_add_event_handler.
    cbn [filter fst snd]. destruct (String.eqb k' k); cbn [map snd].
    + now rewrite <- app_assoc.
    + reflexivity.
Qed.

(** ** Registry lemmas *)

Lemma get_task_Some tid ts t :
  get_task tid ts = Some t -> In t ts /\ task_id t = tid.
Proof.
  unfold get_task. intros H. apply find_some in H as [Hin He].
  split; [assumption | now apply String.eqb_eq].
Qed.

Lemma get_agent_Some aid l a :
  get_agent aid l = Some a -> In a l /\ agent_id a = aid.
Proof.
  unfold get_agent. intros H. apply find_some in H as [Hin He].
  split; [assumption | now apply String.eqb_eq].
Qed.

Lemma get_task_In t ts : In t ts -> get_task (task_id t) ts <> None.
Proof.
  unfold get_task. intros Hin Hn.
  apply (find_none _ _ Hn) in Hin. now rewrite String.eqb_refl in Hin.
Qed.

Lemma get_task_update tid tid' f ts :
  (forall t, task_id (f t) = task_id t) ->
  get_task tid' (update_task tid f ts) =
  if String.eqb tid tid' then option_map f (get_task tid' ts)
  else get_task tid' ts.
Proof.
  intros Hf. induction ts as [|t ts IH]; cbn [update_task get_task find].
  - now destruct (String.eqb tid tid').
  - fold (get_task tid' ts) in *. fold (get_task tid' (update_task tid f ts)) in *.
    destruct (String.eqb_spec (task_id t) tid) as [E|E].
    + cbn [find]. rewrite Hf, E.
      destruct (String.eqb_spec tid tid') as [E'|E']; [reflexivity|].
      reflexivity.
    + cbn [find]. fold (get_task tid' (update_task tid f ts)).
      rewrite IH.
      destruct (String.eqb_spec (task_id t) tid') as [E1|E1]; [|reflexivity].
      destruct (String.eqb_spec tid tid'); [congruence | reflexivity].
Qed.

Lemma get_agent_update aid aid' f l :
  (forall a, agent_id (f a) = agent_id a) ->
  get_agent aid' (update_agent aid f l) =
  if String.eqb aid aid' then option_map f (get_agent aid' l)
  else get_agent aid' l.
Proof.
  intros Hf. induction l as [|a l IH]; cbn [update_agent get_agent find].
  - now destruct (String.eqb aid aid').
  - fold (get_agent aid' l) in *.
    destruct (String.eqb_spec (agent_id a) aid) as [E|E].
    + cbn [find]. rewrite Hf, E.
      destruct (String.eqb_spec aid aid') as [E'|E']; reflexivity.
    + cbn [find]. fold (get_agent aid' (update_agent aid f l)).
      rewrite IH.
      destruct (String.eqb_spec (agent_id a) aid') as [E1|E1]; [|reflexivity].
      destruct (String.eqb_spec aid aid'); [congruence | reflexivity].
Qed.

Lemma Forall_update_task (P : Task -> Prop) tid f ts t0 :
  Forall P ts -> get_task tid ts = Some t0 -> P (f t0) ->
  Forall P (update_task tid f ts).
Proof.
  induction ts as [|t ts IH]; cbn [update_task get_task find]; intros HF Hg Hp.
  - constructor.
  - inversion HF; subst. destruct (String.eqb (task_id t) tid).
    + injection Hg as ->. now constructor.
    + constructor; [assumption | now apply IH].
Qed.

Lemma Forall_put_task (P : Task -> Prop) t ts :
  Forall P ts -> P t -> Forall P (put_task t ts).
Proof.
  intros HF Hp. unfold put_task.
  destruct (get_task (task_id t) ts) eqn:E.
  - now apply Forall_update_task with (t0 := t0).
  - apply Forall_app. split; [assumption | now constructor].
Qed.

(** ** The strategies pick among the candidates *)

Lemma fold_left_pick (A : Type) (f : A -> A -> A) l : forall x,
  (forall b a, f b a = b \/ f b a = a) ->
  In (fold_left f l x) (x :: l).
Proof.
  induction l as [|y l IH]; intros x Hf; cbn [fold_left].
  - now left.
  - destruct (IH (f x y) Hf) as [E|Hin].
    + rewrite <- E. destruct (Hf x y) as [-> | ->]; [now left | right; now left].
    + right. now right.
Qed.

Lemma assign_task_In st task l st' a :
  assign_task st task l = (st', Some a) -> In a l.
Proof.
  destruct st as [last| |]; cbn [assign_task].
  - destruct l as [|x l]; [discriminate|].
    intros H. injection H as _ H. now apply nth_error_In in H.
  - destruct (filter (has_capabilities task) l) as [|x rest] eqn:E;
      [discriminate|].
    intros H. injection H as _ <-.
    assert (Hin : In (max_by_success_rate x rest) (x :: rest)).
    { apply fold_left_pick. intros b a0.
      destruct (Qgtb _ _); [now right | now left]. }
    rewrite <- E in Hin. now apply filter_In in Hin.
  - destruct (filter _ l) as [|x rest] eqn:E; [discriminate|].
    intros H. injection H as _ <-.
    assert (Hin : In (min_by_load x rest) (x :: rest)).
    { apply fold_left_pick. intros b a0.
      destruct (Nat.ltb _ _); [now right | now left]. }
    rewrite <- E in Hin. now apply filter_In in Hin.
Qed.

Lemma assign_task_to_agent_spec task agent s :
  exists c o,
    _assign_task_to_agent task agent s =
    (with_bus_effects c o (assigned_state task agent s), Ok tt).
Proof.
  unfold _assign_task_to_agent, bind, modify.
  rewrite emit_event_spec. eauto.
Qed.

(** ** Invariants of the public calls

    The control flow of the methods is traversed once, for an arbitrary
    state predicate [I]: if every registry or queue write of the module
    keeps [I] (given what the code has checked before the write), every
    public call keeps [I], whether it returns or raises.  [ok] restricts
    the arguments of a call and [J] is an auxiliary invariant of the loop
    of [remove_agent]. *)

Section Invariant.
Variable I : WorkforceManager -> Prop.
Variable ok : WorkforceManager -> Call -> Prop.
Variable J : string -> WorkforceManager -> Prop.

Hypothesis I_bus : forall s c o, I s -> I (with_bus_effects c o s).
Hypothesis I_handlers : forall s h, I s -> I (with_event_handlers h s).
Hypothesis I_strategy : forall s st, I s -> I (with_strategy st s).
Hypothesis I_register : forall s a,
  I s -> ok s (RegisterAgent a) -> I (with_agents (put_agent a) s).
Hypothesis I_submit : forall s t,
  I s -> ok s (SubmitTask t) ->
  I (with_queue (fun q => q ++ [task_id t]) (with_tasks (put_task t) s)).
Hypothesis I_assign : forall s tid task agent,
  I s -> get_task tid (tasks s) = Some task -> status task = PENDING ->
  In agent (_get_available_agents s) ->
  I (assigned_state task agent s).
Hypothesis I_dequeue : forall s tid q,
  I s -> list_remove tid (task_queue s) = Some q ->
  I (with_queue (fun _ => q) s).
Hypothesis I_complete : forall s tid task res,
  I s -> get_task tid (tasks s) = Some task -> status task = IN_PROGRESS ->
  I (with_tasks (update_task tid
       (fun t => set_result res (set_status COMPLETED t))) s).
Hypothesis I_fail : forall s tid task reason,
  I s -> get_task tid (tasks s) = Some task -> status task = IN_PROGRESS ->
  I (with_tasks (update_task tid
       (fun t => set_metadata
                   (dict_set "failure_reason" reason (metadata t))
                   (set_status FAILED t))) s).
Hypothesis I_release : forall s aid agent tid l m,
  I s -> get_agent aid (agents s) = Some agent ->
  list_remove tid (current_tasks agent) = Some l ->
  I (with_agents
       (update_agent aid
          (fun a => set_performance_metrics m (set_current_tasks l a))) s).
Hypothesis I_enqueue : forall s task,
  I s -> In task (tasks s) ->
  I (with_queue (fun q => q ++ [task_id task]) s).
Hypothesis J_init : forall s aid, I s -> ok s (RemoveAgent aid) -> J aid s.
Hypothesis IJ_reassign : forall s aid agent tid,
  I s -> J aid s -> get_agent aid (agents s) = Some agent ->
  In tid (current_tasks agent) ->
  I (fst (_reassign_task tid s)) /\ J aid (fst (_reassign_task tid s)).
Hypothesis I_delete : forall s aid,
  I s -> I (with_agents (del_agent aid) s).

Lemma bind_preserves A B (m : M A) (k : A -> M B) s :
  I (fst (m s)) -> (forall a s', I s' -> I (fst (k a s'))) ->
  I (fst (bind m k s)).
Proof.
  unfold bind. destruct (m s) as [s' [a|e]]; cbn [fst]; auto.
Qed.

Lemma emit_preserves k d s : I s -> I (fst (_emit_event k d s)).
Proof. intros H. rewrite emit_event_spec. now apply I_bus. Qed.

Lemma drain_loop_preserves q : forall p s,
  I s -> I (fst (drain_loop q p s)).
Proof.
  induction q as [|tid q IH]; intros p s HI; cbn [drain_loop].
  - assumption.
  - destruct (get_task tid (tasks s)) as [task|] eqn:Eg; [|assumption].
    destruct (status_eqb (status task) PENDING) eqn:Es; cbn [negb].
    2: now apply IH.
    apply status_eqb_eq in Es.
    destruct (assign_task (strategy s) task (_get_available_agents s))
      as [st' [agent|]] eqn:Ea.
    + apply bind_preserves.
      * destruct (assign_task_to_agent_spec task agent (with_strategy st' s))
          as (c & o & ->). cbn [fst]. apply I_bus.
        apply I_assign with (tid := tid); auto.
        apply assign_task_In in Ea. exact Ea.
      * intros _ s' Hs'. now apply IH.
    + apply IH. now apply I_strategy.
Qed.

Lemma dequeue_loop_preserves p : forall s,
  I s -> I (fst (for_each p queue_remove s)).
Proof.
  induction p as [|tid p IH]; intros s HI; cbn [for_each]; [assumption|].
  apply bind_preserves.
  - unfold queue_remove.
    destruct (list_remove tid (task_queue s)) eqn:E; cbn [fst]; eauto.
  - intros _ s' Hs'. now apply IH.
Qed.

Lemma process_task_queue_preserves s :
  I s -> I (fst (_process_task_queue s)).
Proof.
  intros HI. unfold _process_task_queue. apply bind_preserves.
  - now apply drain_loop_preserves.
  - intros p s' Hs'. now apply dequeue_loop_preserves.
Qed.

Lemma dependents_loop_preserves X l : forall s,
  incl l (tasks s) -> I s ->
  I (fst (for_each l
            (fun task s' =>
               if mem X (dependencies task)
                  && status_eqb (status task) PENDING
                  && negb (mem (task_id task) (task_queue s'))
               then
                 if all_deps_completed (tasks s') task
                 then (with_queue (fun q => q ++ [task_id task]) s', Ok tt)
                 else (s', Ok tt)
               else (s', Ok tt)) s)).
Proof.
  induction l as [|t l IH]; intros s Hl HI; cbn [for_each]; [assumption|].
  assert (Ht : In t (tasks s)) by (apply Hl; now left).
  assert (Hl' : incl l (tasks s)) by (intros x Hx; apply Hl; now right).
  unfold bind at 1.
  destruct (mem X (dependencies t) && status_eqb (status t) PENDING
            && negb (mem (task_id t) (task_queue s)));
    [destruct (all_deps_completed (tasks s) t)|]; apply IH; auto.
Qed.

Lemma process_dependent_tasks_preserves X s :
  I s -> I (fst (_process_dependent_tasks X s)).
Proof.
  intros HI. unfold _process_dependent_tasks.
  apply dependents_loop_preserves; [apply incl_refl | assumption].
Qed.

Lemma release_agent_preserves assigned tid success s :
  I s -> I (fst (release_agent assigned tid success s)).
Proof.
  intros HI. unfold release_agent.
  destruct assigned as [aid|]; [|assumption].
  destruct (truthy (Some aid)); [|assumption].
  destruct (get_agent aid (agents s)) as [agent|] eqn:Ea; [|assumption].
  destruct (list_remove tid (current_tasks agent)) as [l|] eqn:El;
    [|assumption].
  destruct (_update_agent_metrics success (performance_metrics agent))
    as [m r]. cbn [fst]. eauto.
Qed.

Lemma reassign_loop_preserves aid fuel : forall i s,
  I s -> J aid s -> I (fst (reassign_loop aid fuel i s)).
Proof.
  induction fuel as [|fuel IH]; intros i s HI HJ; cbn [reassign_loop];
    [assumption|].
  destruct (get_agent aid (agents s)) as [agent|] eqn:Ea; [|assumption].
  destruct (nth_error (current_tasks agent) i) as [tid|] eqn:En;
    [|assumption].
  apply nth_error_In in En.
  destruct (IJ_reassign tid HI HJ Ea En) as [HI' HJ'].
  unfold bind. destruct (_reassign_task tid s) as [s1 [u|e]];
    cbn [fst] in *; [now apply IH | assumption].
Qed.

(** Every public call keeps the invariant. *)
Theorem step_preserves s c : I s -> ok s c -> I (step s c).
Proof.
  intros HI Hok. unfold step.
  destruct c as [a|aid|t|tid res|tid reason|k h]; cbn [exec].
  - apply bind_preserves; [|auto].
    unfold register_agent. apply bind_preserves.
    + cbn [modify fst]. now apply I_register.
    + intros _ s' Hs'. now apply emit_preserves.
  - apply bind_preserves; [|auto].
    unfold remove_agent.
    destruct (get_agent aid (agents s)) as [agent|] eqn:Ea; [|assumption].
    apply bind_preserves.
    + apply reassign_loop_preserves; auto.
    + intros _ s1 H1. apply bind_preserves; [cbn [modify fst]; auto|].
      intros _ s2 H2. apply bind_preserves; [now apply emit_preserves|auto].
  - apply bind_preserves; [|auto].
    unfold submit_task.
    destruct (existsb _ _); [assumption|].
    unfold bind at 1 2. cbn [modify].
    apply bind_preserves;
      [apply emit_preserves; cbn [tasks with_tasks]; now apply I_submit|].
    intros _ s1 H1. apply bind_preserves;
      [now apply process_task_queue_preserves | auto].
  - apply bind_preserves; [|auto].
    unfold complete_task.
    destruct (get_task tid (tasks s)) as [task|] eqn:Eg; [|assumption].
    destruct (status_eqb (status task) IN_PROGRESS) eqn:Es; cbn [negb];
      [|assumption].
    apply status_eqb_eq in Es.
    unfold bind at 1. cbn [modify].
    apply bind_preserves;
      [apply release_agent_preserves; eapply I_complete; eauto|].
    intros _ s1 H1. apply bind_preserves; [now apply emit_preserves|].
    intros _ s2 H2. apply bind_preserves;
      [now apply process_dependent_tasks_preserves|].
    intros _ s3 H3. apply bind_preserves;
      [now apply process_task_queue_preserves | auto].
  - apply bind_preserves; [|auto].
    unfold fail_task.
    destruct (get_task tid (tasks s)) as [task|] eqn:Eg; [|assumption].
    destruct (status_eqb (status task) IN_PROGRESS) eqn:Es; cbn [negb];
      [|assumption].
    apply status_eqb_eq in Es.
    unfold bind at 1. cbn [modify].
    apply bind_preserves;
      [apply release_agent_preserves; eapply I_fail; eauto|].
    intros _ s1 H1. apply bind_preserves; [now apply emit_preserves|auto].
  - apply bind_preserves; [|auto].
    unfold add_event_handler. cbn [modify fst]. now apply I_handlers.
Qed.
End Invariant.

(** Hence a predicate kept by every admissible call holds in every state
    reached by admissible calls. *)
Lemma run_invariant (I : WorkforceManager -> Prop)
    (ok : WorkforceManager -> Call -> Prop) :
  (forall s c, I s -> ok s c -> I (step s c)) ->
  forall cs s, I s -> admissible ok s cs -> I (run s cs).
Proof.
  intros Hstep. induction cs as [|c cs IH]; intros s HI Hadm;
    cbn [run fold_left]; [assumption|].
  destruct Hadm as [Hok Hadm]. apply IH; [now apply Hstep | assumption].
Qed.

(** ** What [_reassign_task] leaves behind *)

Lemma reassign_task_cases tid s :
  let s' := fst (_reassign_task tid s) in
  s' = s \/
  (exists task, get_task tid (tasks s) = Some task /\
     (s' = requeued_state tid s \/
      exists aid agent l,
        get_agent aid (agents s) = Some agent /\
        list_remove tid (current_tasks agent) = Some l /\
        s' = requeued_state tid
               (with_agents (update_agent aid (set_current_tasks l)) s))).
Proof.
  cbv zeta. unfold _reassign_task.
  destruct (get_task tid (tasks s)) as [task|] eqn:Eg; [|now left].
  unfold bind, modify. cbn beta.
  destruct (assigned_agent task) as [aid|] eqn:Ea.
  - destruct (truthy (Some aid)).
    + destruct (get_agent aid (agents s)) as [agent|] eqn:Eag; [|now left].
      destruct (list_remove tid (current_tasks agent)) as [l|] eqn:El;
        [|now left].
      right. exists task. split; [reflexivity|]. right.
      exists aid, agent, l. repeat split; try assumption; reflexivity.
    + right. exists task. split; [reflexivity|]. now left.
  - right. exists task. split; [reflexivity|]. now left.
Qed.

Lemma list_remove_incl x l l' : list_remove x l = Some l' -> incl l' l.
Proof.
  revert l'. induction l as [|y l IH]; cbn [list_remove]; intros l' H;
    [discriminate|].
  destruct (String.eqb y x).
  - injection H as <-. intros z Hz. now right.
  - destruct (list_remove x l) as [r|]; [|discriminate].
    injection H as <-. intros z [->|Hz]; [now left|].
    right. now apply (IH r).
Qed.

Lemma list_remove_length x l l' :
  list_remove x l = Some l' -> length l = S (length l').
Proof.
  revert l'. induction l as [|y l IH]; cbn [list_remove]; intros l' H;
    [discriminate|].
  destruct (String.eqb y x).
  - now injection H as <-.
  - destruct (list_remove x l) as [r|]; [|discriminate].
    injection H as <-. cbn [length]. now rewrite (IH r).
Qed.

Lemma admissible_Forall (P : Call -> Prop) cs : forall s,
  Forall P cs -> admissible (fun _ => P) s cs.
Proof.
  induction cs as [|c cs IH]; intros s H; cbn [admissible]; [exact I|].
  inversion H; subst. split; [assumption | now apply IH].
Qed.

(** ** Assigned agent and status (C2) *)

(** C2 (as stated, refuted).  After [t1] is submitted, assigned to [a1]
    and completed, it is Completed and still records [a1]: the code never
    clears [assigned_agent] on completion or failure. *)
Lemma completed_task_keeps_agent :
  ~ assigned_iff_in_progress
      (run (new_manager CapabilityBasedStrategy)
           [RegisterAgent (Scenario.agent "a1" ["x"] 1);
            SubmitTask (Scenario.task "t1" ["x"] []);
            CompleteTask "t1" VNone]).
Proof.
  intros H.
  specialize (H (mkTask "t1" "t1" ["x"] 1 COMPLETED (Some "a1") VNone [] [])).
  assert (Hin : In (mkTask "t1" "t1" ["x"] 1 COMPLETED (Some "a1") VNone [] [])
                   (tasks (run (new_manager CapabilityBasedStrategy)
                      [RegisterAgent (Scenario.agent "a1" ["x"] 1);
                       SubmitTask (Scenario.task "t1" ["x"] []);
                       CompleteTask "t1" VNone])))
    by (vm_compute; now left).
  apply H in Hin. cbn in Hin. destruct Hin as [Hin _].
  assert (Hc : COMPLETED = IN_PROGRESS) by (apply Hin; discriminate).
  discriminate.
Qed.

Lemma tasks_consistent_step s c :
  tasks_consistent s -> submits_consistent c -> tasks_consistent (step s c).
Proof.
  apply step_preserves
    with (ok := fun _ => submits_consistent) (J := fun _ _ => True);
    unfold tasks_consistent; try (intros; assumption); try (intros; exact I).
  - intros s0 t H Hok. cbn [tasks with_queue with_tasks].
    now apply Forall_put_task.
  - intros s0 tid task agent H Hg Hs _. cbn [tasks assigned_state with_agents with_tasks].
    apply get_task_Some in Hg as Hg'. destruct Hg' as [_ <-].
    apply Forall_update_task with (t0 := task); auto.
    unfold unassigned_iff_pending; cbn. split; discriminate.
  - intros s0 tid task res H Hg Hs. cbn [tasks with_tasks].
    apply Forall_update_task with (t0 := task); auto.
    assert (Ht : unassigned_iff_pending task)
      by (apply get_task_Some in Hg as [Hin _];
          exact (proj1 (Forall_forall _ _) H _ Hin)).
    unfold unassigned_iff_pending in *; cbn. split; [|discriminate].
    intros Hn. apply Ht in Hn. congruence.
  - intros s0 tid task reason H Hg Hs. cbn [tasks with_tasks].
    apply Forall_update_task with (t0 := task); auto.
    assert (Ht : unassigned_iff_pending task)
      by (apply get_task_Some in Hg as [Hin _];
          exact (proj1 (Forall_forall _ _) H _ Hin)).
    unfold unassigned_iff_pending in *; cbn. split; [|discriminate].
    intros Hn. apply Ht in Hn. congruence.
  - intros s0 aid agent tid H _ _ _. split; [|exact I].
    destruct (reassign_task_cases tid s0) as [->|(task & Hg & [->|(a & ag & l & _ & _ & ->)])];
      [assumption| |];
      cbn [tasks requeued_state with_queue with_tasks with_agents];
      (apply Forall_update_task with (t0 := task); auto;
       unfold unassigned_iff_pending; cbn; split; reflexivity).
Qed.

(** C2 (amended).  In every state reached from a new manager by public
    calls whose submitted task objects are consistent (as a fresh task
    is), a registered task has no agent recorded exactly when it is
    Pending: InProgress tasks have one, and Completed and Failed tasks
    keep the one that ran them. *)
Theorem assigned_agent_none_iff_pending :
  forall (st : WorkforceStrategy) (cs : list Call),
    Forall submits_consistent cs ->
    forall t, In t (tasks (run (new_manager st) cs)) ->
      (assigned_agent t = None <-> status t = PENDING).
Proof.
  intros st cs Hcs.
  assert (H : tasks_consistent (run (new_manager st) cs)).
  { apply run_invariant with (ok := fun _ => submits_consistent).
    - intros s c. apply tasks_consistent_step.
    - constructor.
    - now apply admissible_Forall. }
  intros t Hin. exact (proj1 (Forall_forall _ _) H t Hin).
Qed.

Lemma assigned_agent_none_iff_pending_witness :
  assigned_agent (mkTask "t1" "t1" ["x"] 1 COMPLETED (Some "a1") VNone [] [])
    = None
  <-> status (mkTask "t1" "t1" ["x"] 1 COMPLETED (Some "a1") VNone [] [])
      = PENDING.
Proof.
  apply (@assigned_agent_none_iff_pending CapabilityBasedStrategy
           [RegisterAgent (Scenario.agent "a1" ["x"] 1);
            SubmitTask (Scenario.task "t1" ["x"] []);
            CompleteTask "t1" VNone]).
  - repeat constructor; cbn; unfold unassigned_iff_pending; cbn; tauto.
  - vm_compute. now left.
Defined.

(** ** Capacity *)

Lemma map_agent_id_update aid f l :
  (forall a, agent_id a = aid -> agent_id (f a) = aid) ->
  map agent_id (update_agent aid f l) = map agent_id l.
Proof.
  intros Hf. induction l as [|a l IH]; cbn [update_agent map]; [reflexivity|].
  destruct (String.eqb_spec (agent_id a) aid) as [E|E]; cbn [map].
  - now rewrite (Hf a E), E.
  - now rewrite IH.
Qed.

Lemma Forall_update_agent (P : Agent -> Prop) aid f l a0 :
  Forall P l -> get_agent aid l = Some a0 -> P (f a0) ->
  Forall P (update_agent aid f l).
Proof.
  induction l as [|a l IH]; cbn [update_agent get_agent find]; intros HF Hg Hp.
  - constructor.
  - inversion HF; subst. destruct (String.eqb (agent_id a) aid).
    + injection Hg as ->. now constructor.
    + constructor; [assumption | now apply IH].
Qed.

Lemma get_agent_None_notin aid l :
  get_agent aid l = None -> ~ In aid (map agent_id l).
Proof.
  unfold get_agent. intros Hn Hin. apply in_map_iff in Hin as (a & <- & Ha).
  apply (find_none _ _ Hn) in Ha. now rewrite String.eqb_refl in Ha.
Qed.

Lemma get_agent_NoDup a l :
  NoDup (map agent_id l) -> In a l -> get_agent (agent_id a) l = Some a.
Proof.
  induction l as [|b l IH]; cbn [map get_agent find]; intros Hnd Hin;
    [contradiction|].
  inversion Hnd as [|x xs Hnot Hnd']; subst.
  destruct Hin as [->|Hin].
  - now rewrite String.eqb_refl.
  - destruct (String.eqb_spec (agent_id b) (agent_id a)) as [E|E].
    + exfalso. apply Hnot. rewrite E. now apply in_map.
    + now apply IH.
Qed.

Lemma NoDup_map_filter (A B : Type) (g : A -> B) p l :
  NoDup (map g l) -> NoDup (map g (filter p l)).
Proof.
  induction l as [|a l IH]; cbn [map filter]; intros H; [constructor|].
  inversion H as [|x xs Hnot Hnd]; subst.
  destruct (p a); cbn [map]; [|now apply IH].
  constructor; [|now apply IH].
  intros Hin. apply Hnot. apply in_map_iff in Hin as (b & Eb & Hb).
  apply filter_In in Hb as [Hb _]. rewrite <- Eb. now apply in_map.
Qed.

Lemma Forall_filter (A : Type) (P : A -> Prop) p l :
  Forall P l -> Forall P (filter p l).
Proof.
  intros H. apply Forall_forall. intros x Hx.
  apply filter_In in Hx as [Hx _]. exact (proj1 (Forall_forall _ _) H x Hx).
Qed.

Lemma capacity_respected_update s aid agent l :
  capacity_respected s ->
  get_agent aid (agents s) = Some agent ->
  (length l <= length (current_tasks agent))%nat ->
  forall m,
    NoDup (map agent_id
             (update_agent aid
                (fun a => set_performance_metrics m (set_current_tasks l a))
                (agents s))) /\
    Forall within_capacity
      (update_agent aid
         (fun a => set_performance_metrics m (set_current_tasks l a))
         (agents s)).
Proof.
  intros [Hnd HF] Hg Hl m. split.
  - rewrite map_agent_id_update; [assumption | now intros a <-].
  - apply Forall_update_agent with (a0 := agent); auto.
    apply get_agent_Some in Hg as [Hin _].
    pose proof (proj1 (Forall_forall _ _) HF _ Hin) as Hc.
    unfold within_capacity in *; cbn. intros H1. specialize (Hc H1). lia.
Qed.

Lemma capacity_respected_step s c :
  capacity_respected s -> registers_within_capacity c ->
  capacity_respected (step s c).
Proof.
  apply step_preserves
    with (ok := fun _ => registers_within_capacity) (J := fun _ _ => True);
    try (intros; assumption); try (intros; exact I).
  - (* register_agent *)
    intros s0 a [Hnd HF] Hok. unfold capacity_respected.
    cbn [agents with_agents]. unfold put_agent.
    destruct (get_agent (agent_id a) (agents s0)) as [a0|] eqn:Eg.
    + split.
      * rewrite map_agent_id_update; auto.
      * now apply Forall_update_agent with (a0 := a0).
    + split.
      * rewrite map_app. cbn [map].
        apply NoDup_app; [assumption | repeat constructor; intros [] | ].
        intros x Hx [<-|[]]. now apply get_agent_None_notin in Eg.
      * apply Forall_app. split; [assumption | now constructor].
  - (* _assign_task_to_agent *)
    intros s0 tid task agent [Hnd HF] _ _ Hav.
    apply filter_In in Hav as [Hin Hcap].
    apply andb_prop in Hcap as [_ Hcap].
    unfold capacity_respected. cbn [agents assigned_state with_agents with_tasks].
    split.
    + rewrite map_agent_id_update; [assumption | now intros a <-].
    + apply Forall_update_agent with (a0 := agent); auto.
      * now apply get_agent_NoDup.
      * unfold within_capacity, under_capacity in *; cbn. intros _.
        apply Z.ltb_lt in Hcap. rewrite length_app. cbn [length]. lia.
  - (* release in complete_task / fail_task *)
    intros s0 aid agent tid l m H Hg Hl. unfold capacity_respected.
    cbn [agents with_agents].
    apply capacity_respected_update with (agent := agent); auto.
    apply list_remove_length in Hl. lia.
  - (* _reassign_task *)
    intros s0 aid agent tid H _ _ _. split; [|exact I].
    destruct (reassign_task_cases tid s0)
      as [->|(task & Hg & [->|(a & ag & l & Hag & Hl & ->)])]; [assumption|assumption|].
    unfold capacity_respected.
    cbn [agents requeued_state with_queue with_tasks with_agents].
    destruct H as [Hnd HF]. split.
    + rewrite map_agent_id_update; [assumption | now intros x <-].
    + apply Forall_update_agent with (a0 := ag); auto.
      apply get_agent_Some in Hag as [Hin _].
      pose proof (proj1 (Forall_forall _ _) HF _ Hin) as Hc.
      apply list_remove_length in Hl.
      unfold within_capacity in *; cbn. intros H1. specialize (Hc H1). lia.
  - (* del self.agents[agent_id] *)
    intros s0 aid [Hnd HF]. unfold capacity_respected, del_agent.
    cbn [agents with_agents]. split.
    + now apply NoDup_map_filter.
    + now apply Forall_filter.
Qed.

(** ** Queued ids are registered *)

Lemma get_task_app tid ts l :
  get_task tid (ts ++ l) =
  match get_task tid ts with
  | Some x => Some x
  | None => get_task tid l
  end.
Proof.
  unfold get_task. induction ts as [|x ts IH]; cbn [app find]; [reflexivity|].
  now destruct (String.eqb (task_id x) tid).
Qed.

Lemma get_task_put tid t ts :
  get_task tid (put_task t ts) =
  if String.eqb (task_id t) tid then Some t else get_task tid ts.
Proof.
  unfold put_task. destruct (get_task (task_id t) ts) as [t0|] eqn:E.
  - induction ts as [|x ts IH]; [discriminate|].
    cbn [get_task find update_task] in *.
    destruct (String.eqb_spec (task_id x) (task_id t)) as [Ex|Ex].
    + cbn [find]. rewrite Ex.
      destruct (String.eqb (task_id t) tid); reflexivity.
    + cbn [find]. fold (get_task tid (update_task (task_id t) (fun _ => t) ts)).
      fold (get_task tid ts). rewrite (IH E).
      destruct (String.eqb_spec (task_id x) tid) as [E1|E1]; [|reflexivity].
      destruct (String.eqb_spec (task_id t) tid); [congruence|reflexivity].
  - rewrite get_task_app.
    destruct (get_task tid ts) as [t1|] eqn:E1.
    + destruct (String.eqb_spec (task_id t) tid) as [<-|]; [congruence|reflexivity].
    + cbn [get_task find]. destruct (String.eqb (task_id t) tid); reflexivity.
Qed.

Lemma get_task_update_present tid tid' f ts :
  (forall t, task_id (f t) = task_id t) ->
  get_task tid' ts <> None ->
  get_task tid' (update_task tid f ts) <> None.
Proof.
  intros Hf H. rewrite get_task_update by assumption.
  destruct (String.eqb tid tid'); [|assumption].
  destruct (get_task tid' ts); [discriminate | congruence].
Qed.

Lemma queue_registered_step s c :
  queue_registered s -> queue_registered (step s c).
Proof.
  intros H. revert H.
  assert (Hgo : queue_registered s -> True -> queue_registered (step s c));
    [|intros H; now apply Hgo].
  apply step_preserves with (ok := fun _ _ => True) (J := fun _ _ => True);
    unfold queue_registered; try (intros; exact I);
    try (intros;
         cbn [tasks task_queue with_bus_effects with_event_handlers
              with_strategy with_agents] in *;
         match goal with
         | H : forall tid, In tid _ -> _ <> None |- _ =>
             solve [eapply H; eauto]
         end).
  - intros s0 t H _ tid Hin. cbn [tasks task_queue with_queue with_tasks] in *.
    rewrite get_task_put. apply in_app_or in Hin as [Hin|[<-|[]]].
    + destruct (String.eqb (task_id t) tid); [discriminate | now apply H].
    + now rewrite String.eqb_refl.
  - intros s0 tid task agent H _ _ _ tid' Hin.
    cbn [tasks task_queue assigned_state with_agents with_tasks] in *.
    apply get_task_update_present; [reflexivity | now apply H].
  - intros s0 tid q H Hq tid' Hin. cbn [tasks task_queue with_queue] in *.
    apply H. now apply (list_remove_incl _ _ Hq).
  - intros s0 tid task res H _ _ tid' Hin. cbn [tasks task_queue with_tasks] in *.
    apply get_task_update_present; [reflexivity | now apply H].
  - intros s0 tid task reason H _ _ tid' Hin.
    cbn [tasks task_queue with_tasks] in *.
    apply get_task_update_present; [reflexivity | now apply H].
  - intros s0 task H Hin tid Hq. cbn [tasks task_queue with_queue] in *.
    apply in_app_or in Hq as [Hq|[<-|[]]]; [now apply H | now apply get_task_In].
  - intros s0 aid agent tid H _ _ _. split; [|exact I].
    destruct (reassign_task_cases tid s0)
      as [->|(task & Hg & [->|(a & ag & l & Hag & Hl & ->)])]; [assumption| |];
      intros tid' Hq;
      cbn [tasks task_queue requeued_state with_queue with_tasks with_agents] in *;
      (apply get_task_update_present; [reflexivity|]);
      (apply in_app_or in Hq as [Hq|[<-|[]]]; [now apply H | congruence]).
Qed.

Lemma queue_registered_run st cs : queue_registered (run (new_manager st) cs).
Proof.
  apply run_invariant
    with (I := queue_registered) (ok := fun _ _ => True).
  - intros s c H _. now apply queue_registered_step.
  - intros tid [].
  - clear. generalize (new_manager st).
    induction cs; intros s; cbn [admissible]; auto.
Qed.

(** ** Terminal statuses (C5) *)

(** C5 (as stated, refuted).  [submit_task] overwrites the registry entry
    of an id already present: once [t1] is Completed, submitting a fresh
    task with id [t1] makes the entry of [t1] InProgress again. *)
Lemma resubmission_replaces_completed_task :
  let s := run (new_manager CapabilityBasedStrategy)
               [RegisterAgent (Scenario.agent "a1" ["x"] 1);
                SubmitTask (Scenario.task "t1" ["x"] []);
                CompleteTask "t1" VNone] in
  Scenario.status_of "t1" s = Some COMPLETED /\
  snd (exec (SubmitTask (Scenario.task "t1" ["x"] [])) s) = Ok (Some true) /\
  Scenario.status_of "t1" (step s (SubmitTask (Scenario.task "t1" ["x"] [])))
    = Some IN_PROGRESS.
Proof. vm_compute. repeat split; reflexivity. Qed.

Lemma has_status_update tid st tid' task f s :
  has_status tid st s ->
  get_task tid' (tasks s) = Some task -> status task <> st ->
  (forall t, task_id (f t) = task_id t) ->
  has_status tid st (with_tasks (update_task tid' f) s).
Proof.
  intros (t & Hg & Hs) Hg' Hne Hf. exists t. split; [|assumption].
  cbn [tasks with_tasks]. rewrite get_task_update by assumption.
  destruct (String.eqb_spec tid' tid) as [->|]; [|assumption].
  congruence.
Qed.

Lemma terminal_status_step tid st s c :
  terminal st = true ->
  has_status tid st s -> spares tid s c -> has_status tid st (step s c).
Proof.
  intros Hterm.
  apply step_preserves with (ok := spares tid) (J := not_held_by tid);
    try (intros; assumption).
  - (* submit_task *)
    intros s0 t (t0 & Hg & Hs) Hok. exists t0. split; [|assumption].
    cbn [tasks with_queue with_tasks]. rewrite get_task_put.
    cbn [spares] in Hok.
    destruct (String.eqb_spec (task_id t) tid); [contradiction|assumption].
  - (* _assign_task_to_agent *)
    intros s0 tid' task agent H Hg Hs _.
    apply get_task_Some in Hg as Hid. destruct Hid as [_ Hid].
    unfold assigned_state. rewrite Hid.
    destruct H as (t0 & Hg0 & Hs0). exists t0. split; [|assumption].
    cbn [tasks with_agents with_tasks].
    rewrite get_task_update by reflexivity.
    destruct (String.eqb_spec tid' tid) as [->|]; [|assumption].
    rewrite Hg in Hg0. injection Hg0 as ->.
    rewrite Hs in Hs0. subst st. discriminate.
  - (* complete_task *)
    intros s0 tid' task res H Hg Hs.
    apply has_status_update with (task := task); auto.
    intros E. rewrite Hs in E. subst st. discriminate.
  - (* fail_task *)
    intros s0 tid' task reason H Hg Hs.
    apply has_status_update with (task := task); auto.
    intros E. rewrite Hs in E. subst st. discriminate.
  - (* _reassign_task *)
    intros s0 aid agent tid' H HJ Hag Hin.
    assert (Hne : tid' <> tid) by (intros ->; exact (HJ agent Hag Hin)).
    assert (Hkeep : forall s1, tasks s1 = tasks s0 ->
                      has_status tid st (requeued_state tid' s1)).
    { intros s1 E. destruct H as (t0 & Hg0 & Hs0). exists t0.
      split; [|assumption].
      cbn [tasks requeued_state with_queue with_tasks]. rewrite E.
      rewrite get_task_update by reflexivity.
      destruct (String.eqb_spec tid' tid); [contradiction|assumption]. }
    destruct (reassign_task_cases tid' s0)
      as [->|(task & Hg & [->|(a & ag & l & Hag' & Hl & ->)])].
    + now split.
    + split; [now apply Hkeep|]. exact HJ.
    + split; [now apply Hkeep|].
      intros agent' Hg'.
      cbn [agents requeued_state with_queue with_tasks with_agents] in Hg'.
      rewrite get_agent_update in Hg' by reflexivity.
      destruct (String.eqb_spec a aid) as [->|]; [|now apply HJ].
      rewrite Hag in Hg'. cbn [option_map] in Hg'. injection Hg' as <-.
      cbn [current_tasks set_current_tasks].
      rewrite Hag in Hag'. injection Hag' as <-.
      intros Hc. apply (list_remove_incl _ _ Hl) in Hc. exact (HJ agent Hag Hc).
Qed.

(** C5 (amended).  A registry entry that is Completed or Failed keeps
    that status through every sequence of public calls, returning or
    raising, in which no task with the same id is submitted again and no
    agent is removed while its [current_tasks] lists the id:
    [register_agent], [complete_task], [fail_task], submissions of other
    ids and removals of agents not holding the task never move it back to
    Pending or InProgress. *)
Theorem terminal_status_kept :
  forall (s : WorkforceManager) (tid : string) (t : Task) (cs : list Call),
    get_task tid (tasks s) = Some t ->
    terminal (status t) = true ->
    admissible (spares tid) s cs ->
    exists t', get_task tid (tasks (run s cs)) = Some t' /\
               status t' = status t.
Proof.
  intros s tid t cs Hg Hterm Hadm.
  apply run_invariant with (I := has_status tid (status t)) (ok := spares tid).
  - intros s0 c. now apply terminal_status_step.
  - now exists t.
  - assumption.
Qed.

Lemma terminal_status_kept_witness :
  exists t',
    get_task "t1"
      (tasks (run (fst (complete_task "t1" VNone Scenario.one_waiting))
                  [SubmitTask (Scenario.task "t3" ["x"] ["t1"]);
                   RegisterAgent (Scenario.agent "a2" ["x"] 1);
                   RemoveAgent "a1";
                   FailTask "t1" VNone])) = Some t' /\
    status t' = status (mkTask "t1" "t1" ["x"] 1 COMPLETED (Some "a1") VNone [] []).
Proof.
  apply (@terminal_status_kept
           (fst (complete_task "t1" VNone Scenario.one_waiting)) "t1"
           (mkTask "t1" "t1" ["x"] 1 COMPLETED (Some "a1") VNone [] [])).
  - vm_compute. reflexivity.
  - reflexivity.
  - cbn [admissible spares]. repeat split.
    + cbn. discriminate.
    + intros agent Hg. vm_compute in Hg. injection Hg as <-.
      cbn. intros [E|[]]. discriminate.
Defined.

(** ** Eligibility and the strategies *)

Lemma existsb_filter_nil (A : Type) (f : A -> bool) l :
  filter f l = [] <-> existsb f l = false.
Proof.
  induction l as [|a l IH]; cbn [filter existsb]; [tauto|].
  destruct (f a); cbn [orb]; [split; discriminate | exact IH].
Qed.

Lemma filter_filter (A : Type) (f g : A -> bool) l :
  filter g (filter f l) = filter (fun a => f a && g a) l.
Proof.
  induction l as [|a l IH]; cbn [filter]; [reflexivity|].
  destruct (f a); cbn [andb filter]; [|assumption].
  destruct (g a); now rewrite IH.
Qed.

Lemma existsb_ext_in (A : Type) (f g : A -> bool) l :
  (forall a, f a = g a) -> existsb f l = existsb g l.
Proof.
  intros H. induction l as [|a l IH]; cbn [existsb]; [reflexivity|].
  now rewrite H, IH.
Qed.

(** A strategy returns no agent exactly when no registered agent is
    eligible for the task. *)
Lemma assign_task_none_iff s t :
  snd (assign_task (strategy s) t (_get_available_agents s)) = None <->
  has_eligible_agent s t = false.
Proof.
  unfold has_eligible_agent, _get_available_agents.
  destruct (strategy s) as [last| |]; cbn [assign_task].
  - rewrite <- existsb_filter_nil.
    rewrite (filter_ext (eligible (RoundRobinStrategy last) t)
               (fun a => is_active a && under_capacity a))
      by (intros a; unfold eligible; now rewrite andb_true_r).
    destruct (filter _ (agents s)) as [|x l] eqn:E; cbn [snd]; [tauto|].
    split; [|discriminate].
    intros Hn. exfalso. apply nth_error_None in Hn.
    assert (Hlen : (0 < Z.of_nat (length (x :: l)))%Z) by (cbn [length]; lia).
    pose proof (Z.mod_pos_bound (last + 1) _ Hlen) as Hb. lia.
  - rewrite filter_filter, <- existsb_filter_nil.
    change (eligible CapabilityBasedStrategy t)
      with (fun a => is_active a && under_capacity a && has_capabilities t a).
    destruct (filter _ (agents s)); cbn [snd]; split;
      solve [auto | discriminate].
  - rewrite filter_filter, <- existsb_filter_nil.
    rewrite (filter_ext (eligible PriorityBasedStrategy t)
               (fun a => is_active a && under_capacity a
                         && (has_capabilities t a && under_capacity a))).
    + destruct (filter _ (agents s)); cbn [snd]; split;
        solve [auto | discriminate].
    + intros a. unfold eligible.
      destruct (is_active a), (under_capacity a), (has_capabilities t a);
        reflexivity.
Qed.

Lemma assign_task_same_kind st t l t' a :
  eligible (fst (assign_task st t l)) t' a = eligible st t' a.
Proof.
  destruct st as [last| |]; cbn [assign_task].
  - destruct l; reflexivity.
  - destruct (filter _ l); reflexivity.
  - destruct (filter _ l); reflexivity.
Qed.

Lemma existsb_update_agent (P : Agent -> bool) aid f l :
  (forall a, P (f a) = true -> P a = true) ->
  existsb P (update_agent aid f l) = true -> existsb P l = true.
Proof.
  intros Hf. induction l as [|a l IH]; cbn [update_agent existsb]; [auto|].
  destruct (String.eqb (agent_id a) aid); cbn [existsb]; intros H;
    apply orb_true_iff in H as [H|H]; apply orb_true_iff; auto.
Qed.

Lemma eligible_after_append st t a tid :
  eligible st t (set_current_tasks (current_tasks a ++ [tid]) a) = true ->
  eligible st t a = true.
Proof.
  unfold eligible, under_capacity, has_capabilities.
  cbn [is_active current_tasks max_concurrent_tasks capabilities
       set_current_tasks].
  rewrite length_app. cbn [length].
  destruct (is_active a); cbn [andb]; [|discriminate].
  destruct (Z.ltb_spec (Z.of_nat (length (current_tasks a) + 1))
              (max_concurrent_tasks a)); [|discriminate].
  destruct (Z.ltb_spec (Z.of_nat (length (current_tasks a)))
              (max_concurrent_tasks a)); [auto | lia].
Qed.

(** ** One pass over the queue *)

Lemma evolves_refl s : evolves s s.
Proof.
  repeat split; auto. intros tid t H. exists t. auto.
Qed.

Lemma evolves_trans s1 s2 s3 : evolves s1 s2 -> evolves s2 s3 -> evolves s1 s3.
Proof.
  intros (Q12 & T12 & E12) (Q23 & T23 & E23). repeat split.
  - congruence.
  - intros tid t Hg. destruct (T12 tid t Hg) as (t2 & Hg2 & H2).
    destruct (T23 tid t2 Hg2) as (t3 & Hg3 & H3).
    exists t3. split; [assumption|].
    destruct H2 as [->|(Hp & aid & ->)]; [assumption|].
    destruct H3 as [->|(Hp3 & _)]; [|discriminate].
    right. split; [assumption|]. now exists aid.
  - auto.
Qed.

Lemma evolves_bus s c o : evolves s (with_bus_effects c o s).
Proof.
  repeat split; auto. intros tid t H. exists t. auto.
Qed.

Lemma evolves_strategy s t l :
  evolves s (with_strategy (fst (assign_task (strategy s) t l)) s).
Proof.
  repeat split; auto.
  - intros tid t0 H. exists t0. auto.
  - intros t0. unfold has_eligible_agent. cbn [strategy agents with_strategy].
    now rewrite (existsb_ext_in _ _ (agents s)
                   (fun a => assign_task_same_kind (strategy s) t l t0 a)).
Qed.

Lemma evolves_assigned s tid task agent :
  get_task tid (tasks s) = Some task -> status task = PENDING ->
  evolves s (assigned_state task agent s).
Proof.
  intros Hg Hs. apply get_task_Some in Hg as Hid. destruct Hid as [_ Hid].
  repeat split.
  - intros tid' t Hg'. cbn [tasks assigned_state with_agents with_tasks].
    rewrite get_task_update by reflexivity. rewrite Hid.
    destruct (String.eqb_spec tid tid') as [<-|].
    + rewrite Hg in Hg'. injection Hg' as <-. rewrite Hg. cbn [option_map].
      eexists. split; [reflexivity|]. right. split; [assumption|].
      now exists (agent_id agent).
    + exists t. auto.
  - intros t. unfold has_eligible_agent.
    cbn [strategy agents assigned_state with_agents with_tasks].
    apply existsb_update_agent. intros a. apply eligible_after_append.
Qed.

(** If a task is Pending after a pass it was not touched during it. *)
Lemma evolves_pending_same s s' tid t t' :
  evolves s s' -> get_task tid (tasks s) = Some t ->
  get_task tid (tasks s') = Some t' -> status t' = PENDING -> t' = t.
Proof.
  intros (_ & T & _) Hg Hg' Hp. destruct (T tid t Hg) as (t2 & Hg2 & H2).
  rewrite Hg' in Hg2. injection Hg2 as <-.
  destruct H2 as [->|(_ & aid & ->)]; [reflexivity | discriminate].
Qed.

Lemma evolves_not_pending s s' tid t t' :
  evolves s s' -> get_task tid (tasks s) = Some t -> status t <> PENDING ->
  get_task tid (tasks s') = Some t' -> t' = t.
Proof.
  intros (_ & T & _) Hg Hn Hg'. destruct (T tid t Hg) as (t2 & Hg2 & H2).
  rewrite Hg' in Hg2. injection Hg2 as <-.
  destruct H2 as [->|(Hp & _)]; [reflexivity | contradiction].
Qed.

Lemma evolves_present s s' tid :
  evolves s s' -> get_task tid (tasks s) <> None ->
  get_task tid (tasks s') <> None.
Proof.
  intros (_ & T & _) H. destruct (get_task tid (tasks s)) as [t|] eqn:E;
    [|congruence].
  destruct (T tid t E) as (t' & -> & _). discriminate.
Qed.

Lemma drain_loop_spec q : forall p s,
  (forall tid, In tid q -> get_task tid (tasks s) <> None) ->
  exists s' p',
    drain_loop q p s = (s', Ok (p ++ p')) /\
    evolves s s' /\
    (forall x, (count_occ string_dec p' x <= count_occ string_dec q x)%nat) /\
    (forall tid, In tid p' ->
       forall t', get_task tid (tasks s') = Some t' -> status t' <> PENDING) /\
    (forall tid t, In tid q -> get_task tid (tasks s) = Some t ->
       forall t', get_task tid (tasks s') = Some t' -> status t' = PENDING ->
       has_eligible_agent s' t = false).
Proof.
  induction q as [|tid q IH]; intros p s Hq; cbn [drain_loop].
  - exists s, []. rewrite app_nil_r.
    split; [reflexivity|]. split; [apply evolves_refl|].
    split; [intros x; cbn; lia|]. split.
    + intros tid [].
    + intros tid t [].
  - destruct (get_task tid (tasks s)) as [task|] eqn:Eg.
    2: { exfalso. apply (Hq tid); [now left | assumption]. }
    assert (Hq' : forall x, In x q -> get_task x (tasks s) <> None)
      by (intros x Hx; apply Hq; now right).
    destruct (status_eqb (status task) PENDING) eqn:Es; cbn [negb].
    + (* Pending: ask the strategy *)
      apply status_eqb_eq in Es.
      destruct (assign_task (strategy s) task (_get_available_agents s))
        as [st' [agent|]] eqn:Ea.
      * (* assigned *)
        assert (Est : st' = fst (assign_task (strategy s) task
                                   (_get_available_agents s)))
          by now rewrite Ea.
        unfold bind at 1.
        destruct (assign_task_to_agent_spec task agent (with_strategy st' s))
          as (c & o & ->).
        set (s2 := with_bus_effects c o
                     (assigned_state task agent (with_strategy st' s))).
        assert (Hev : evolves s s2).
        { subst s2 st'.
          eapply evolves_trans; [apply evolves_strategy|].
          eapply evolves_trans; [|apply evolves_bus].
          apply evolves_assigned with (tid := tid); assumption. }
        destruct (IH (p ++ [tid]) s2) as (s' & p' & Hrun & Hev' & Hcnt & Hproc & Hel).
        { intros x Hx. eapply evolves_present; [exact Hev|]. now apply Hq'. }
        exists s', (tid :: p'). rewrite Hrun, <- app_assoc. cbn [app].
        assert (Hev'' : evolves s s') by (eapply evolves_trans; eauto).
        assert (Htid : forall t', get_task tid (tasks s') = Some t' ->
                                  status t' <> PENDING).
        { intros t' Hg' Hp.
          pose proof (@evolves_pending_same _ _ _ _ _ Hev'' Eg Hg' Hp) as ->.
          destruct Hev as (_ & T & _). destruct (T tid task Eg) as (t2 & Hg2 & H2).
          assert (Ht2 : status t2 = IN_PROGRESS).
          { subst s2. cbn [tasks with_bus_effects assigned_state with_agents
                           with_tasks with_strategy] in Hg2.
            rewrite get_task_update in Hg2 by reflexivity.
            apply get_task_Some in Eg as Hid. destruct Hid as [_ Hid].
            rewrite Hid, String.eqb_refl, Eg in Hg2. cbn in Hg2.
            now injection Hg2 as <-. }
          assert (Hne : status t2 <> PENDING) by (rewrite Ht2; discriminate).
          pose proof (@evolves_not_pending _ _ _ _ _ Hev' Hg2 Hne Hg') as E.
          rewrite <- E in Ht2. congruence. }
        split; [reflexivity|]. split; [assumption|]. split; [|split].
        -- intros x. cbn [count_occ]. specialize (Hcnt x).
           destruct (string_dec tid x); lia.
        -- intros x [<-|Hx]; [assumption | now apply Hproc].
        -- intros x t [<-|Hx] Hg t' Hg' Hp.
           ++ exfalso. exact (Htid t' Hg' Hp).
           ++ pose proof (@evolves_pending_same _ _ _ _ _ Hev'' Hg Hg' Hp) as ->.
              apply (Hel x t Hx) with (t' := t); auto.
              destruct Hev as (_ & T & _). destruct (T x t Hg) as (t2 & Hg2 & H2).
              destruct H2 as [->|(_ & aid & ->)]; [assumption|].
              exfalso.
              assert (Hne : status (set_status IN_PROGRESS
                                      (set_assigned_agent (Some aid) t))
                            <> PENDING) by (cbn; discriminate).
              pose proof (@evolves_not_pending _ _ _ _ _ Hev' Hg2 Hne Hg') as E.
              rewrite E in Hp. cbn in Hp. discriminate.
      * (* nobody eligible *)
        assert (Est : st' = fst (assign_task (strategy s) task
                                   (_get_available_agents s)))
          by now rewrite Ea.
        assert (Hnone : has_eligible_agent s task = false).
        { apply assign_task_none_iff. now rewrite Ea. }
        assert (Hev : evolves s (with_strategy st' s))
          by (subst st'; apply evolves_strategy).
        destruct (IH p (with_strategy st' s))
          as (s' & p' & Hrun & Hev' & Hcnt & Hproc & Hel).
        { exact Hq'. }
        exists s', p'. rewrite Hrun.
        assert (Hev'' : evolves s s') by (eapply evolves_trans; eauto).
        split; [reflexivity|]. split; [assumption|]. split; [|split].
        -- intros x. cbn [count_occ]. specialize (Hcnt x).
           destruct (string_dec tid x); lia.
        -- exact Hproc.
        -- intros x t [<-|Hx] Hg t' Hg' Hp.
           ++ rewrite Eg in Hg. injection Hg as <-.
              destruct (has_eligible_agent s' task) eqn:E; [|reflexivity].
              destruct Hev'' as (_ & _ & El). apply El in E. congruence.
           ++ apply (Hel x t Hx) with (t' := t'); auto.
    + (* not Pending: processed out of the queue *)
      apply status_eqb_neq in Es.
      destruct (IH (p ++ [tid]) s Hq')
        as (s' & p' & Hrun & Hev' & Hcnt & Hproc & Hel).
      exists s', (tid :: p'). rewrite Hrun, <- app_assoc. cbn [app].
      assert (Htid : forall t', get_task tid (tasks s') = Some t' ->
                                status t' <> PENDING).
      { intros t' Hg'. now rewrite (@evolves_not_pending _ _ _ _ _ Hev' Eg Es Hg'). }
      split; [reflexivity|]. split; [assumption|]. split; [|split].
      * intros x. cbn [count_occ]. specialize (Hcnt x).
        destruct (string_dec tid x); lia.
      * intros x [<-|Hx]; [assumption | now apply Hproc].
      * intros x t [<-|Hx] Hg t' Hg' Hp.
        -- exfalso. exact (Htid t' Hg' Hp).
        -- apply (Hel x t Hx) with (t' := t'); auto.
Qed.

Lemma list_remove_count x l :
  In x l ->
  exists l', list_remove x l = Some l' /\
    forall y, count_occ string_dec l' y =
              (count_occ string_dec l y
               - (if string_dec x y then 1 else 0))%nat.
Proof.
  induction l as [|z l IH]; cbn [list_remove]; intros Hin; [contradiction|].
  destruct (String.eqb_spec z x) as [->|Hne].
  - exists l. split; [reflexivity|]. intros y. cbn [count_occ].
    destruct (string_dec x y); lia.
  - destruct Hin as [->|Hin]; [contradiction|].
    destruct (IH Hin) as (l' & -> & Hc). exists (z :: l').
    split; [reflexivity|]. intros y. cbn [count_occ]. rewrite Hc.
    destruct (string_dec z y) as [Ezy|]; [|reflexivity].
    destruct (string_dec x y) as [Exy|]; [congruence | lia].
Qed.

Lemma with_queue_id s : with_queue (fun _ => task_queue s) s = s.
Proof. now destruct s. Qed.

Lemma dequeue_loop_spec p : forall s,
  (forall x, (count_occ string_dec p x
              <= count_occ string_dec (task_queue s) x)%nat) ->
  exists q',
    for_each p queue_remove s = (with_queue (fun _ => q') s, Ok tt) /\
    forall x, count_occ string_dec q' x =
              (count_occ string_dec (task_queue s) x
               - count_occ string_dec p x)%nat.
Proof.
  induction p as [|tid p IH]; intros s Hc; cbn [for_each].
  - exists (task_queue s). rewrite with_queue_id. split; [reflexivity|].
    intros x. cbn. lia.
  - assert (Hin : In tid (task_queue s)).
    { apply (count_occ_In string_dec). specialize (Hc tid).
      cbn [count_occ] in Hc. destruct (string_dec tid tid); [lia|congruence]. }
    destruct (list_remove_count _ _ Hin) as (q1 & Hq1 & Hc1).
    unfold bind, queue_remove at 1. rewrite Hq1.
    destruct (IH (with_queue (fun _ => q1) s)) as (q' & Hrun & Hc').
    { intros x. cbn [task_queue with_queue]. rewrite Hc1.
      specialize (Hc x). cbn [count_occ] in Hc.
      destruct (string_dec tid x); lia. }
    exists q'. rewrite Hrun. split; [reflexivity|].
    intros x. rewrite Hc'. cbn [task_queue with_queue count_occ].
    rewrite Hc1. destruct (string_dec tid x); lia.
Qed.

(** [_process_task_queue] on a manager whose queued ids are registered:
    it returns; a queued task that is still Pending afterwards is untouched,
    still queued, and no agent is eligible for it. *)
Lemma process_task_queue_spec s :
  queue_registered s ->
  exists s1 q',
    _process_task_queue s = (with_queue (fun _ => q') s1, Ok tt) /\
    evolves s s1 /\
    incl q' (task_queue s) /\
    (forall tid t', In tid (task_queue s) ->
       get_task tid (tasks s1) = Some t' -> status t' = PENDING ->
       In tid q' /\
       (forall t, get_task tid (tasks s) = Some t ->
                  has_eligible_agent s1 t = false)).
Proof.
  intros Hq. unfold _process_task_queue, bind.
  destruct (drain_loop_spec (task_queue s) [] s Hq)
    as (s1 & p' & Hrun & Hev & Hcnt & Hproc & Hel).
  rewrite Hrun. cbn [app].
  assert (Hqs : task_queue s1 = task_queue s) by (destruct Hev; assumption).
  destruct (dequeue_loop_spec p' s1) as (q' & Hrun' & Hc').
  { intros x. rewrite Hqs. apply Hcnt. }
  exists s1, q'. rewrite Hrun'. split; [reflexivity|].
  split; [assumption|]. split.
  - intros x Hx. apply (count_occ_In string_dec) in Hx.
    rewrite Hc', Hqs in Hx. apply (count_occ_In string_dec). lia.
  - intros tid t' Hin Hg' Hp. split.
    + apply (count_occ_In string_dec). rewrite Hc', Hqs.
      assert (Hn : ~ In tid p') by (intros Hi; exact (Hproc tid Hi t' Hg' Hp)).
      apply (count_occ_not_In string_dec) in Hn. rewrite Hn.
      apply (count_occ_In string_dec) in Hin. lia.
    + intros t Hg. now apply (Hel tid t Hin Hg t').
Qed.

(** ** Submission *)

Lemma dependency_unmet_iff ts d :
  dependency_unmet ts d = false <-> completed_in ts d.
Proof.
  unfold dependency_unmet, completed_in.
  destruct (get_task d ts) as [td|]; split.
  - intros H. exists td. split; [reflexivity|].
    apply status_eqb_eq. now destruct (status_eqb (status td) COMPLETED).
  - intros (td' & E & Hs). injection E as <-. now rewrite Hs.
  - discriminate.
  - intros (td' & E & _). discriminate.
Qed.

(** [submit_task] in any manager whose queued ids are registered. *)
Lemma submit_task_spec :
  forall (s : WorkforceManager) (T : Task),
    ((exists d, In d (dependencies T) /\ ~ completed_in (tasks s) d) ->
     submit_task T s = (s, Ok false)) /\
    ((forall d, In d (dependencies T) -> completed_in (tasks s) d) ->
     queue_registered s ->
     exists s',
       submit_task T s = (s', Ok true) /\
       exists T',
         get_task (task_id T) (tasks s') = Some T' /\
         (T' = T \/
          (status T = PENDING /\
           exists aid,
             T' = set_status IN_PROGRESS (set_assigned_agent (Some aid) T))) /\
         (status T' = PENDING -> In (task_id T) (task_queue s'))).
Proof.
  intros s T. split.
  - intros (d & Hin & Hn). unfold submit_task.
    assert (E : existsb (dependency_unmet (tasks s)) (dependencies T) = true).
    { apply existsb_exists. exists d. split; [assumption|].
      destruct (dependency_unmet (tasks s) d) eqn:Ed; [reflexivity|].
      exfalso. apply Hn. now apply dependency_unmet_iff. }
    now rewrite E.
  - intros Hdeps Hq. unfold submit_task.
    assert (E : existsb (dependency_unmet (tasks s)) (dependencies T) = false).
    { destruct (existsb _ _) eqn:Ee; [|reflexivity].
      apply existsb_exists in Ee as (d & Hin & Hd).
      apply Hdeps, dependency_unmet_iff in Hin. congruence. }
    rewrite E. unfold bind at 1 2 3. cbn [modify].
    rewrite emit_event_spec.
    set (s1 := with_bus_effects _ _ _).
    assert (Hg1 : get_task (task_id T) (tasks s1) = Some T).
    { subst s1. cbn [tasks with_bus_effects with_queue with_tasks].
      now rewrite get_task_put, String.eqb_refl. }
    assert (Hin1 : In (task_id T) (task_queue s1)).
    { subst s1. cbn [task_queue with_bus_effects with_queue with_tasks].
      apply in_or_app. right. now left. }
    assert (Hq1 : queue_registered s1).
    { intros tid Hin. subst s1.
      cbn [tasks task_queue with_bus_effects with_queue with_tasks] in *.
      rewrite get_task_put. apply in_app_or in Hin as [Hin|[<-|[]]].
      - destruct (String.eqb (task_id T) tid); [discriminate | now apply Hq].
      - now rewrite String.eqb_refl. }
    destruct (process_task_queue_spec Hq1) as (s2 & q' & Hrun & Hev & _ & Hpend).
    unfold bind. rewrite Hrun.
    eexists. split; [reflexivity|].
    destruct Hev as (_ & Ht & _). destruct (Ht _ _ Hg1) as (T' & Hg' & HT').
    exists T'. cbn [tasks task_queue with_queue]. split; [assumption|].
    split; [assumption|].
    intros Hp. now apply (Hpend _ T' Hin1 Hg' Hp).
Qed.

(** ** Completion and dependents *)

Lemma dict_mem_get V k (d : dict V) :
  dict_mem k d = true -> exists v, dict_get k d = Some v.
Proof.
  unfold dict_mem. destruct (dict_get k d) as [v|]; [eauto | discriminate].
Qed.

Lemma update_metrics_ok success m :
  metrics_ready m -> snd (_update_agent_metrics success m) = Ok tt.
Proof. intros Hr. apply Hr. Qed.

Lemma metrics_ready_empty : metrics_ready [].
Proof. intros [|]; reflexivity. Qed.


Lemma with_queue_app_nil s : with_queue (fun q => q ++ []) s = s.
Proof. destruct s. unfold with_queue. cbn. now rewrite app_nil_r. Qed.

Lemma mem_In x l : mem x l = true <-> In x l.
Proof.
  unfold mem. rewrite existsb_exists. split.
  - intros (y & Hy & E). apply String.eqb_eq in E. now subst.
  - intros H. exists x. split; [assumption | apply String.eqb_refl].
Qed.

(** The loop of [_process_dependent_tasks]: it returns, only appends ids
    of the tasks it visits to the queue, and every visited task that lists
    [X], is Pending and has all its registered dependencies Completed is
    in the queue afterwards. *)
Lemma dependents_loop_spec X l : forall s,
  exists extra,
    for_each l
      (fun task s' =>
         if mem X (dependencies task)
            && status_eqb (status task) PENDING
            && negb (mem (task_id task) (task_queue s'))
         then
           if all_deps_completed (tasks s') task
           then (with_queue (fun q => q ++ [task_id task]) s', Ok tt)
           else (s', Ok tt)
         else (s', Ok tt)) s
    = (with_queue (fun q => q ++ extra) s, Ok tt) /\
    (forall x, In x extra -> exists t, In t l /\ task_id t = x) /\
    (forall t, In t l -> In X (dependencies t) -> status t = PENDING ->
       all_deps_completed (tasks s) t = true ->
       In (task_id t) (task_queue s ++ extra)).
Proof.
  induction l as [|t l IH]; intros s; cbn [for_each].
  - exists []. rewrite with_queue_app_nil. split; [reflexivity|].
    split; [intros x [] | intros t []].
  - unfold bind at 1.
    destruct (mem X (dependencies t) && status_eqb (status t) PENDING
              && negb (mem (task_id t) (task_queue s))) eqn:Ec;
      [destruct (all_deps_completed (tasks s) t) eqn:Ed|].
    + destruct (IH (with_queue (fun q => q ++ [task_id t]) s))
        as (extra & Hrun & Hex & Hin).
      exists (task_id t :: extra). rewrite Hrun. split.
      { f_equal. destruct s. unfold with_queue. cbn.
        now rewrite <- app_assoc. }
      split.
      * intros x [<-|Hx]; [exists t; split; [now left|reflexivity]|].
        destruct (Hex x Hx) as (t0 & H0 & E0). exists t0. split; [now right|auto].
      * intros t0 [<-|H0] HX Hp Hd.
        -- apply in_or_app. right. now left.
        -- specialize (Hin t0 H0 HX Hp Hd).
           cbn [task_queue with_queue] in Hin. rewrite <- app_assoc in Hin.
           exact Hin.
    + destruct (IH s) as (extra & Hrun & Hex & Hin).
      exists extra. rewrite Hrun. split; [reflexivity|]. split.
      * intros x Hx. destruct (Hex x Hx) as (t0 & H0 & E0).
        exists t0. split; [now right|auto].
      * intros t0 [<-|H0] HX Hp Hd; [congruence | now apply Hin].
    + destruct (IH s) as (extra & Hrun & Hex & Hin).
      exists extra. rewrite Hrun. split; [reflexivity|]. split.
      * intros x Hx. destruct (Hex x Hx) as (t0 & H0 & E0).
        exists t0. split; [now right|auto].
      * intros t0 [<-|H0] HX Hp Hd; [|now apply Hin].
        apply mem_In in HX. rewrite HX, Hp, status_eqb_refl in Ec.
        cbn [andb] in Ec. apply negb_false_iff, mem_In in Ec.
        apply in_or_app. now left.
Qed.


(** ** The loop of [remove_agent] needs no more fuel than the list is long *)

Lemma reassign_task_agent_length aid tid s a1 :
  get_agent aid (agents (fst (_reassign_task tid s))) = Some a1 ->
  exists a0, get_agent aid (agents s) = Some a0 /\
             (length (current_tasks a1) <= length (current_tasks a0))%nat.
Proof.
  destruct (reassign_task_cases tid s)
    as [->|(task & Hg & [->|(a & ag & l & Hag & Hl & ->)])];
    cbn [agents requeued_state with_queue with_tasks with_agents].
  - intros H. exists a1. auto.
  - intros H. exists a1. auto.
  - rewrite get_agent_update by reflexivity.
    destruct (String.eqb_spec a aid) as [->|]; [|intros H; exists a1; auto].
    rewrite Hag. cbn [option_map]. intros H. injection H as <-.
    exists ag. split; [reflexivity|]. cbn [current_tasks set_current_tasks].
    apply list_remove_length in Hl. lia.
Qed.

Lemma reassign_loop_fuel aid fuel : forall i s,
  (forall agent, get_agent aid (agents s) = Some agent ->
                 (length (current_tasks agent) - i <= fuel)%nat) ->
  forall k, reassign_loop aid (fuel + k) i s = reassign_loop aid fuel i s.
Proof.
  induction fuel as [|fuel IH]; intros i s Hlen k.
  - destruct k as [|k]; [reflexivity|]. cbn [Nat.add reassign_loop].
    destruct (get_agent aid (agents s)) as [agent|] eqn:Ea; [|reflexivity].
    specialize (Hlen agent eq_refl).
    destruct (nth_error (current_tasks agent) i) eqn:En; [|reflexivity].
    assert (Hn : nth_error (current_tasks agent) i <> None) by congruence.
    apply nth_error_Some in Hn. lia.
  - cbn [Nat.add reassign_loop].
    destruct (get_agent aid (agents s)) as [agent|] eqn:Ea; [|reflexivity].
    destruct (nth_error (current_tasks agent) i) as [tid|] eqn:En;
      [|reflexivity].
    unfold bind.
    destruct (_reassign_task tid s) as [s1 [u|e]] eqn:Er; [|reflexivity].
    apply IH. intros a1 Ha1.
    assert (Ha1' : get_agent aid (agents (fst (_reassign_task tid s))) = Some a1)
      by now rewrite Er.
    destruct (reassign_task_agent_length _ _ _ Ha1') as (a0 & Ha0 & Hle).
    rewrite Ea in Ha0. injection Ha0 as <-.
    specialize (Hlen agent eq_refl). lia.
Qed.

(** [remove_agent] gives its loop enough turns: more fuel than the
    length of [agent.current_tasks] changes nothing. *)
Lemma remove_agent_fuel_enough aid s agent k :
  get_agent aid (agents s) = Some agent ->
  reassign_loop aid (length (current_tasks agent) + k) 0 s =
  reassign_loop aid (length (current_tasks agent)) 0 s.
Proof.
  intros Ha. apply reassign_loop_fuel. intros a0 Ha0.
  rewrite Ha in Ha0. injection Ha0 as <-. lia.
Qed.

(** * Further properties *)

(** ** Round-robin *)

Lemma round_robin_from (l : list Agent) :
  forall (ts : list Task) (last : Z) (k : nat),
  l <> [] ->
  ((last + 1) mod Z.of_nat (length l))%Z = Z.of_nat (k mod length l) ->
  snd (assign_each (RoundRobinStrategy last) ts l) =
  map (fun i => nth_error l (i mod length l)) (seq k (length ts)).
Proof.
  induction ts as [|t ts IH]; intros last k Hl Hk; [reflexivity|].
  cbn [assign_each length seq map].
  destruct l as [|x l']; [congruence|].
  cbn [assign_task]. set (l := x :: l') in *.
  destruct (assign_each
              (RoundRobinStrategy ((last + 1) mod Z.of_nat (length l))) ts l)
    as [st2 rs] eqn:E.
  cbn [snd]. f_equal.
  - rewrite Hk. now rewrite Nat2Z.id.
  - replace rs with (snd (assign_each
              (RoundRobinStrategy ((last + 1) mod Z.of_nat (length l))) ts l))
      by now rewrite E.
    apply IH; [assumption|].
    rewrite Hk.
    assert (Hn : length l <> 0%nat) by (subst l; cbn [length]; lia).
    rewrite Nat2Z.inj_mod.
    rewrite Zplus_mod_idemp_l.
    rewrite Nat2Z.inj_mod. f_equal. lia.
Qed.

(** X1.  A fresh round-robin strategy (cursor -1) asked repeatedly with
    the same non-empty candidate list answers with the candidates in list
    order, wrapping around: the i-th call (from 0) returns the candidate at
    position [i mod len], whatever the tasks are; it never answers [None]. *)
Theorem round_robin_rotation :
  forall (ts : list Task) (candidates : list Agent),
    candidates <> [] ->
    snd (assign_each (RoundRobinStrategy (-1)) ts candidates) =
    map (fun i => nth_error candidates (i mod length candidates))
        (seq 0 (length ts)) /\
    Forall (fun r => r <> None)
           (snd (assign_each (RoundRobinStrategy (-1)) ts candidates)).
Proof.
  intros ts l Hl.
  assert (E : snd (assign_each (RoundRobinStrategy (-1)) ts l) =
              map (fun i => nth_error l (i mod length l)) (seq 0 (length ts))).
  { apply round_robin_from; [assumption|].
    change (-1 + 1)%Z with 0%Z. rewrite Zmod_0_l.
    now rewrite (Nat.Div0.mod_0_l (length l)). }
  split; [exact E|]. rewrite E. apply Forall_forall. intros r Hr.
  apply in_map_iff in Hr as (i & <- & _).
  apply nth_error_Some. apply Nat.mod_upper_bound.
  destruct l; [congruence | cbn [length]; lia].
Qed.

Lemma round_robin_rotation_witness :
  snd (assign_each (RoundRobinStrategy (-1))
         [Scenario.task "t1" [] []; Scenario.task "t2" ["y"] [];
          Scenario.task "t3" [] []]
         [Scenario.agent "a1" ["x"] 1; Scenario.agent "a2" ["x"] 1]) =
  [Some (Scenario.agent "a1" ["x"] 1); Some (Scenario.agent "a2" ["x"] 1);
   Some (Scenario.agent "a1" ["x"] 1)].
Proof.
  apply (proj1 (@round_robin_rotation
                  [Scenario.task "t1" [] []; Scenario.task "t2" ["y"] [];
                   Scenario.task "t3" [] []]
                  [Scenario.agent "a1" ["x"] 1; Scenario.agent "a2" ["x"] 1]
                  ltac:(discriminate))).
Defined.

(** ** Picking the first best candidate *)

Section FirstBest.
Variable A : Type.
Variable better : A -> A -> bool.
Hypothesis better_trans : forall a b c,
  better a b = true -> better b c = true -> better a c = true.
Hypothesis better_not_worse : forall a m x,
  better a m = true -> better x m = false -> better a x = true.

Lemma fold_first_best l : forall pre m mid,
  (forall b, In b pre -> better m b = true) ->
  (forall b, In b mid -> better b m = false) ->
  exists pre' post',
    pre ++ m :: mid ++ l =
    pre' ++ fold_left (fun best a => if better a best then a else best) l m
         :: post' /\
    (forall b, In b pre' ->
       better (fold_left (fun best a => if better a best then a else best) l m)
              b = true) /\
    (forall b, In b post' ->
       better b (fold_left (fun best a => if better a best then a else best) l m)
       = false).
Proof.
  induction l as [|a l IH]; intros pre m mid Hpre Hmid; cbn [fold_left].
  - exists pre, mid. rewrite app_nil_r. auto.
  - destruct (better a m) eqn:E.
    + destruct (IH (pre ++ m :: mid) a []) as (pre' & post' & Heq & H1 & H2).
      * intros b Hb. apply in_app_or in Hb as [Hb|[<-|Hb]].
        -- apply better_trans with (b := m); auto.
        -- assumption.
        -- apply better_not_worse with (m := m); auto.
      * intros b [].
      * exists pre', post'. split; [|auto].
        rewrite <- Heq. cbn [app]. rewrite <- app_assoc. reflexivity.
    + destruct (IH pre m (mid ++ [a])) as (pre' & post' & Heq & H1 & H2).
      * assumption.
      * intros b Hb. apply in_app_or in Hb as [Hb|[<-|[]]]; auto.
      * exists pre', post'. split; [|auto].
        rewrite <- Heq. rewrite <- app_assoc. reflexivity.
Qed.
End FirstBest.

Lemma Qgtb_lt x y : Qgtb x y = true <-> y < x.
Proof.
  unfold Qgtb. rewrite negb_true_iff. split.
  - intros H. apply Qnot_le_lt. intros Hle.
    apply Qle_bool_iff in Hle. congruence.
  - intros H. destruct (Qle_bool x y) eqn:E; [|reflexivity].
    apply Qle_bool_iff in E. exfalso. exact (Qlt_not_le _ _ H E).
Qed.

Lemma Qgtb_le x y : Qgtb x y = false <-> x <= y.
Proof.
  unfold Qgtb. rewrite negb_false_iff. apply Qle_bool_iff.
Qed.

(** X2.  The capability-based strategy answers [None] exactly when no
    candidate has every required capability.  Otherwise it answers the
    first candidate, in list order, of maximal recorded success rate among
    those that have them: every capable candidate before it has a strictly
    smaller rate and none after it has a larger one.  The strategy object
    is left as it was. *)
Theorem capability_based_first_best :
  forall (task : Task) (candidates : list Agent),
    fst (assign_task CapabilityBasedStrategy task candidates)
      = CapabilityBasedStrategy /\
    match snd (assign_task CapabilityBasedStrategy task candidates) with
    | None => forall a, In a candidates -> has_capabilities task a = false
    | Some a =>
        exists pre post,
          filter (has_capabilities task) candidates = pre ++ a :: post /\
          (forall b, In b pre -> success_rate b < success_rate a) /\
          (forall b, In b post -> success_rate b <= success_rate a)
    end.
Proof.
  intros task l. cbn [assign_task].
  destruct (filter (has_capabilities task) l) as [|x rest] eqn:E; cbn [fst snd].
  - split; [reflexivity|]. intros a Ha.
    destruct (has_capabilities task a) eqn:Hc; [|reflexivity].
    assert (Hin : In a (filter (has_capabilities task) l))
      by (apply filter_In; auto).
    rewrite E in Hin. contradiction.
  - split; [reflexivity|].
    destruct (@fold_first_best Agent
                (fun a b => Qgtb (success_rate a) (success_rate b)))
      with (l := rest) (pre := @nil Agent) (m := x) (mid := @nil Agent)
      as (pre & post & Heq & H1 & H2).
    + intros a b c Hab Hbc. apply Qgtb_lt in Hab, Hbc. apply Qgtb_lt.
      now apply Qlt_trans with (y := success_rate b).
    + intros a m y Ham Hym. apply Qgtb_lt in Ham. apply Qgtb_le in Hym.
      apply Qgtb_lt. now apply Qle_lt_trans with (y := success_rate m).
    + intros b [].
    + intros b [].
    + exists pre, post. cbn [app] in Heq. split; [exact Heq|]. split.
      * intros b Hb. apply Qgtb_lt. now apply H1.
      * intros b Hb. apply Qgtb_le. now apply H2.
Qed.

(** X3.  The priority-based strategy answers [None] exactly when no
    candidate is both capable and under capacity.  Otherwise it answers
    the first candidate, in list order, with the fewest current tasks among
    those: every such candidate before it holds strictly more tasks and
    none after it holds fewer.  The numeric [priority] of the task plays
    no part. *)
Theorem priority_based_least_loaded :
  forall (task : Task) (candidates : list Agent),
    match snd (assign_task PriorityBasedStrategy task candidates) with
    | None =>
        forall a, In a candidates ->
                  has_capabilities task a && under_capacity a = false
    | Some a =>
        exists pre post,
          filter (fun c => has_capabilities task c && under_capacity c)
                 candidates = pre ++ a :: post /\
          (forall b, In b pre ->
             (length (current_tasks a) < length (current_tasks b))%nat) /\
          (forall b, In b post ->
             (length (current_tasks a) <= length (current_tasks b))%nat)
    end.
Proof.
  intros task l. cbn [assign_task].
  destruct (filter (fun c => has_capabilities task c && under_capacity c) l)
    as [|x rest] eqn:E; cbn [snd].
  - intros a Ha.
    destruct (has_capabilities task a && under_capacity a) eqn:Hc;
      [|reflexivity].
    assert (Hin : In a (filter (fun c => has_capabilities task c
                                         && under_capacity c) l))
      by (apply filter_In; auto).
    rewrite E in Hin. contradiction.
  - destruct (@fold_first_best Agent
                (fun a b => Nat.ltb (length (current_tasks a))
                                    (length (current_tasks b))))
      with (l := rest) (pre := @nil Agent) (m := x) (mid := @nil Agent)
      as (pre & post & Heq & H1 & H2).
    + intros a b c Hab Hbc. apply Nat.ltb_lt in Hab, Hbc. apply Nat.ltb_lt. lia.
    + intros a m y Ham Hym. apply Nat.ltb_lt in Ham. apply Nat.ltb_ge in Hym.
      apply Nat.ltb_lt. lia.
    + intros b [].
    + intros b [].
    + exists pre, post. cbn [app] in Heq. split; [exact Heq|]. split.
      * intros b Hb. apply Nat.ltb_lt. now apply H1.
      * intros b Hb. apply Nat.ltb_ge. now apply H2.
Qed.

(** ** Registering and removing agents *)

Lemma get_agent_app aid l l' :
  get_agent aid (l ++ l') =
  match get_agent aid l with
  | Some x => Some x
  | None => get_agent aid l'
  end.
Proof.
  unfold get_agent. induction l as [|x l IH]; cbn [app find]; [reflexivity|].
  now destruct (String.eqb (agent_id x) aid).
Qed.

Lemma get_agent_put aid a l :
  get_agent aid (put_agent a l) =
  if String.eqb (agent_id a) aid then Some a else get_agent aid l.
Proof.
  unfold put_agent. destruct (get_agent (agent_id a) l) as [a0|] eqn:E.
  - induction l as [|x l IH]; [discriminate|].
    cbn [get_agent find update_agent] in *.
    destruct (String.eqb_spec (agent_id x) (agent_id a)) as [Ex|Ex].
    + cbn [find]. rewrite Ex.
      destruct (String.eqb (agent_id a) aid); reflexivity.
    + cbn [find].
      fold (get_agent aid (update_agent (agent_id a) (fun _ => a) l)).
      fold (get_agent aid l). rewrite (IH E).
      destruct (String.eqb_spec (agent_id x) aid) as [E1|E1]; [|reflexivity].
      destruct (String.eqb_spec (agent_id a) aid); [congruence|reflexivity].
  - rewrite get_agent_app.
    destruct (get_agent aid l) as [a1|] eqn:E1.
    + destruct (String.eqb_spec (agent_id a) aid) as [<-|];
        [congruence|reflexivity].
    + cbn [get_agent find].
      destruct (String.eqb (agent_id a) aid); reflexivity.
Qed.

(** X4.  With handlers that only observe (each returns or raises an
    [Exception] and makes no call on the manager, as every [Handler]
    does), [register_agent] returns; afterwards a lookup of the agent's id
    yields exactly the object passed (an agent already registered under
    that id is replaced in place, a new id goes to the end), every other
    id is registered as before, and tasks, queue and strategy are
    untouched: registration does not try to assign waiting tasks. *)
Theorem register_agent_last_write_wins :
  forall (s : WorkforceManager) (a : Agent),
    exists s',
      register_agent a s = (s', Ok tt) /\
      get_agent (agent_id a) (agents s') = Some a /\
      (forall aid, aid <> agent_id a ->
                   get_agent aid (agents s') = get_agent aid (agents s)) /\
      map agent_id (agents s') =
        (match get_agent (agent_id a) (agents s) with
         | Some _ => map agent_id (agents s)
         | None => map agent_id (agents s) ++ [agent_id a]
         end) /\
      tasks s' = tasks s /\ task_queue s' = task_queue s /\
      strategy s' = strategy s.
Proof.
  intros s a. unfold register_agent, bind, modify.
  rewrite emit_event_spec. eexists. split; [reflexivity|].
  cbn [agents tasks task_queue strategy with_bus_effects with_agents].
  split; [now rewrite get_agent_put, String.eqb_refl|].
  split.
  - intros aid Hne. rewrite get_agent_put.
    destruct (String.eqb_spec (agent_id a) aid); [congruence|reflexivity].
  - split; [|auto]. unfold put_agent.
    destruct (get_agent (agent_id a) (agents s)).
    + now apply map_agent_id_update.
    + now rewrite map_app.
Qed.

Lemma list_remove_middle x kept rest :
  ~ In x kept -> list_remove x (kept ++ x :: rest) = Some (kept ++ rest).
Proof.
  induction kept as [|y kept IH]; intros Hn; cbn [app list_remove].
  - now rewrite String.eqb_refl.
  - destruct (String.eqb_spec y x) as [->|_].
    + exfalso. apply Hn. now left.
    + rewrite IH; [reflexivity|]. intros Hin. apply Hn. now right.
Qed.

Lemma evens_incl_aux l :
  (forall x, In x (evens l) -> In x l) /\
  (forall a x, In x (evens (a :: l)) -> In x (a :: l)).
Proof.
  induction l as [|b l [IH1 IH2]]; split.
  - intros x [].
  - intros a x H. exact H.
  - intros x. apply IH2.
  - intros a x. cbn [evens]. intros [<-|Hx]; [now left|].
    right. right. now apply IH1.
Qed.

Lemma evens_incl l x : In x (evens l) -> In x l.
Proof. apply (proj1 (evens_incl_aux l)). Qed.

Lemma reassign_task_ok tid s t aid agent l :
  get_task tid (tasks s) = Some t -> assigned_agent t = Some aid ->
  aid <> "" -> get_agent aid (agents s) = Some agent ->
  list_remove tid (current_tasks agent) = Some l ->
  _reassign_task tid s =
  (requeued_state tid (with_agents (update_agent aid (set_current_tasks l)) s),
   Ok tt).
Proof.
  intros Hg Ha Hne Hag Hl. unfold _reassign_task. rewrite Hg.
  unfold bind, modify. cbn beta. rewrite Ha. cbn [truthy].
  destruct (String.eqb_spec aid ""); [contradiction|]. cbn [negb].
  now rewrite Hag, Hl.
Qed.

Lemma mem_false x l : mem x l = false <-> ~ In x l.
Proof.
  rewrite <- mem_In. destruct (mem x l); split; congruence.
Qed.

Lemma reassign_loop_spec aid : forall fuel rest kept s agent,
  get_agent aid (agents s) = Some agent ->
  current_tasks agent = kept ++ rest ->
  NoDup (kept ++ rest) ->
  (forall tid, In tid rest ->
     exists t, get_task tid (tasks s) = Some t /\ assigned_agent t = Some aid) ->
  aid <> "" ->
  (length rest <= fuel)%nat ->
  exists s',
    reassign_loop aid fuel (length kept) s = (s', Ok tt) /\
    task_queue s' = task_queue s ++ evens rest /\
    (forall tid,
       get_task tid (tasks s') =
       if mem tid (evens rest)
       then option_map
              (fun t => set_status PENDING (set_assigned_agent None t))
              (get_task tid (tasks s))
       else get_task tid (tasks s)) /\
    (forall a', a' <> aid ->
       get_agent a' (agents s') = get_agent a' (agents s)) /\
    strategy s' = strategy s.
Proof.
  induction fuel as [|fuel IH]; intros rest kept s agent Hag Hcur Hnd Hreg Hne Hlen.
  - destruct rest; [|cbn [length] in Hlen; lia].
    exists s. cbn [reassign_loop evens mem existsb]. rewrite app_nil_r. auto.
  - cbn [reassign_loop]. rewrite Hag, Hcur.
    rewrite nth_error_app2 by lia. rewrite Nat.sub_diag.
    destruct rest as [|t rest1]; cbn [nth_error].
    { exists s. cbn [evens mem existsb]. rewrite app_nil_r. auto. }
    destruct (Hreg t (or_introl eq_refl)) as (tt_ & Hgt & Hat).
    assert (Hnk : ~ In t kept).
    { intros Hin. apply NoDup_remove_2 in Hnd. apply Hnd.
      apply in_or_app. now left. }
    assert (Hrm : list_remove t (current_tasks agent) = Some (kept ++ rest1))
      by (rewrite Hcur; now apply list_remove_middle).
    unfold bind. rewrite (reassign_task_ok _ _ Hgt Hat Hne Hag Hrm).
    set (s1 := requeued_state t _).
    assert (Hag1 : get_agent aid (agents s1)
                   = Some (set_current_tasks (kept ++ rest1) agent)).
    { subst s1. cbn [agents requeued_state with_queue with_tasks with_agents].
      rewrite get_agent_update by reflexivity.
      now rewrite String.eqb_refl, Hag. }
    assert (Hg1 : forall tid, get_task tid (tasks s1) =
                    if String.eqb t tid
                    then option_map
                           (fun t0 => set_status PENDING
                                        (set_assigned_agent None t0))
                           (get_task tid (tasks s))
                    else get_task tid (tasks s)).
    { intros tid. subst s1.
      cbn [tasks requeued_state with_queue with_tasks with_agents].
      now rewrite get_task_update by reflexivity. }
    assert (Hoth1 : forall a', a' <> aid ->
                      get_agent a' (agents s1) = get_agent a' (agents s)).
    { intros a' Ha'. subst s1.
      cbn [agents requeued_state with_queue with_tasks with_agents].
      rewrite get_agent_update by reflexivity.
      destruct (String.eqb_spec aid a'); [congruence|reflexivity]. }
    assert (Hnd1 : NoDup (kept ++ rest1)) by (now apply NoDup_remove_1 in Hnd).
    assert (Ht1 : ~ In t (kept ++ rest1)) by (now apply NoDup_remove_2 in Hnd).
    destruct rest1 as [|u rest2].
    + (* the list is exhausted *)
      exists s1. split.
      * destruct fuel; [reflexivity|]. cbn [reassign_loop]. rewrite Hag1.
        cbn [current_tasks set_current_tasks]. rewrite app_nil_r.
        assert (E : nth_error kept (S (length kept)) = None)
          by (apply nth_error_None; lia).
        now rewrite E.
      * split; [reflexivity|]. split; [|split; [assumption|reflexivity]].
        intros tid. rewrite Hg1. cbn [evens mem existsb].
        rewrite String.eqb_sym, orb_false_r. reflexivity.
    + (* the next element is skipped *)
      destruct (IH rest2 (kept ++ [u]) s1
                  (set_current_tasks (kept ++ u :: rest2) agent))
        as (s' & Hrun & Hq & Hts & Hoth & Hst).
      * assumption.
      * cbn [current_tasks set_current_tasks]. now rewrite <- app_assoc.
      * now rewrite <- app_assoc.
      * intros tid Hin.
        destruct (Hreg tid (or_intror (or_intror Hin))) as (t0 & Hg0 & Ha0).
        exists t0. split; [|assumption]. rewrite Hg1.
        destruct (String.eqb_spec t tid) as [<-|]; [|assumption].
        exfalso. apply Ht1. apply in_or_app. right. now right.
      * assumption.
      * cbn [length] in Hlen. lia.
      * exists s'. split.
        { rewrite <- Hrun. f_equal. rewrite length_app. cbn [length]. lia. }
        split.
        { rewrite Hq. subst s1.
          cbn [task_queue requeued_state with_queue with_tasks with_agents evens].
          now rewrite <- app_assoc. }
        split; [|split].
        { intros tid. rewrite Hts, Hg1. cbn [evens mem existsb].
          fold (mem tid (evens rest2)). rewrite (String.eqb_sym tid t).
          destruct (String.eqb_spec t tid) as [<-|Hneq]; cbn [orb].
          - assert (Hm : mem t (evens rest2) = false).
            { apply mem_false. intros Hin. apply evens_incl in Hin.
              apply Ht1. apply in_or_app. right. now right. }
            now rewrite Hm.
          - reflexivity. }
        { intros a' Ha'. rewrite Hoth by assumption. now apply Hoth1. }
        { rewrite Hst. reflexivity. }
Qed.

Lemma get_agent_del_same aid l : get_agent aid (del_agent aid l) = None.
Proof.
  unfold get_agent, del_agent. induction l as [|a l IH]; cbn [filter find];
    [reflexivity|].
  destruct (String.eqb (agent_id a) aid) eqn:E; cbn [negb find]; [assumption|].
  now rewrite E.
Qed.

Lemma get_agent_del_other aid a' l :
  a' <> aid -> get_agent a' (del_agent aid l) = get_agent a' l.
Proof.
  intros Hne. unfold get_agent, del_agent.
  induction l as [|a l IH]; cbn [filter find]; [reflexivity|].
  destruct (String.eqb_spec (agent_id a) aid) as [E|E]; cbn [negb find].
  - destruct (String.eqb_spec (agent_id a) a'); [congruence | assumption].
  - now rewrite IH.
Qed.

Lemma odds_evens_cons l : forall a,
  odds (a :: l) = evens l /\ evens (a :: l) = a :: odds l.
Proof.
  induction l as [|b l IH]; intros a; [split; reflexivity|].
  cbn [odds evens]. destruct (IH b) as [IH1 IH2]. split.
  - now rewrite <- IH2.
  - now rewrite <- IH1.
Qed.

Lemma odds_evens_disjoint l x :
  NoDup l -> In x (odds l) -> ~ In x (evens l).
Proof.
  induction l as [|a l IH]; intros Hnd Ho He; [contradiction|].
  destruct (odds_evens_cons l a) as [E1 E2]. rewrite E1 in Ho. rewrite E2 in He.
  inversion Hnd; subst. destruct He as [<-|He].
  - apply evens_incl in Ho. contradiction.
  - now apply IH.
Qed.

(** X5.  Let agent [aid], whose id is not the empty string, hold the
    distinct tasks [l], each registered and recording [aid] (with the id
    [""] the test [if task.assigned_agent] is false and the list is not
    shortened).  [remove_agent(aid)] returns [True] and deletes the
    agent, but its loop runs over the list it is shortening: exactly the
    tasks at positions 0, 2, 4, ... of [l] are detached (made Pending with
    no agent) and appended to the queue in that order; the tasks at
    positions 1, 3, 5, ... are left as they were, still recording the
    deleted agent.  Other agents, and the strategy, are untouched. *)
Theorem remove_agent_detaches_alternate_tasks :
  forall (s : WorkforceManager) (aid : string) (agent : Agent),
    get_agent aid (agents s) = Some agent ->
    aid <> "" ->
    NoDup (current_tasks agent) ->
    (forall tid, In tid (current_tasks agent) ->
       exists t, get_task tid (tasks s) = Some t /\
                 assigned_agent t = Some aid) ->
    exists s',
      remove_agent aid s = (s', Ok true) /\
      get_agent aid (agents s') = None /\
      (forall a', a' <> aid ->
         get_agent a' (agents s') = get_agent a' (agents s)) /\
      task_queue s' = task_queue s ++ evens (current_tasks agent) /\
      (forall tid, In tid (evens (current_tasks agent)) ->
         get_task tid (tasks s') =
         option_map (fun t => set_status PENDING (set_assigned_agent None t))
                    (get_task tid (tasks s))) /\
      (forall tid, ~ In tid (evens (current_tasks agent)) ->
         get_task tid (tasks s') = get_task tid (tasks s)) /\
      (forall tid, In tid (odds (current_tasks agent)) ->
         get_task tid (tasks s') = get_task tid (tasks s)) /\
      strategy s' = strategy s.
Proof.
  intros s aid agent Hag Hne Hnd Hreg. unfold remove_agent. rewrite Hag.
  destruct (@reassign_loop_spec aid (length (current_tasks agent))
              (current_tasks agent) [] s agent)
    as (s1 & Hrun & Hq & Hts & Hoth & Hst); auto.
  cbn [length] in Hrun. unfold bind at 1. rewrite Hrun.
  unfold bind, modify. rewrite emit_event_spec.
  eexists. split; [reflexivity|].
  cbn [agents tasks task_queue strategy with_bus_effects with_agents].
  split; [apply get_agent_del_same|].
  split; [intros a' Ha'; rewrite get_agent_del_other by assumption; auto|].
  split; [assumption|].
  assert (Hev : forall tid, In tid (evens (current_tasks agent)) ->
            get_task tid (tasks s1) =
            option_map (fun t => set_status PENDING (set_assigned_agent None t))
                       (get_task tid (tasks s))).
  { intros tid Hin. rewrite Hts. apply mem_In in Hin. now rewrite Hin. }
  assert (Hnev : forall tid, ~ In tid (evens (current_tasks agent)) ->
            get_task tid (tasks s1) = get_task tid (tasks s)).
  { intros tid Hin. rewrite Hts. apply mem_false in Hin. now rewrite Hin. }
  split; [assumption|]. split; [assumption|]. split; [|assumption].
  intros tid Hin. apply Hnev. now apply odds_evens_disjoint.
Qed.

Lemma remove_agent_detaches_alternate_tasks_witness :
  exists s',
    remove_agent "a1" Scenario.two_held = (s', Ok true) /\
    get_agent "a1" (agents s') = None /\
    task_queue s' = task_queue Scenario.two_held ++ evens ["t1"; "t2"] /\
    get_task "t2" (tasks s') = get_task "t2" (tasks Scenario.two_held).
Proof.
  destruct (@remove_agent_detaches_alternate_tasks Scenario.two_held "a1"
              (mkAgent "a1" "a1" WORKER ["x"] 2 ["t1"; "t2"] [] true))
    as (s' & Hrun & Hgone & _ & Hq & _ & _ & Hodd & _).
  - vm_compute. reflexivity.
  - discriminate.
  - cbn [current_tasks]. repeat constructor; cbn; intuition discriminate.
  - cbn [current_tasks]. intros tid [<-|[<-|[]]]; eexists;
      (split; [vm_compute; reflexivity | reflexivity]).
  - exists s'. split; [exact Hrun|]. split; [exact Hgone|].
    split; [exact Hq|]. apply Hodd. cbn. now left.
Defined.

(** X6.  Whenever [remove_agent] returns, the id is no longer
    registered; it returns [False] exactly when the id was not registered,
    and then the manager is as before (no event is emitted either). *)
Theorem remove_agent_unregisters :
  forall (s s' : WorkforceManager) (aid : string) (b : bool),
    remove_agent aid s = (s', Ok b) ->
    get_agent aid (agents s') = None /\
    (b = false <-> get_agent aid (agents s) = None) /\
    (b = false -> s' = s).
Proof.
  intros s s' aid b. unfold remove_agent.
  destruct (get_agent aid (agents s)) as [agent|] eqn:Hag.
  - unfold bind at 1.
    destruct (reassign_loop aid (length (current_tasks agent)) 0 s)
      as [s1 [u|e]]; [|discriminate].
    unfold bind, modify. rewrite emit_event_spec. intros H.
    injection H as <- <-.
    cbn [agents with_bus_effects with_agents].
    split; [apply get_agent_del_same|]. split; [split; discriminate|discriminate].
  - intros H. injection H as <- <-. repeat split; auto.
Qed.

Lemma remove_agent_unregisters_witness :
  get_agent "a1" (agents (fst (remove_agent "a1" Scenario.one_waiting))) = None.
Proof.
  apply (@remove_agent_unregisters Scenario.one_waiting
           (fst (remove_agent "a1" Scenario.one_waiting)) "a1" true).
  vm_compute. reflexivity.
Defined.

(** ** Completing and failing *)

Lemma map_task_id_update tid f ts :
  (forall t, task_id (f t) = task_id t) ->
  map task_id (update_task tid f ts) = map task_id ts.
Proof.
  intros Hf. induction ts as [|t ts IH]; cbn [update_task map]; [reflexivity|].
  destruct (String.eqb (task_id t) tid); cbn [map].
  - now rewrite Hf.
  - now rewrite IH.
Qed.

Lemma release_agent_frame assigned tid success s :
  let s' := fst (release_agent assigned tid success s) in
  tasks s' = tasks s /\ task_queue s' = task_queue s /\
  strategy s' = strategy s /\
  map agent_id (agents s') = map agent_id (agents s) /\
  (forall aid, assigned <> Some aid ->
               get_agent aid (agents s') = get_agent aid (agents s)).
Proof.
  cbv zeta. unfold release_agent.
  destruct assigned as [aid|]; [|repeat split; auto].
  destruct (truthy (Some aid)); [|repeat split; auto].
  destruct (get_agent aid (agents s)) as [agent|]; [|repeat split; auto].
  destruct (list_remove tid (current_tasks agent)) as [l|];
    [|repeat split; auto].
  destruct (_update_agent_metrics success (performance_metrics agent)) as [m r].
  cbn [fst tasks task_queue strategy agents with_agents].
  repeat split.
  - apply map_agent_id_update. now intros a <-.
  - intros aid' Hne. rewrite get_agent_update by reflexivity.
    destruct (String.eqb_spec aid aid'); [congruence | reflexivity].
Qed.

Lemma fail_task_frame s tid reason s' r :
  fail_task tid reason s = (s', r) ->
  task_queue s' = task_queue s /\
  strategy s' = strategy s /\
  (forall tid', tid' <> tid ->
     get_task tid' (tasks s') = get_task tid' (tasks s)) /\
  map task_id (tasks s') = map task_id (tasks s) /\
  map agent_id (agents s') = map agent_id (agents s).
Proof.
  unfold fail_task.
  destruct (get_task tid (tasks s)) as [task|];
    [|intros H; injection H as <- <-; repeat split; auto].
  destruct (negb (status_eqb (status task) IN_PROGRESS));
    [intros H; injection H as <- <-; repeat split; auto|].
  unfold bind at 1. cbn [modify].
  set (s1 := with_tasks _ s).
  pose proof (release_agent_frame (assigned_agent task) tid false s1) as Hf.
  cbv zeta in Hf. destruct Hf as (Ht & Hq & Hst & Hag & _).
  assert (H1 : task_queue s1 = task_queue s /\
               strategy s1 = strategy s /\
               (forall tid', tid' <> tid ->
                  get_task tid' (tasks s1) = get_task tid' (tasks s)) /\
               map task_id (tasks s1) = map task_id (tasks s) /\
               map agent_id (agents s1) = map agent_id (agents s)).
  { subst s1. cbn [tasks task_queue strategy agents with_tasks].
    repeat split.
    - intros tid' Hne. rewrite get_task_update by reflexivity.
      destruct (String.eqb_spec tid tid'); [congruence|reflexivity].
    - now apply map_task_id_update. }
  unfold bind.
  destruct (release_agent (assigned_agent task) tid false s1) as [s2 [u|e]];
    cbn [fst] in *.
  - rewrite emit_event_spec. unfold ret. intros H. injection H as <- <-.
    cbn [tasks task_queue strategy agents with_bus_effects].
    rewrite Ht, Hq, Hst, Hag. exact H1.
  - intros H. injection H as <- <-. rewrite Ht, Hq, Hst, Hag. exact H1.
Qed.

(** X7.  [fail_task], whatever it returns or raises, never touches the
    pending queue, the strategy, or any task other than the one named: in
    particular it never enqueues or unblocks the dependents of the failed
    task, and it never starts a waiting task.  No task or agent is added
    or dropped. *)
Theorem fail_task_touches_one_task :
  forall (s : WorkforceManager) (tid : string) (reason : PyVal),
    let s' := fst (fail_task tid reason s) in
    task_queue s' = task_queue s /\
    strategy s' = strategy s /\
    (forall tid', tid' <> tid ->
       get_task tid' (tasks s') = get_task tid' (tasks s)) /\
    map task_id (tasks s') = map task_id (tasks s) /\
    map agent_id (agents s') = map agent_id (agents s).
Proof.
  intros s tid reason s'. subst s'.
  destruct (fail_task tid reason s) as [s' r] eqn:E. cbn [fst].
  exact (fail_task_frame _ _ _ E).
Qed.

(** X8.  Let a task be InProgress and, if it records an agent under a
    truthy (non-empty) id, let that agent be registered, hold the task and
    have a metrics dict that [_update_agent_metrics] updates without
    raising (as the dict of a fresh agent, or one the manager wrote from
    it).  Then [fail_task] returns [True]; the task becomes Failed with
    [metadata['failure_reason']] set to the reason and still records its
    agent; an agent recorded under a non-empty id loses one occurrence of
    the task id and has the failure recorded in its metrics; and a later
    [complete_task] or [fail_task] on the id returns [False] without
    effect. *)
Theorem fail_task_effects :
  forall (s : WorkforceManager) (tid : string) (reason : PyVal) (tx : Task),
    get_task tid (tasks s) = Some tx ->
    status tx = IN_PROGRESS ->
    release_ready s tx ->
    exists s',
      fail_task tid reason s = (s', Ok true) /\
      get_task tid (tasks s') =
        Some (set_metadata (dict_set "failure_reason" reason (metadata tx))
                (set_status FAILED tx)) /\
      (forall aid agent,
         assigned_agent tx = Some aid -> aid <> "" ->
         get_agent aid (agents s) = Some agent ->
         exists l,
           list_remove tid (current_tasks agent) = Some l /\
           get_agent aid (agents s') =
             Some (set_performance_metrics
                     (fst (_update_agent_metrics false
                             (performance_metrics agent)))
                     (set_current_tasks l agent))) /\
      (forall r, complete_task tid r s' = (s', Ok false)) /\
      (forall r, fail_task tid r s' = (s', Ok false)).
Proof.
  intros s tid reason tx Hg Hs Hr.
  apply get_task_Some in Hg as Hid. destruct Hid as [_ Hid].
  assert (Hg' : get_task tid
                  (update_task tid
                     (fun t => set_metadata
                                 (dict_set "failure_reason" reason (metadata t))
                                 (set_status FAILED t)) (tasks s)) =
                Some (set_metadata
                        (dict_set "failure_reason" reason (metadata tx))
                        (set_status FAILED tx))).
  { rewrite get_task_update by reflexivity.
    now rewrite String.eqb_refl, Hg. }
  unfold fail_task at 1. rewrite Hg, Hs. cbn [status_eqb negb].
  unfold bind at 1. cbn [modify]. set (s1 := with_tasks _ s).
  unfold bind. unfold release_agent.
  destruct (assigned_agent tx) as [aid|] eqn:Ea.
  - destruct (truthy (Some aid)) eqn:Et.
    + unfold release_ready in Hr. rewrite Ea in Hr.
      destruct (Hr Et) as (aid' & agent & E & Hag & Hin & Hm).
      injection E as <-. rewrite Hid in Hin.
      destruct (list_remove_count _ _ Hin) as (l & Hl & _).
      subst s1. cbn [agents with_tasks]. rewrite Hag, Hl.
      pose proof (update_metrics_ok false Hm) as Hok.
      destruct (_update_agent_metrics false (performance_metrics agent))
        as [m r] eqn:Em. cbn [snd] in Hok. subst r.
      rewrite emit_event_spec. eexists. split; [reflexivity|].
      cbn [tasks agents with_bus_effects with_agents with_tasks].
      rewrite Hg'.
      split; [reflexivity|]. split.
      * intros aid0 agent0 E0 _ Hag0. injection E0 as <-.
        rewrite Hag in Hag0. injection Hag0 as <-. exists l.
        split; [assumption|]. rewrite get_agent_update by reflexivity.
        rewrite String.eqb_refl, Hag, Em. reflexivity.
      * split; intros r0; [unfold complete_task | unfold fail_task];
          cbn [tasks with_bus_effects with_agents with_tasks];
          rewrite Hg'; reflexivity.
    + rewrite emit_event_spec. eexists. split; [reflexivity|].
      subst s1. cbn [tasks agents with_bus_effects with_tasks].
      rewrite Hg'.
      split; [reflexivity|]. split.
      * intros aid0 agent0 E0 Hne _. injection E0 as <-.
        cbn [truthy] in Et. apply negb_false_iff, String.eqb_eq in Et.
        contradiction.
      * split; intros r0; [unfold complete_task | unfold fail_task];
          cbn [tasks with_bus_effects with_tasks];
          rewrite Hg'; reflexivity.
  - rewrite emit_event_spec. eexists. split; [reflexivity|].
    subst s1. cbn [tasks agents with_bus_effects with_tasks].
    rewrite Hg'.
    split; [reflexivity|]. split; [intros aid0 agent0 E0; discriminate|].
    split; intros r0; [unfold complete_task | unfold fail_task];
      cbn [tasks with_bus_effects with_tasks];
      rewrite Hg'; reflexivity.
Qed.

Lemma fail_task_effects_witness :
  exists s',
    fail_task "t1" (VStr "boom") Scenario.one_waiting = (s', Ok true) /\
    get_task "t1" (tasks s') =
      Some (set_metadata
              (dict_set "failure_reason" (VStr "boom")
                 (metadata (mkTask "t1" "t1" ["x"] 1 IN_PROGRESS (Some "a1")
                              VNone [] [])))
              (set_status FAILED
                 (mkTask "t1" "t1" ["x"] 1 IN_PROGRESS (Some "a1")
                    VNone [] []))).
Proof.
  destruct (@fail_task_effects Scenario.one_waiting "t1" (VStr "boom")
              (mkTask "t1" "t1" ["x"] 1 IN_PROGRESS (Some "a1") VNone [] []))
    as (s' & Hrun & Hg & _).
  - vm_compute. reflexivity.
  - reflexivity.
  - intros _. exists "a1", (mkAgent "a1" "a1" WORKER ["x"] 1 ["t1"] [] true).
    repeat split; try reflexivity.
    + now left.
    + apply metrics_ready_empty.
  - exists s'. split; assumption.
Defined.

Lemma process_dependent_tasks_frame X s :
  exists extra,
    _process_dependent_tasks X s = (with_queue (fun q => q ++ extra) s, Ok tt).
Proof.
  unfold _process_dependent_tasks.
  destruct (dependents_loop_spec X (tasks s) s) as (extra & Hrun & _).
  now exists extra.
Qed.

Lemma completed_with_drain X res s :
  completed_with X res s -> completed_with X res (fst (_process_task_queue s)).
Proof.
  apply process_task_queue_preserves with (I := completed_with X res).
  - intros s0 c o H. exact H.
  - intros s0 st H. exact H.
  - intros s0 tid task agent (t & Hg & Hs & Hr) Hg' Hp _.
    apply get_task_Some in Hg' as Hid. destruct Hid as [_ Hid].
    exists t. split; [|auto].
    cbn [tasks assigned_state with_agents with_tasks].
    rewrite get_task_update by reflexivity. rewrite Hid.
    destruct (String.eqb_spec tid X) as [->|]; [|assumption].
    rewrite Hg in Hg'. injection Hg' as <-. congruence.
  - intros s0 tid q H _. exact H.
Qed.

(** X9.  When [complete_task(X, result)] returns [True], [X] is
    registered as Completed with that result once the call is over (the
    drain that ends the call does not touch it), and completing or failing
    [X] again returns [False] and changes nothing: a task is completed at
    most once. *)
Theorem complete_task_is_final :
  forall (s s' : WorkforceManager) (X : string) (res : PyVal),
    complete_task X res s = (s', Ok true) ->
    completed_with X res s' /\
    (forall r, complete_task X r s' = (s', Ok false)) /\
    (forall r, fail_task X r s' = (s', Ok false)).
Proof.
  intros s s' X res Hrun.
  assert (Hc : completed_with X res s').
  { revert Hrun. unfold complete_task.
    destruct (get_task X (tasks s)) as [task|] eqn:Hg; [|discriminate].
    destruct (negb (status_eqb (status task) IN_PROGRESS)); [discriminate|].
    unfold bind at 1. cbn [modify]. set (s1 := with_tasks _ s).
    assert (H1 : completed_with X res s1).
    { subst s1. unfold completed_with. cbn [tasks with_tasks].
      rewrite get_task_update by reflexivity.
      rewrite String.eqb_refl, Hg. cbn [option_map].
      eexists. split; [reflexivity|]. split; reflexivity. }
    pose proof (release_agent_frame (assigned_agent task) X true s1) as Hf.
    cbv zeta in Hf. destruct Hf as (Ht & _).
    unfold bind at 1.
    destruct (release_agent (assigned_agent task) X true s1) as [s2 [u|e]];
      [|discriminate].
    cbn [fst] in Ht.
    unfold bind at 1. rewrite emit_event_spec.
    set (s3 := with_bus_effects _ _ s2).
    unfold bind at 1.
    destruct (process_dependent_tasks_frame X s3) as (extra & ->).
    set (s4 := with_queue _ s3).
    assert (H4 : completed_with X res s4).
    { unfold completed_with. subst s4 s3.
      cbn [tasks with_queue with_bus_effects]. rewrite Ht. exact H1. }
    pose proof (completed_with_drain H4) as H5.
    unfold bind. destruct (_process_task_queue s4) as [s5 [u5|e5]];
      [|discriminate].
    unfold ret. intros H. injection H as <-. exact H5. }
  split; [exact Hc|].
  destruct Hc as (t & Hg & Hs & _).
  split; intros r; [unfold complete_task | unfold fail_task];
    rewrite Hg, Hs; reflexivity.
Qed.

Lemma complete_task_is_final_witness :
  completed_with "t1" (VStr "done")
    (fst (complete_task "t1" (VStr "done") Scenario.one_waiting)).
Proof.
  apply (@complete_task_is_final Scenario.one_waiting
           (fst (complete_task "t1" (VStr "done") Scenario.one_waiting))
           "t1" (VStr "done")).
  vm_compute. reflexivity.
Defined.

(** ** The queue after a pass *)

Lemma drain_loop_evolves q : forall p s s' r,
  drain_loop q p s = (s', r) -> evolves s s'.
Proof.
  induction q as [|tid q IH]; intros p s s' r; cbn [drain_loop].
  - unfold ret. intros H. injection H as <- _. apply evolves_refl.
  - destruct (get_task tid (tasks s)) as [task|] eqn:Eg.
    2: { intros H. injection H as <- _. apply evolves_refl. }
    destruct (status_eqb (status task) PENDING) eqn:Es; cbn [negb].
    2: { apply IH. }
    apply status_eqb_eq in Es.
    destruct (assign_task (strategy s) task (_get_available_agents s))
      as [st' [agent|]] eqn:Ea.
    + assert (Est : st' = fst (assign_task (strategy s) task
                                 (_get_available_agents s)))
        by now rewrite Ea.
      unfold bind at 1.
      destruct (assign_task_to_agent_spec task agent (with_strategy st' s))
        as (c & o & ->).
      intros H. apply IH in H.
      eapply evolves_trans; [|exact H].
      subst st'. eapply evolves_trans; [apply evolves_strategy|].
      eapply evolves_trans; [|apply evolves_bus].
      apply evolves_assigned with (tid := tid); assumption.
    + assert (Est : st' = fst (assign_task (strategy s) task
                                 (_get_available_agents s)))
        by now rewrite Ea.
      intros H. apply IH in H.
      eapply evolves_trans; [|exact H]. subst st'. apply evolves_strategy.
Qed.

Lemma evolves_no_eligible s s' t :
  evolves s s' -> has_eligible_agent s t = false ->
  has_eligible_agent s' t = false.
Proof.
  intros (_ & _ & El) H. destruct (has_eligible_agent s' t) eqn:E;
    [|reflexivity].
  apply El in E. congruence.
Qed.

(** A Pending task for which no agent is eligible is not touched by
    the loop. *)
Lemma drain_loop_keeps_unassignable q : forall p s s' p' tid t,
  drain_loop q p s = (s', Ok p') ->
  get_task tid (tasks s) = Some t -> status t = PENDING ->
  has_eligible_agent s t = false ->
  get_task tid (tasks s') = Some t.
Proof.
  induction q as [|hd q IH]; intros p s s' p' tid t; cbn [drain_loop].
  - unfold ret. intros H. injection H as <- _. auto.
  - destruct (get_task hd (tasks s)) as [task|] eqn:Eg; [|discriminate].
    destruct (status_eqb (status task) PENDING) eqn:Es; cbn [negb].
    2: { apply IH. }
    apply status_eqb_eq in Es.
    destruct (assign_task (strategy s) task (_get_available_agents s))
      as [st' [agent|]] eqn:Ea.
    + assert (Est : st' = fst (assign_task (strategy s) task
                                 (_get_available_agents s)))
        by now rewrite Ea.
      unfold bind at 1.
      destruct (assign_task_to_agent_spec task agent (with_strategy st' s))
        as (c & o & ->).
      intros Hrun Hg Hp Hno.
      assert (Hne : hd <> tid).
      { intros ->. rewrite Eg in Hg. injection Hg as ->.
        apply assign_task_none_iff in Hno. rewrite Ea in Hno. discriminate. }
      assert (Hev : evolves s (with_bus_effects c o
                       (assigned_state task agent (with_strategy st' s)))).
      { subst st'. eapply evolves_trans; [apply evolves_strategy|].
        eapply evolves_trans; [|apply evolves_bus].
        apply evolves_assigned with (tid := hd); assumption. }
      apply (IH _ _ _ _ _ _ Hrun); auto.
      * cbn [tasks with_bus_effects assigned_state with_agents with_tasks
             with_strategy].
        rewrite get_task_update by reflexivity.
        apply get_task_Some in Eg as [_ Hid]. rewrite Hid.
        destruct (String.eqb_spec hd tid); [congruence | assumption].
      * now apply (@evolves_no_eligible _ _ _ Hev).
    + assert (Est : st' = fst (assign_task (strategy s) task
                                 (_get_available_agents s)))
        by now rewrite Ea.
      intros Hrun Hg Hp Hno.
      apply (IH _ _ _ _ _ _ Hrun); auto.
      apply (@evolves_no_eligible s); [|assumption].
      subst st'. apply evolves_strategy.
Qed.

(** The ids the loop marks as processed are exactly the queued ids that
    are not Pending once the loop is over. *)
Lemma drain_loop_processed q : forall p s s' p',
  drain_loop q p s = (s', Ok p') ->
  p' = p ++ filter (fun tid => negb (pending_in s' tid)) q.
Proof.
  induction q as [|hd q IH]; intros p s s' p'; cbn [drain_loop filter].
  - unfold ret. intros H. injection H as _ <-. now rewrite app_nil_r.
  - destruct (get_task hd (tasks s)) as [task|] eqn:Eg; [|discriminate].
    destruct (status_eqb (status task) PENDING) eqn:Es; cbn [negb].
    + apply status_eqb_eq in Es.
      destruct (assign_task (strategy s) task (_get_available_agents s))
        as [st' [agent|]] eqn:Ea.
      * unfold bind at 1.
        destruct (assign_task_to_agent_spec task agent (with_strategy st' s))
          as (c & o & ->).
        set (s2 := with_bus_effects c o _).
        intros Hrun. pose proof (IH _ _ _ _ Hrun) as ->.
        assert (Hg2 : get_task hd (tasks s2)
                      = Some (set_status IN_PROGRESS
                                (set_assigned_agent (Some (agent_id agent))
                                   task))).
        { subst s2. cbn [tasks with_bus_effects assigned_state with_agents
                         with_tasks with_strategy].
          rewrite get_task_update by reflexivity.
          apply get_task_Some in Eg as Hid. destruct Hid as [_ Hid].
          now rewrite Hid, String.eqb_refl, Eg. }
        apply drain_loop_evolves in Hrun.
        destruct Hrun as (_ & T & _). destruct (T _ _ Hg2) as (t' & Hg' & H').
        assert (Hnp : pending_in s' hd = false).
        { unfold pending_in. rewrite Hg'.
          destruct H' as [->|(Hp & _)]; [reflexivity | discriminate]. }
        rewrite Hnp. cbn [negb]. now rewrite <- app_assoc.
      * intros Hrun. pose proof (IH _ _ _ _ Hrun) as ->.
        assert (Hno : has_eligible_agent s task = false)
          by (apply assign_task_none_iff; now rewrite Ea).
        assert (Hg' : get_task hd (tasks s') = Some task).
        { eapply drain_loop_keeps_unassignable; [exact Hrun| | |]; auto.
          apply (@evolves_no_eligible s); [|assumption].
          replace st' with (fst (assign_task (strategy s) task
                                   (_get_available_agents s)))
            by now rewrite Ea.
          apply evolves_strategy. }
        assert (Hpd : pending_in s' hd = true)
          by (unfold pending_in; rewrite Hg', Es; reflexivity).
        rewrite Hpd. reflexivity.
    + intros Hrun. pose proof (IH _ _ _ _ Hrun) as ->.
      apply drain_loop_evolves in Hrun.
      destruct Hrun as (_ & T & _). destruct (T _ _ Eg) as (t' & Hg' & H').
      assert (Hnp : pending_in s' hd = false).
      { unfold pending_in. rewrite Hg'.
        destruct H' as [->|(Hp & _)]; [assumption|].
        apply status_eqb_neq in Es. contradiction. }
      rewrite Hnp. cbn [negb]. now rewrite <- app_assoc.
Qed.

Lemma with_queue_const q s :
  task_queue s = q -> with_queue (fun _ => q) s = s.
Proof. intros <-. apply with_queue_id. Qed.

(** Removing, one by one, the queued ids that satisfy [P] leaves the
    others in their order. *)
Lemma dequeue_filtered (P : string -> bool) q : forall pre s,
  task_queue s = pre ++ q ->
  (forall x, In x pre -> P x = false) ->
  for_each (filter P q) queue_remove s =
  (with_queue (fun _ => pre ++ filter (fun x => negb (P x)) q) s, Ok tt).
Proof.
  induction q as [|x q IH]; intros pre s Hq Hpre; cbn [filter for_each].
  - unfold ret. now rewrite with_queue_const.
  - destruct (P x) eqn:Ex; cbn [negb for_each].
    + assert (Hn : ~ In x pre)
        by (intros Hin; apply Hpre in Hin; congruence).
      unfold bind, queue_remove at 1.
      rewrite Hq, (@list_remove_middle x pre q Hn).
      rewrite (IH pre); [reflexivity | reflexivity | assumption].
    + rewrite (IH (pre ++ [x])).
      * now rewrite <- app_assoc.
      * now rewrite <- app_assoc.
      * intros y Hy. apply in_app_or in Hy as [Hy|[<-|[]]]; auto.
Qed.

Lemma process_task_queue_filter :
  forall s : WorkforceManager,
    queue_registered s ->
    exists s',
      _process_task_queue s = (s', Ok tt) /\
      task_queue s' = filter (pending_in s') (task_queue s) /\
      (forall tid t, In tid (task_queue s') ->
         get_task tid (tasks s') = Some t ->
         has_eligible_agent s' t = false) /\
      (forall tid t, get_task tid (tasks s) = Some t ->
         exists t', get_task tid (tasks s') = Some t' /\
           (t' = t \/
            (status t = PENDING /\
             exists aid,
               t' = set_status IN_PROGRESS
                      (set_assigned_agent (Some aid) t)))).
Proof.
  intros s Hq. unfold _process_task_queue, bind.
  destruct (drain_loop_spec (task_queue s) [] s Hq)
    as (s1 & p' & Hrun & Hev & _ & _ & Hel).
  rewrite Hrun. cbn [app] in *.
  pose proof (@drain_loop_processed _ _ _ _ _ Hrun) as Hp. cbn [app] in Hp.
  assert (Hqs : task_queue s1 = task_queue s) by (destruct Hev; assumption).
  rewrite Hp.
  rewrite (@dequeue_filtered (fun tid => negb (pending_in s1 tid))
             (task_queue s) [] s1); [|now rewrite Hqs|intros x []].
  eexists. split; [reflexivity|].
  cbn [task_queue tasks with_queue app].
  assert (Hf : filter (fun x => negb (negb (pending_in s1 x))) (task_queue s)
               = filter (pending_in s1) (task_queue s)).
  { apply filter_ext. intros x. apply negb_involutive. }
  rewrite Hf. split; [reflexivity|]. split.
  - intros tid t Hin Hg. apply filter_In in Hin as [Hin Hpend].
    unfold pending_in in Hpend. cbn [tasks with_queue] in Hpend.
    rewrite Hg in Hpend. apply status_eqb_eq in Hpend.
    destruct (get_task tid (tasks s)) as [t0|] eqn:Hg0.
    + pose proof (@evolves_pending_same _ _ _ _ _ Hev Hg0 Hg Hpend) as ->.
      exact (Hel tid t0 Hin Hg0 t0 Hg Hpend).
    + exfalso. exact (Hq tid Hin Hg0).
  - destruct Hev as (_ & T & _). exact T.
Qed.

(** X10.  One call of [_process_task_queue], in a manager whose queued
    ids are registered, returns normally and leaves in the queue exactly
    the queued ids that are still Pending, in their order; for each of
    them no agent is eligible any more.  Every other task is either
    untouched or went from Pending to InProgress with an agent recorded. *)
Theorem process_task_queue_result :
  forall s : WorkforceManager,
    queue_registered s ->
    exists s',
      _process_task_queue s = (s', Ok tt) /\
      task_queue s' = filter (pending_in s') (task_queue s) /\
      (forall tid t, In tid (task_queue s') ->
         get_task tid (tasks s') = Some t ->
         has_eligible_agent s' t = false) /\
      (forall tid t, get_task tid (tasks s) = Some t ->
         exists t', get_task tid (tasks s') = Some t' /\
           (t' = t \/
            (status t = PENDING /\
             exists aid,
               t' = set_status IN_PROGRESS
                      (set_assigned_agent (Some aid) t)))).
Proof. exact process_task_queue_filter. Qed.

Lemma process_task_queue_result_witness :
  exists s',
    _process_task_queue Scenario.one_waiting = (s', Ok tt) /\
    task_queue s' = filter (pending_in s') (task_queue Scenario.one_waiting).
Proof.
  destruct (@process_task_queue_result Scenario.one_waiting)
    as (s' & Hrun & Hq & _).
  - intros tid [<-|[]]. vm_compute. discriminate.
  - exists s'. split; assumption.
Defined.

Lemma dequeue_loop_frame p : forall s s' r,
  for_each p queue_remove s = (s', r) ->
  tasks s' = tasks s /\ agents s' = agents s /\ strategy s' = strategy s.
Proof.
  induction p as [|x p IH]; intros s s' r; cbn [for_each].
  - unfold ret. intros H. injection H as <- _. auto.
  - unfold bind, queue_remove at 1.
    destruct (list_remove x (task_queue s)) as [q|].
    + intros H. apply IH in H. exact H.
    + intros H. injection H as <- _. auto.
Qed.

Lemma queue_head_gets_pick :
  forall (s : WorkforceManager) (tid : string) (rest : list string)
         (task : Task),
    queue_registered s ->
    task_queue s = tid :: rest ->
    get_task tid (tasks s) = Some task ->
    status task = PENDING ->
    has_eligible_agent s task = true ->
    exists s' agent,
      _process_task_queue s = (s', Ok tt) /\
      snd (assign_task (strategy s) task (_get_available_agents s))
        = Some agent /\
      get_task tid (tasks s') =
        Some (set_status IN_PROGRESS
                (set_assigned_agent (Some (agent_id agent)) task)) /\
      ~ In tid (task_queue s').
Proof.
  intros s tid rest task Hq Hqueue Hg Hp Hel.
  destruct (process_task_queue_filter Hq) as (s' & Hrun & Hfil & _ & _).
  destruct (assign_task (strategy s) task (_get_available_agents s))
    as [st' [agent|]] eqn:Ea.
  2: { exfalso.
       assert (Hn : has_eligible_agent s task = false)
         by (apply assign_task_none_iff; now rewrite Ea).
       congruence. }
  exists s', agent. split; [exact Hrun|]. split; [reflexivity|].
  assert (Hfinal : get_task tid (tasks s') =
                   Some (set_status IN_PROGRESS
                           (set_assigned_agent (Some (agent_id agent)) task))).
  { revert Hrun. unfold _process_task_queue, bind. rewrite Hqueue.
    cbn [drain_loop]. rewrite Hg, Hp. cbn [status_eqb negb]. rewrite Ea.
    unfold bind at 1.
    destruct (assign_task_to_agent_spec task agent (with_strategy st' s))
      as (c & o & ->).
    set (s2 := with_bus_effects c o _).
    assert (Hg2 : get_task tid (tasks s2)
                  = Some (set_status IN_PROGRESS
                            (set_assigned_agent (Some (agent_id agent)) task))).
    { subst s2. cbn [tasks with_bus_effects assigned_state with_agents
                     with_tasks with_strategy].
      rewrite get_task_update by reflexivity.
      apply get_task_Some in Hg as Hid. destruct Hid as [_ Hid].
      now rewrite Hid, String.eqb_refl, Hg. }
    destruct (drain_loop rest ([] ++ [tid]) s2) as [s1 [p'|e]] eqn:Ed;
      [|discriminate].
    apply drain_loop_evolves in Ed.
    intros Hde. apply dequeue_loop_frame in Hde as (Ht & _).
    rewrite Ht.
    destruct Ed as (_ & T & _). destruct (T _ _ Hg2) as (t' & Hg' & H').
    rewrite Hg'. destruct H' as [->|(Hp' & _)]; [reflexivity|discriminate]. }
  split; [exact Hfinal|].
  rewrite Hfil. intros Hin. apply filter_In in Hin as [_ Hpend].
  unfold pending_in in Hpend. rewrite Hfinal in Hpend. discriminate.
Qed.

(** X11.  The queue is served in order: if the id at the head of the
    queue is a Pending task for which some agent is eligible, one call of
    [_process_task_queue] gives it the agent the strategy picks in the
    state before the call, whatever else is queued behind it; it is
    InProgress and out of the queue afterwards. *)
Theorem queue_head_served_first :
  forall (s : WorkforceManager) (tid : string) (rest : list string)
         (task : Task),
    queue_registered s ->
    task_queue s = tid :: rest ->
    get_task tid (tasks s) = Some task ->
    status task = PENDING ->
    has_eligible_agent s task = true ->
    exists s' agent,
      _process_task_queue s = (s', Ok tt) /\
      snd (assign_task (strategy s) task (_get_available_agents s))
        = Some agent /\
      get_task tid (tasks s') =
        Some (set_status IN_PROGRESS
                (set_assigned_agent (Some (agent_id agent)) task)) /\
      ~ In tid (task_queue s').
Proof. exact queue_head_gets_pick. Qed.

Lemma queue_head_served_first_witness :
  exists s' agent,
    _process_task_queue (fst (fail_task "t1" VNone Scenario.one_waiting))
      = (s', Ok tt) /\
    snd (assign_task
           (strategy (fst (fail_task "t1" VNone Scenario.one_waiting)))
           (Scenario.task "t2" ["x"] [])
           (_get_available_agents
              (fst (fail_task "t1" VNone Scenario.one_waiting))))
      = Some agent /\
    get_task "t2" (tasks s') =
      Some (set_status IN_PROGRESS
              (set_assigned_agent (Some (agent_id agent))
                 (Scenario.task "t2" ["x"] []))) /\
    ~ In "t2" (task_queue s').
Proof.
  apply (@queue_head_served_first
           (fst (fail_task "t1" VNone Scenario.one_waiting)) "t2" []
           (Scenario.task "t2" ["x"] [])).
  - intros tid Hin. vm_compute in Hin. destruct Hin as [<-|[]].
    vm_compute. discriminate.
  - vm_compute. reflexivity.
  - vm_compute. reflexivity.
  - reflexivity.
  - vm_compute. reflexivity.
Defined.

(** ** The dependents scan *)

Lemma dependents_loop_exact X l : forall s,
  exists extra,
    for_each l
      (fun task s' =>
         if mem X (dependencies task)
            && status_eqb (status task) PENDING
            && negb (mem (task_id task) (task_queue s'))
         then
           if all_deps_completed (tasks s') task
           then (with_queue (fun q => q ++ [task_id task]) s', Ok tt)
           else (s', Ok tt)
         else (s', Ok tt)) s
    = (with_queue (fun q => q ++ extra) s, Ok tt) /\
    NoDup extra /\
    (forall x, In x extra ->
       ~ In x (task_queue s) /\
       exists t, In t l /\ task_id t = x /\ In X (dependencies t) /\
                 status t = PENDING /\
                 all_deps_completed (tasks s) t = true).
Proof.
  induction l as [|t l IH]; intros s; cbn [for_each].
  - exists []. rewrite with_queue_app_nil. split; [reflexivity|].
    split; [constructor | intros x []].
  - unfold bind at 1.
    destruct (mem X (dependencies t) && status_eqb (status t) PENDING
              && negb (mem (task_id t) (task_queue s))) eqn:Ec;
      [destruct (all_deps_completed (tasks s) t) eqn:Ed|].
    + apply andb_true_iff in Ec as [Ec Hnq].
      apply andb_true_iff in Ec as [HX Hp].
      apply mem_In in HX. apply status_eqb_eq in Hp.
      apply negb_true_iff, mem_false in Hnq.
      destruct (IH (with_queue (fun q => q ++ [task_id t]) s))
        as (extra & Hrun & Hnd & Hex).
      exists (task_id t :: extra). rewrite Hrun. split.
      { f_equal. destruct s. unfold with_queue. cbn.
        now rewrite <- app_assoc. }
      split.
      * constructor; [|assumption]. intros Hin.
        destruct (Hex _ Hin) as [Hn _]. apply Hn.
        cbn [task_queue with_queue]. apply in_or_app. right. now left.
      * intros x [<-|Hx].
        -- split; [assumption|]. exists t. repeat split; auto. now left.
        -- destruct (Hex x Hx) as (Hn & t0 & H0 & E0 & H1 & H2 & H3).
           cbn [task_queue tasks with_queue] in *. split.
           ++ intros Hin. apply Hn. apply in_or_app. now left.
           ++ exists t0. repeat split; auto. now right.
    + destruct (IH s) as (extra & Hrun & Hnd & Hex).
      exists extra. rewrite Hrun. split; [reflexivity|]. split; [assumption|].
      intros x Hx. destruct (Hex x Hx) as (Hn & t0 & H0 & Hrest).
      split; [assumption|]. exists t0. split; [now right | assumption].
    + destruct (IH s) as (extra & Hrun & Hnd & Hex).
      exists extra. rewrite Hrun. split; [reflexivity|]. split; [assumption|].
      intros x Hx. destruct (Hex x Hx) as (Hn & t0 & H0 & Hrest).
      split; [assumption|]. exists t0. split; [now right | assumption].
Qed.

Lemma all_deps_completed_iff ts t :
  all_deps_completed ts t = true <->
  (forall d td, In d (dependencies t) -> get_task d ts = Some td ->
                status td = COMPLETED).
Proof.
  unfold all_deps_completed. rewrite forallb_forall. split.
  - intros H d td Hd Hg. specialize (H d Hd). rewrite Hg in H.
    now apply status_eqb_eq.
  - intros H d Hd. destruct (get_task d ts) as [td|] eqn:Hg; [|reflexivity].
    apply status_eqb_eq. now apply (H d td).
Qed.

(** X12.  [_process_dependent_tasks(X)] always returns and only appends
    to the queue.  The ids it appends are distinct, were not queued, and
    each belongs to a Pending registry task that lists [X] and none of
    whose registered dependencies is other than Completed; conversely
    every such task is in the queue afterwards.  A dependency that is not
    registered at all does not hold a dependent back here, unlike in
    [submit_task]. *)
Theorem process_dependent_tasks_appends :
  forall (s : WorkforceManager) (X : string),
    exists extra,
      _process_dependent_tasks X s
        = (with_queue (fun q => q ++ extra) s, Ok tt) /\
      NoDup extra /\
      (forall x, In x extra ->
         ~ In x (task_queue s) /\
         exists t, In t (tasks s) /\ task_id t = x /\
                   In X (dependencies t) /\ status t = PENDING /\
                   (forall d td, In d (dependencies t) ->
                      get_task d (tasks s) = Some td ->
                      status td = COMPLETED)) /\
      (forall t, In t (tasks s) -> In X (dependencies t) ->
         status t = PENDING ->
         (forall d td, In d (dependencies t) ->
            get_task d (tasks s) = Some td -> status td = COMPLETED) ->
         In (task_id t) (task_queue s ++ extra)).
Proof.
  intros s X. unfold _process_dependent_tasks.
  destruct (dependents_loop_exact X (tasks s) s) as (extra & Hrun & Hnd & Hex).
  destruct (dependents_loop_spec X (tasks s) s) as (extra' & Hrun' & _ & Hin').
  rewrite Hrun in Hrun'.
  assert (E : extra' = extra).
  { injection Hrun' as Hq. apply app_inv_head in Hq. congruence. }
  subst extra'.
  exists extra. split; [exact Hrun|]. split; [assumption|]. split.
  - intros x Hx. destruct (Hex x Hx) as (Hn & t & Ht & Hid & HX & Hp & Hd).
    split; [assumption|]. exists t. repeat split; auto.
    now apply all_deps_completed_iff.
  - intros t Ht HX Hp Hd. apply Hin'; auto.
    now apply all_deps_completed_iff.
Qed.

(** ** Cancelled is never produced *)

Lemma no_task_cancelled_step s c :
  no_task_cancelled s -> submits_not_cancelled c ->
  no_task_cancelled (step s c).
Proof.
  apply step_preserves
    with (ok := fun _ => submits_not_cancelled) (J := fun _ _ => True);
    unfold no_task_cancelled; try (intros; assumption); try (intros; exact I).
  - intros s0 t H Hok. cbn [tasks with_queue with_tasks].
    now apply Forall_put_task.
  - intros s0 tid task agent H Hg Hs _.
    cbn [tasks assigned_state with_agents with_tasks].
    apply get_task_Some in Hg as Hg'. destruct Hg' as [_ <-].
    apply Forall_update_task with (t0 := task); auto. cbn. discriminate.
  - intros s0 tid task res H Hg Hs. cbn [tasks with_tasks].
    apply Forall_update_task with (t0 := task); auto. cbn. discriminate.
  - intros s0 tid task reason H Hg Hs. cbn [tasks with_tasks].
    apply Forall_update_task with (t0 := task); auto. cbn. discriminate.
  - intros s0 aid agent tid H _ _ _. split; [|exact I].
    destruct (reassign_task_cases tid s0)
      as [->|(task & Hg & [->|(a & ag & l & _ & _ & ->)])];
      [assumption| |];
      cbn [tasks requeued_state with_queue with_tasks with_agents];
      (apply Forall_update_task with (t0 := task); auto; cbn; discriminate).
Qed.

(** X13.  No public call ever sets a task to Cancelled: in every state
    reached from a new manager by calls that do not themselves submit a
    Cancelled task object, no registered task is Cancelled. *)
Theorem cancelled_never_produced :
  forall (st : WorkforceStrategy) (cs : list Call),
    Forall submits_not_cancelled cs ->
    forall t, In t (tasks (run (new_manager st) cs)) ->
              status t <> CANCELLED.
Proof.
  intros st cs Hcs.
  assert (H : no_task_cancelled (run (new_manager st) cs)).
  { apply run_invariant with (ok := fun _ => submits_not_cancelled).
    - intros s c. apply no_task_cancelled_step.
    - constructor.
    - now apply admissible_Forall. }
  intros t Hin. exact (proj1 (Forall_forall _ _) H t Hin).
Qed.

Lemma cancelled_never_produced_witness :
  status (mkTask "t1" "t1" ["x"] 1 FAILED (Some "a1") VNone []
            [("failure_reason", VNone)]) <> CANCELLED.
Proof.
  apply (@cancelled_never_produced CapabilityBasedStrategy
           [RegisterAgent (Scenario.agent "a1" ["x"] 1);
            SubmitTask (Scenario.task "t1" ["x"] []);
            FailTask "t1" VNone]).
  - repeat constructor; cbn; discriminate.
  - vm_compute. now left.
Defined.

(** ** Status counts *)

Lemma status_counts_partition ts :
  (count_status PENDING ts + count_status IN_PROGRESS ts
   + count_status COMPLETED ts + count_status FAILED ts
   + count_status CANCELLED ts = length ts)%nat.
Proof.
  unfold count_status. induction ts as [|t ts IH]; [reflexivity|].
  cbn [filter length]. destruct (status t); cbn [status_eqb length]; lia.
Qed.

Lemma count_status_zero st ts :
  Forall (fun t => status t <> st) ts -> count_status st ts = 0%nat.
Proof.
  unfold count_status. induction 1 as [|t ts Ht _ IH]; [reflexivity|].
  cbn [filter]. destruct (status_eqb (status t) st) eqn:E; [|assumption].
  apply status_eqb_eq in E. contradiction.
Qed.

(** X14.  In every state reached from a new manager by calls that do not
    submit a Cancelled task object, the four per-status counts reported by
    [get_workforce_status] add up to [total_tasks]; [active_agents] never
    exceeds [total_agents], and [queue_length] is the length of the queue. *)
Theorem workforce_status_counts :
  forall (st : WorkforceStrategy) (cs : list Call),
    Forall submits_not_cancelled cs ->
    let d := get_workforce_status (run (new_manager st) cs) in
    exists total pending in_progress completed failed agents_n active,
      dict_get "total_tasks" d = Some total /\
      dict_get "pending_tasks" d = Some pending /\
      dict_get "in_progress_tasks" d = Some in_progress /\
      dict_get "completed_tasks" d = Some completed /\
      dict_get "failed_tasks" d = Some failed /\
      dict_get "total_agents" d = Some agents_n /\
      dict_get "active_agents" d = Some active /\
      dict_get "queue_length" d
        = Some (length (task_queue (run (new_manager st) cs))) /\
      (pending + in_progress + completed + failed = total)%nat /\
      (active <= agents_n)%nat.
Proof.
  intros st cs Hcs d. subst d. unfold get_workforce_status.
  do 7 eexists. cbn [dict_get String.eqb Ascii.eqb Bool.eqb].
  repeat (split; [reflexivity|]). split.
  - assert (H : no_task_cancelled (run (new_manager st) cs)).
    { apply run_invariant with (ok := fun _ => submits_not_cancelled).
      - intros s c. apply no_task_cancelled_step.
      - constructor.
      - now apply admissible_Forall. }
    pose proof (status_counts_partition (tasks (run (new_manager st) cs))).
    rewrite (count_status_zero H) in H0. lia.
  - apply filter_length_le.
Qed.

Lemma workforce_status_counts_witness :
  exists total pending in_progress completed failed agents_n active,
    dict_get "total_tasks" (get_workforce_status Scenario.one_waiting)
      = Some total /\
    dict_get "pending_tasks" (get_workforce_status Scenario.one_waiting)
      = Some pending /\
    dict_get "in_progress_tasks" (get_workforce_status Scenario.one_waiting)
      = Some in_progress /\
    dict_get "completed_tasks" (get_workforce_status Scenario.one_waiting)
      = Some completed /\
    dict_get "failed_tasks" (get_workforce_status Scenario.one_waiting)
      = Some failed /\
    dict_get "total_agents" (get_workforce_status Scenario.one_waiting)
      = Some agents_n /\
    dict_get "active_agents" (get_workforce_status Scenario.one_waiting)
      = Some active /\
    dict_get "queue_length" (get_workforce_status Scenario.one_waiting)
      = Some (length (task_queue Scenario.one_waiting)) /\
    (pending + in_progress + completed + failed = total)%nat /\
    (active <= agents_n)%nat.
Proof.
  apply (@workforce_status_counts CapabilityBasedStrategy
           [RegisterAgent (Scenario.agent "a1" ["x"] 1);
            SubmitTask (Scenario.task "t1" ["x"] []);
            SubmitTask (Scenario.task "t2" ["x"] [])]).
  repeat constructor; cbn; discriminate.
Defined.

(** ** Agent ids are distinct; workload report *)

Lemma agent_ids_distinct_step s c :
  agent_ids_distinct s -> agent_ids_distinct (step s c).
Proof.
  intros H. revert H.
  assert (Hgo : agent_ids_distinct s -> True -> agent_ids_distinct (step s c));
    [|intros H; now apply Hgo].
  apply step_preserves with (ok := fun _ _ => True) (J := fun _ _ => True);
    unfold agent_ids_distinct; try (intros; assumption);
    try (intros; exact I).
  - intros s0 a Hnd _. cbn [agents with_agents]. unfold put_agent.
    destruct (get_agent (agent_id a) (agents s0)) as [a0|] eqn:Eg.
    + rewrite map_agent_id_update; auto.
    + rewrite map_app. cbn [map].
      apply NoDup_app; [assumption | repeat constructor; intros [] | ].
      intros x Hx [<-|[]]. now apply get_agent_None_notin in Eg.
  - intros s0 tid task agent Hnd _ _ _.
    cbn [agents assigned_state with_agents with_tasks].
    rewrite map_agent_id_update; [assumption | now intros a <-].
  - intros s0 aid agent tid l m Hnd _ _. cbn [agents with_agents].
    rewrite map_agent_id_update; [assumption | now intros a <-].
  - intros s0 aid agent tid Hnd _ _ _. split; [|exact I].
    destruct (reassign_task_cases tid s0)
      as [->|(task & Hg & [->|(a & ag & l & Hag & Hl & ->)])];
      [assumption|assumption|].
    cbn [agents requeued_state with_queue with_tasks with_agents].
    rewrite map_agent_id_update; [assumption | now intros x <-].
  - intros s0 aid Hnd. unfold del_agent. cbn [agents with_agents].
    now apply NoDup_map_filter.
Qed.

Lemma agent_ids_distinct_run st cs :
  agent_ids_distinct (run (new_manager st) cs).
Proof.
  apply run_invariant
    with (I := agent_ids_distinct) (ok := fun _ _ => True).
  - intros s c H _. now apply agent_ids_distinct_step.
  - constructor.
  - clear. generalize (new_manager st).
    induction cs; intros s; cbn [admissible]; auto.
Qed.

Lemma dict_get_set V k k' (v : V) d :
  dict_get k' (dict_set k v d) =
  if String.eqb k k' then Some v else dict_get k' d.
Proof.
  destruct (String.eqb_spec k k') as [->|Hne].
  - apply dict_get_set_same.
  - now apply dict_get_set_other.
Qed.

Lemma dict_keys_set V k (v : V) d :
  map fst (dict_set k v d) =
  if dict_mem k d then map fst d else map fst d ++ [k].
Proof.
  unfold dict_mem. induction d as [|[k0 v0] d IH]; cbn [dict_set dict_get map fst app].
  - reflexivity.
  - destruct (String.eqb_spec k0 k) as [->|Hne]; cbn [map fst].
    + reflexivity.
    + rewrite IH. now destruct (dict_get k d).
Qed.

Lemma workload_loop_zero l : forall w,
  existsb (fun a => Z.eqb (max_concurrent_tasks a) 0) l = true ->
  workload_loop l w = ZeroDivisionError.
Proof.
  induction l as [|a l IH]; intros w; cbn [existsb workload_loop];
    [discriminate|].
  destruct (Z.eqb (max_concurrent_tasks a) 0); cbn [orb]; [reflexivity|].
  apply IH.
Qed.

Lemma workload_loop_ok l : forall w,
  existsb (fun a => Z.eqb (max_concurrent_tasks a) 0) l = false ->
  NoDup (map agent_id l) ->
  (forall a, In a l -> dict_get (agent_id a) w = None) ->
  exists w',
    workload_loop l w = Workloads w' /\
    map fst w' = map fst w ++ map agent_id l /\
    (forall a, In a l -> dict_get (agent_id a) w' = Some (workload_info a)) /\
    (forall k, ~ In k (map agent_id l) -> dict_get k w' = dict_get k w).
Proof.
  induction l as [|a l IH]; intros w Hz Hnd Hfresh;
    cbn [existsb workload_loop map] in *.
  - exists w. rewrite app_nil_r. repeat split; auto. intros a [].
  - apply orb_false_iff in Hz as [Hz Hzl]. rewrite Hz.
    inversion Hnd as [|x xs Hnot Hnd']; subst.
    fold (workload_info a).
    destruct (IH (dict_set (agent_id a) (workload_info a) w))
      as (w' & Hrun & Hkeys & Hget & Hother); auto.
    { intros b Hb. rewrite dict_get_set.
      destruct (String.eqb_spec (agent_id a) (agent_id b)) as [E|E].
      - exfalso. apply Hnot. rewrite E. now apply in_map.
      - apply Hfresh. now right. }
    exists w'. split; [exact Hrun|]. split; [|split].
    + rewrite Hkeys, dict_keys_set. unfold dict_mem.
      rewrite (Hfresh a (or_introl eq_refl)).
      now rewrite <- app_assoc.
    + intros b [<-|Hb]; [|now apply Hget].
      rewrite Hother by assumption. apply dict_get_set_same.
    + intros k Hk. rewrite Hother; [|intros Hin; apply Hk; now right].
      rewrite dict_get_set_other; [reflexivity|].
      intros E. apply Hk. now left.
Qed.


Lemma utilization_bounds (n : nat) (m : Z) :
  (1 <= m)%Z -> (Z.of_nat n <= m)%Z ->
  0 <= inject_Z (Z.of_nat n) / inject_Z m /\
  inject_Z (Z.of_nat n) / inject_Z m <= 1.
Proof.
  intros Hm Hn.
  assert (Hpos : 0 < inject_Z m)
    by (change 0 with (inject_Z 0); rewrite <- Zlt_Qlt; lia).
  split.
  - apply Qle_shift_div_l; [assumption|]. rewrite Qmult_0_l.
    change 0 with (inject_Z 0). rewrite <- Zle_Qle. lia.
  - apply Qle_shift_div_r; [assumption|]. rewrite Qmult_1_l.
    now rewrite <- Zle_Qle.
Qed.

(** X16.  With agents handed to [register_agent] within their capacity,
    the utilization that [get_agent_workload] reports for a registered
    agent of capacity at least one always lies between 0 and 1. *)
Theorem agent_utilization_bounded :
  forall (st : WorkforceStrategy) (cs : list Call) (w : dict WorkloadInfo)
         (a : Agent),
    Forall registers_within_capacity cs ->
    get_agent_workload (run (new_manager st) cs) = Workloads w ->
    In a (agents (run (new_manager st) cs)) ->
    (1 <= max_concurrent_tasks a)%Z ->
    exists info,
      dict_get (agent_id a) w = Some info /\
      0 <= info_utilization info /\ info_utilization info <= 1.
Proof.
  intros st cs w a Hcs Hw Hin Hmax.
  assert (Hcap : capacity_respected (run (new_manager st) cs)).
  { apply run_invariant with (ok := fun _ => registers_within_capacity).
    - intros s c. apply capacity_respected_step.
    - split; constructor.
    - now apply admissible_Forall. }
  destruct Hcap as [Hnd HF].
  pose proof (proj1 (Forall_forall _ _) HF a Hin Hmax) as Hle.
  unfold get_agent_workload in Hw.
  destruct (existsb (fun a0 => Z.eqb (max_concurrent_tasks a0) 0)
              (agents (run (new_manager st) cs))) eqn:Hz.
  - rewrite workload_loop_zero in Hw by assumption. discriminate.
  - destruct (@workload_loop_ok _ [] Hz Hnd) as (w' & Hrun & _ & Hg & _);
      [reflexivity|].
    rewrite Hrun in Hw. injection Hw as <-.
    exists (workload_info a). split; [now apply Hg|].
    cbn [info_utilization workload_info]. now apply utilization_bounds.
Qed.

Lemma agent_utilization_bounded_witness :
  exists info,
    dict_get (agent_id (mkAgent "a1" "a1" WORKER ["x"] 2 ["t1"; "t2"] [] true))
      [("a1", workload_info
                (mkAgent "a1" "a1" WORKER ["x"] 2 ["t1"; "t2"] [] true))]
      = Some info /\
    0 <= info_utilization info /\ info_utilization info <= 1.
Proof.
  apply (@agent_utilization_bounded CapabilityBasedStrategy
           [RegisterAgent (Scenario.agent "a1" ["x"] 2);
            SubmitTask (Scenario.task "t1" ["x"] []);
            SubmitTask (Scenario.task "t2" ["x"] [])]).
  - repeat constructor; cbn; unfold within_capacity; cbn; lia.
  - vm_compute. reflexivity.
  - vm_compute. now left.
  - cbn. lia.
Defined.

(** ** The task registry only grows *)

Lemma map_task_id_put t ts :
  map task_id (put_task t ts) =
  match get_task (task_id t) ts with
  | Some _ => map task_id ts
  | None => map task_id ts ++ [task_id t]
  end.
Proof.
  unfold put_task. destruct (get_task (task_id t) ts) eqn:E.
  - clear E. induction ts as [|x ts IH]; cbn [update_task map]; [reflexivity|].
    destruct (String.eqb_spec (task_id x) (task_id t)) as [Ex|Ex]; cbn [map].
    + now rewrite Ex.
    + now rewrite IH.
  - now rewrite map_app.
Qed.

Lemma extends_ids_step base s c :
  extends_ids base s -> extends_ids base (step s c).
Proof.
  intros H. revert H.
  assert (Hgo : extends_ids base s -> True -> extends_ids base (step s c));
    [|intros H; now apply Hgo].
  apply step_preserves with (ok := fun _ _ => True) (J := fun _ _ => True);
    unfold extends_ids; try (intros; assumption); try (intros; exact I).
  - intros s0 t (more & Hm) _. cbn [tasks with_queue with_tasks].
    rewrite map_task_id_put. destruct (get_task (task_id t) (tasks s0)).
    + now exists more.
    + exists (more ++ [task_id t]). now rewrite Hm, app_assoc.
  - intros s0 tid task agent (more & Hm) _ _ _.
    cbn [tasks assigned_state with_agents with_tasks].
    exists more. now rewrite map_task_id_update.
  - intros s0 tid task res (more & Hm) _ _. cbn [tasks with_tasks].
    exists more. now rewrite map_task_id_update.
  - intros s0 tid task reason (more & Hm) _ _. cbn [tasks with_tasks].
    exists more. now rewrite map_task_id_update.
  - intros s0 aid agent tid (more & Hm) _ _ _. split; [|exact I].
    destruct (reassign_task_cases tid s0)
      as [->|(task & Hg & [->|(a & ag & l & _ & _ & ->)])];
      [now exists more| |];
      cbn [tasks requeued_state with_queue with_tasks with_agents];
      exists more; now rewrite map_task_id_update.
Qed.

(** X18.  No public call removes or reorders registered tasks: after
    any sequence of calls, returning or raising, the ids of the task
    registry are the ids it had before, in the same order, followed by
    the ids registered since.  In particular a task, once accepted, stays
    registered for the life of the manager. *)
Theorem task_registry_only_grows :
  forall (s : WorkforceManager) (cs : list Call),
    exists more,
      map task_id (tasks (run s cs)) = map task_id (tasks s) ++ more.
Proof.
  intros s cs.
  apply run_invariant
    with (I := extends_ids (map task_id (tasks s))) (ok := fun _ _ => True).
  - intros s0 c H _. now apply extends_ids_step.
  - exists []. now rewrite app_nil_r.
  - clear. generalize s.
    induction cs; intros s0; cbn [admissible]; auto.
Qed.

(** ** What the strategies may pick from *)

(** X20.  The agent a strategy picks among the available agents of the
    manager is a registered agent that is active and strictly under
    capacity and, under the capability-based and priority-based
    strategies, has every capability the task requires (round-robin does
    not look at requirements); and a strategy answers [None] only when no
    registered agent qualifies in that sense. *)
Theorem strategy_pick_is_eligible :
  forall (s : WorkforceManager) (t : Task),
    match snd (assign_task (strategy s) t (_get_available_agents s)) with
    | Some a =>
        In a (agents s) /\ is_active a = true /\ under_capacity a = true /\
        (match strategy s with
         | RoundRobinStrategy _ => True
         | _ => has_capabilities t a = true
         end)
    | None =>
        forall a, In a (agents s) -> eligible (strategy s) t a = false
    end.
Proof.
  intros s t.
  destruct (assign_task (strategy s) t (_get_available_agents s))
    as [st' [a|]] eqn:Ea; cbn [snd].
  - pose proof (assign_task_In _ _ _ Ea) as Hin.
    unfold _get_available_agents in Hin.
    apply filter_In in Hin as [Hin Hav].
    apply andb_true_iff in Hav as [Hact Hcap].
    repeat split; auto.
    destruct (strategy s) as [last| |] eqn:Es; [exact I| |];
      cbn [assign_task] in Ea.
    + destruct (filter (has_capabilities t) (_get_available_agents s))
        as [|x rest] eqn:Ef; [discriminate|].
      injection Ea as _ <-.
      assert (Hm : In (max_by_success_rate x rest) (x :: rest)).
      { apply fold_left_pick. intros b a0.
        destruct (Qgtb _ _); [now right | now left]. }
      rewrite <- Ef in Hm. now apply filter_In in Hm.
    + destruct (filter (fun a0 => has_capabilities t a0 && under_capacity a0)
                  (_get_available_agents s)) as [|x rest] eqn:Ef;
        [discriminate|].
      injection Ea as _ <-.
      assert (Hm : In (min_by_load x rest) (x :: rest)).
      { apply fold_left_pick. intros b a0.
        destruct (Nat.ltb _ _); [now right | now left]. }
      rewrite <- Ef in Hm. apply filter_In in Hm as [_ Hm].
      now apply andb_true_iff in Hm.
  - assert (Hn : has_eligible_agent s t = false)
      by (apply assign_task_none_iff; now rewrite Ea).
    intros a Hin. unfold has_eligible_agent in Hn.
    destruct (eligible (strategy s) t a) eqn:E; [|reflexivity].
    assert (Hex : existsb (eligible (strategy s) t) (agents s) = true)
      by (apply existsb_exists; eauto).
    congruence.
Qed.

(** ** Inactive agents *)

Lemma inactive_agents_idle_step s c :
  inactive_agents_idle s -> registers_idle_when_inactive c ->
  inactive_agents_idle (step s c).
Proof.
  apply step_preserves
    with (ok := fun _ => registers_idle_when_inactive) (J := fun _ _ => True);
    try (intros; assumption); try (intros; exact I).
  - intros s0 a [Hnd HF] Hok. unfold inactive_agents_idle.
    cbn [agents with_agents]. unfold put_agent.
    destruct (get_agent (agent_id a) (agents s0)) as [a0|] eqn:Eg.
    + split.
      * rewrite map_agent_id_update; auto.
      * now apply Forall_update_agent with (a0 := a0).
    + split.
      * rewrite map_app. cbn [map].
        apply NoDup_app; [assumption | repeat constructor; intros [] | ].
        intros x Hx [<-|[]]. now apply get_agent_None_notin in Eg.
      * apply Forall_app. split; [assumption | now constructor].
  - intros s0 tid task agent [Hnd HF] _ _ Hav.
    apply filter_In in Hav as [Hin Hav].
    apply andb_prop in Hav as [Hact _].
    unfold inactive_agents_idle.
    cbn [agents assigned_state with_agents with_tasks]. split.
    + rewrite map_agent_id_update; [assumption | now intros a <-].
    + apply Forall_update_agent with (a0 := agent); auto.
      * now apply get_agent_NoDup.
      * unfold idle_when_inactive. cbn. congruence.
  - intros s0 aid agent tid l m [Hnd HF] Hg Hl.
    unfold inactive_agents_idle. cbn [agents with_agents]. split.
    + rewrite map_agent_id_update; [assumption | now intros a <-].
    + apply Forall_update_agent with (a0 := agent); auto.
      apply get_agent_Some in Hg as [Hin _].
      pose proof (proj1 (Forall_forall _ _) HF _ Hin) as Hidle.
      unfold idle_when_inactive in *. cbn. intros Hact.
      rewrite (Hidle Hact) in Hl. discriminate.
  - intros s0 aid agent tid H _ _ _. split; [|exact I].
    destruct (reassign_task_cases tid s0)
      as [->|(task & Hg & [->|(a & ag & l & Hag & Hl & ->)])];
      [assumption|assumption|].
    destruct H as [Hnd HF]. unfold inactive_agents_idle.
    cbn [agents requeued_state with_queue with_tasks with_agents]. split.
    + rewrite map_agent_id_update; [assumption | now intros x <-].
    + apply Forall_update_agent with (a0 := ag); auto.
      apply get_agent_Some in Hag as [Hin _].
      pose proof (proj1 (Forall_forall _ _) HF _ Hin) as Hidle.
      unfold idle_when_inactive in *. cbn. intros Hact.
      rewrite (Hidle Hact) in Hl. discriminate.
  - intros s0 aid [Hnd HF]. unfold inactive_agents_idle, del_agent.
    cbn [agents with_agents]. split.
    + now apply NoDup_map_filter.
    + now apply Forall_filter.
Qed.

(** X21.  An agent that is not active is never given work: in every
    state reached from a new manager by calls that register inactive
    agents only without tasks, every registered agent with
    [is_active == False] has an empty [current_tasks]. *)
Theorem inactive_agents_get_no_work :
  forall (st : WorkforceStrategy) (cs : list Call),
    Forall registers_idle_when_inactive cs ->
    forall a, In a (agents (run (new_manager st) cs)) ->
              is_active a = false -> current_tasks a = [].
Proof.
  intros st cs Hcs.
  assert (H : inactive_agents_idle (run (new_manager st) cs)).
  { apply run_invariant with (ok := fun _ => registers_idle_when_inactive).
    - intros s c. apply inactive_agents_idle_step.
    - split; constructor.
    - now apply admissible_Forall. }
  intros a Hin. exact (proj1 (Forall_forall _ _) (proj2 H) a Hin).
Qed.

Lemma inactive_agents_get_no_work_witness :
  current_tasks (mkAgent "a0" "a0" WORKER ["x"] 1 [] [] false) = [].
Proof.
  apply (@inactive_agents_get_no_work CapabilityBasedStrategy
           [RegisterAgent (mkAgent "a0" "a0" WORKER ["x"] 1 [] [] false);
            SubmitTask (Scenario.task "t1" ["x"] [])]).
  - repeat constructor; cbn; unfold idle_when_inactive; cbn; auto.
  - vm_compute. now left.
  - reflexivity.
Defined.

(** ** Submission: immediate assignment, and no raise *)

(** X22.  Submitting a Pending task whose dependencies are all Completed
    into a manager with an empty queue, while some agent is eligible for
    it, returns [True] and assigns it within the call: the registry
    holds it InProgress with the agent the strategy picks in the state
    before the call, and the queue is empty again. *)
Theorem submit_task_assigns_immediately :
  forall (s : WorkforceManager) (T : Task),
    task_queue s = [] ->
    status T = PENDING ->
    (forall d, In d (dependencies T) -> completed_in (tasks s) d) ->
    has_eligible_agent s T = true ->
    exists s' agent,
      submit_task T s = (s', Ok true) /\
      snd (assign_task (strategy s) T (_get_available_agents s))
        = Some agent /\
      get_task (task_id T) (tasks s') =
        Some (set_status IN_PROGRESS
                (set_assigned_agent (Some (agent_id agent)) T)) /\
      task_queue s' = [].
Proof.
  intros s T Hq Hp Hdeps Hel. unfold submit_task.
  assert (E : existsb (dependency_unmet (tasks s)) (dependencies T) = false).
  { destruct (existsb _ _) eqn:Ee; [|reflexivity].
    apply existsb_exists in Ee as (d & Hin & Hd).
    apply Hdeps, dependency_unmet_iff in Hin. congruence. }
  rewrite E. unfold bind at 1 2 3. cbn [modify].
  rewrite emit_event_spec. set (s1 := with_bus_effects _ _ _).
  assert (Hg1 : get_task (task_id T) (tasks s1) = Some T).
  { subst s1. cbn [tasks with_bus_effects with_queue with_tasks].
    now rewrite get_task_put, String.eqb_refl. }
  assert (Hq1 : task_queue s1 = [task_id T]).
  { subst s1. cbn [task_queue with_bus_effects with_queue with_tasks].
    now rewrite Hq. }
  assert (Hr1 : queue_registered s1).
  { intros tid Hin. rewrite Hq1 in Hin. destruct Hin as [<-|[]].
    now rewrite Hg1. }
  destruct (@queue_head_gets_pick s1 (task_id T) [] T Hr1 Hq1 Hg1 Hp Hel)
    as (s' & agent & Hrun & Hpick & Hg' & Hnq).
  pose proof (process_task_queue_filter Hr1) as (s'' & Hrun' & Hfil & _).
  rewrite Hrun in Hrun'. injection Hrun' as <-.
  unfold bind. rewrite Hrun. exists s', agent.
  split; [reflexivity|]. split; [exact Hpick|]. split; [exact Hg'|].
  rewrite Hfil, Hq1. cbn [filter]. unfold pending_in. rewrite Hg'.
  reflexivity.
Qed.

Lemma submit_task_assigns_immediately_witness :
  exists s' agent,
    submit_task (Scenario.task "t1" ["x"] [])
      (step (new_manager CapabilityBasedStrategy)
            (RegisterAgent (Scenario.agent "a1" ["x"] 1))) = (s', Ok true) /\
    snd (assign_task
           (strategy (step (new_manager CapabilityBasedStrategy)
                           (RegisterAgent (Scenario.agent "a1" ["x"] 1))))
           (Scenario.task "t1" ["x"] [])
           (_get_available_agents
              (step (new_manager CapabilityBasedStrategy)
                    (RegisterAgent (Scenario.agent "a1" ["x"] 1)))))
      = Some agent /\
    get_task (task_id (Scenario.task "t1" ["x"] [])) (tasks s') =
      Some (set_status IN_PROGRESS
              (set_assigned_agent (Some (agent_id agent))
                 (Scenario.task "t1" ["x"] []))) /\
    task_queue s' = [].
Proof.
  apply (@submit_task_assigns_immediately
           (step (new_manager CapabilityBasedStrategy)
                 (RegisterAgent (Scenario.agent "a1" ["x"] 1)))
           (Scenario.task "t1" ["x"] [])).
  - reflexivity.
  - reflexivity.
  - intros d [].
  - vm_compute. reflexivity.
Defined.

(** X23.  With handlers that only observe (each returns or raises an
    [Exception] and makes no call on the manager, as every [Handler]
    does): in every state reached from a new manager, whatever calls were
    made before and whether they returned or raised, [submit_task] itself
    never raises: it returns [True] or [False] for every task object. *)
Theorem submit_task_never_raises :
  forall (st : WorkforceStrategy) (cs : list Call) (T : Task),
    exists s' b, submit_task T (run (new_manager st) cs) = (s', Ok b).
Proof.
  intros st cs T.
  destruct (submit_task_spec (run (new_manager st) cs) T) as [H1 H2].
  destruct (existsb (dependency_unmet (tasks (run (new_manager st) cs)))
              (dependencies T)) eqn:E.
  - apply existsb_exists in E as (d & Hin & Hd).
    eexists _, false. apply H1. exists d. split; [assumption|].
    intros Hc. apply dependency_unmet_iff in Hc. congruence.
  - destruct H2 as (s' & Hrun & _).
    + intros d Hin. apply dependency_unmet_iff.
      destruct (dependency_unmet _ d) eqn:Ed; [|reflexivity].
      assert (Hex : existsb (dependency_unmet
                               (tasks (run (new_manager st) cs)))
                      (dependencies T) = true)
        by (apply existsb_exists; eauto).
      congruence.
    + apply queue_registered_run.
    + now exists s', true.
Qed.

(** * Submission, capacity, dependents, metrics and the event bus *)

(** ** Submission *)

(** C7.  In every state reached from a new manager by public calls:
    [submit_task(T)] with a dependency that is missing from the registry or
    not Completed returns [False] and leaves the manager as it was (nothing
    stored, nothing queued, no event).  With every dependency registered
    and Completed it returns [True]; the registry then holds [T] under its
    id, either as submitted or, if the drain assigned it at once, as [T]
    made InProgress with an agent recorded; and the queue is the old queue
    with the id of [T] appended at its tail, less the ids that are not
    Pending once the drain has run (so [T] is queued, last, as long as it
    is Pending). *)
Theorem submit_task_dependency_gate :
  forall (st : WorkforceStrategy) (cs : list Call) (T : Task),
    let s := run (new_manager st) cs in
    ((exists d, In d (dependencies T) /\ ~ completed_in (tasks s) d) ->
     submit_task T s = (s, Ok false)) /\
    ((forall d, In d (dependencies T) -> completed_in (tasks s) d) ->
     exists s',
       submit_task T s = (s', Ok true) /\
       task_queue s' = filter (pending_in s') (task_queue s ++ [task_id T]) /\
       exists T',
         get_task (task_id T) (tasks s') = Some T' /\
         (T' = T \/
          (status T = PENDING /\
           exists aid,
             T' = set_status IN_PROGRESS (set_assigned_agent (Some aid) T))) /\
         (status T' = PENDING -> In (task_id T) (task_queue s'))).
Proof.
  intros st cs T s. split; [exact (proj1 (submit_task_spec s T))|].
  intros Hdeps. unfold submit_task.
  assert (E : existsb (dependency_unmet (tasks s)) (dependencies T) = false).
  { destruct (existsb _ _) eqn:Ee; [|reflexivity].
    apply existsb_exists in Ee as (d & Hin & Hd).
    apply Hdeps, dependency_unmet_iff in Hin. congruence. }
  rewrite E. unfold bind at 1 2 3. cbn [modify].
  rewrite emit_event_spec.
  set (s1 := with_bus_effects _ _ _).
  assert (Hg1 : get_task (task_id T) (tasks s1) = Some T).
  { subst s1. cbn [tasks with_bus_effects with_queue with_tasks].
    now rewrite get_task_put, String.eqb_refl. }
  assert (Hqueue1 : task_queue s1 = task_queue s ++ [task_id T])
    by reflexivity.
  assert (Hq1 : queue_registered s1).
  { intros tid Hin. rewrite Hqueue1 in Hin. subst s1.
    cbn [tasks with_bus_effects with_queue with_tasks].
    rewrite get_task_put. apply in_app_or in Hin as [Hin|[<-|[]]].
    - destruct (String.eqb (task_id T) tid); [discriminate|].
      now apply (queue_registered_run st cs).
    - now rewrite String.eqb_refl. }
  destruct (process_task_queue_filter Hq1) as (s2 & Hrun & Hq2 & _ & Hev).
  unfold bind. rewrite Hrun.
  eexists. split; [reflexivity|].
  rewrite Hqueue1 in Hq2. split; [exact Hq2|].
  destruct (Hev _ _ Hg1) as (T' & Hg' & HT').
  exists T'. split; [assumption|]. split; [assumption|].
  intros Hp. rewrite Hq2. apply filter_In. split.
  - apply in_or_app. right. now left.
  - unfold pending_in. rewrite Hg', Hp. reflexivity.
Qed.

Lemma submit_task_dependency_gate_witness :
  submit_task (Scenario.task "t3" ["x"] ["t_missing"]) Scenario.one_waiting
    = (Scenario.one_waiting, Ok false) /\
  exists s',
    submit_task (Scenario.task "t3" ["x"] ["t1"])
      (run (new_manager CapabilityBasedStrategy)
           [RegisterAgent (Scenario.agent "a1" ["x"] 1);
            SubmitTask (Scenario.task "t1" ["x"] []);
            SubmitTask (Scenario.task "t2" ["x"] []);
            SubmitTask (Scenario.task "t4" ["x"] []);
            CompleteTask "t1" VNone]) = (s', Ok true) /\
    task_queue s' = ["t4"; "t3"].
Proof.
  split.
  - apply (proj1 (submit_task_dependency_gate CapabilityBasedStrategy
                    [RegisterAgent (Scenario.agent "a1" ["x"] 1);
                     SubmitTask (Scenario.task "t1" ["x"] []);
                     SubmitTask (Scenario.task "t2" ["x"] [])]
                    (Scenario.task "t3" ["x"] ["t_missing"]))).
    exists "t_missing". split; [now left|].
    intros (td & Hg & _). vm_compute in Hg. discriminate.
  - destruct (proj2 (submit_task_dependency_gate CapabilityBasedStrategy
                    [RegisterAgent (Scenario.agent "a1" ["x"] 1);
                     SubmitTask (Scenario.task "t1" ["x"] []);
                     SubmitTask (Scenario.task "t2" ["x"] []);
                     SubmitTask (Scenario.task "t4" ["x"] []);
                     CompleteTask "t1" VNone]
                    (Scenario.task "t3" ["x"] ["t1"])))
      as (s' & Hrun & Hq & _).
    + intros d [<-|[]]. eexists. split; [vm_compute; reflexivity | reflexivity].
    + exists s'. split; [exact Hrun|].
      rewrite Hq.
      assert (E : s' = fst (submit_task (Scenario.task "t3" ["x"] ["t1"])
                   (run (new_manager CapabilityBasedStrategy)
                      [RegisterAgent (Scenario.agent "a1" ["x"] 1);
                       SubmitTask (Scenario.task "t1" ["x"] []);
                       SubmitTask (Scenario.task "t2" ["x"] []);
                       SubmitTask (Scenario.task "t4" ["x"] []);
                       CompleteTask "t1" VNone])))
        by (rewrite Hrun; reflexivity).
      rewrite E. vm_compute. reflexivity.
Defined.

(** ** Capacity *)

(** C8 (as stated, refuted).  [register_agent] stores the agent object it
    is given without looking at it: an agent of capacity one handed over
    with two ids in [current_tasks] is registered over its capacity. *)
Lemma registered_agent_over_capacity :
  let s := run (new_manager CapabilityBasedStrategy)
               [RegisterAgent
                  (mkAgent "a1" "a1" WORKER ["x"] 1 ["t1"; "t2"] [] true)] in
  In (mkAgent "a1" "a1" WORKER ["x"] 1 ["t1"; "t2"] [] true) (agents s) /\
  over_capacity (mkAgent "a1" "a1" WORKER ["x"] 1 ["t1"; "t2"] [] true).
Proof. vm_compute. split; [now left|]. split; [discriminate | reflexivity]. Qed.

(** C8 (amended).  In every state reached from a new manager by public
    calls, with agents handed to [register_agent] within their capacity (a
    fresh agent holds no task, in a list of its own), every registered
    agent [A] with
    [max_concurrent_tasks >= 1] has
    [len(A.current_tasks) <= A.max_concurrent_tasks], for each of the three
    strategies and also after calls that raised.  The agent a strategy
    picks among the available agents is registered, active and strictly
    under capacity, and assigning the task to it appends exactly that one
    task id to its [current_tasks] and leaves every other agent as it
    was. *)
Theorem current_tasks_within_capacity :
  forall (st : WorkforceStrategy) (cs : list Call),
    Forall registers_within_capacity cs ->
    let s := run (new_manager st) cs in
    (forall A, In A (agents s) ->
       (1 <= max_concurrent_tasks A)%Z ->
       (Z.of_nat (length (current_tasks A)) <= max_concurrent_tasks A)%Z) /\
    (forall (t : Task) (a : Agent),
       snd (assign_task (strategy s) t (_get_available_agents s)) = Some a ->
       In a (agents s) /\ is_active a = true /\ under_capacity a = true /\
       let s' := fst (_assign_task_to_agent t a
                        (with_strategy
                           (fst (assign_task (strategy s) t
                                   (_get_available_agents s))) s)) in
       get_agent (agent_id a) (agents s') =
         Some (set_current_tasks (current_tasks a ++ [task_id t]) a) /\
       (forall other, other <> agent_id a ->
          get_agent other (agents s') = get_agent other (agents s))).
Proof.
  intros st cs Hcs s. split.
  - assert (H : capacity_respected s).
    { apply run_invariant with (ok := fun _ => registers_within_capacity).
      - intros s0 c. apply capacity_respected_step.
      - split; constructor.
      - now apply admissible_Forall. }
    intros A Hin. exact (proj1 (Forall_forall _ _) (proj2 H) A Hin).
  - intros t a Hpick.
    destruct (assign_task (strategy s) t (_get_available_agents s))
      as [st' pick] eqn:Ea.
    cbn [snd] in Hpick. subst pick. cbn [fst].
    pose proof (assign_task_In _ _ _ Ea) as Hin.
    unfold _get_available_agents in Hin.
    apply filter_In in Hin as [Hin Hav].
    apply andb_true_iff in Hav as [Hact Hcap].
    split; [assumption|]. split; [assumption|]. split; [assumption|].
    destruct (assign_task_to_agent_spec t a (with_strategy st' s))
      as (c & o & ->).
    cbn [fst agents with_bus_effects assigned_state with_agents with_tasks
         with_strategy].
    split.
    + rewrite get_agent_update by reflexivity.
      rewrite String.eqb_refl.
      rewrite (get_agent_NoDup a (agents s)
                 (agent_ids_distinct_run st cs) Hin).
      reflexivity.
    + intros other Hne. rewrite get_agent_update by reflexivity.
      destruct (String.eqb_spec (agent_id a) other) as [E|E];
        [congruence | reflexivity].
Qed.

Lemma current_tasks_within_capacity_witness :
  (Z.of_nat (length (current_tasks
                       (mkAgent "a1" "a1" WORKER ["x"] 2 ["t1"; "t2"] [] true)))
   <= max_concurrent_tasks
        (mkAgent "a1" "a1" WORKER ["x"] 2 ["t1"; "t2"] [] true))%Z.
Proof.
  apply (proj1 (@current_tasks_within_capacity CapabilityBasedStrategy
           [RegisterAgent (Scenario.agent "a1" ["x"] 2);
            SubmitTask (Scenario.task "t1" ["x"] []);
            SubmitTask (Scenario.task "t2" ["x"] [])]
           ltac:(repeat constructor; cbn; unfold within_capacity; cbn; lia))).
  - vm_compute. now left.
  - cbn. lia.
Defined.

(** ** Event bus *)

Lemma bus_subscribed_add k k' h b :
  Bus.subscribed k (Bus.add_event_handler k' h b) =
  if String.eqb k' k then Bus.subscribed k b ++ [h] else Bus.subscribed k b.
Proof.
  unfold Bus.add_event_handler, Bus.subscribed at 1. cbn [Bus.bus_handlers].
  destruct (String.eqb_spec k' k) as [->|Hk].
  - now rewrite dict_get_set_same.
  - now rewrite dict_get_set_other.
Qed.

Lemma bus_subscribed_subscribe_all k regs : forall b,
  Bus.subscribed k (Bus.subscribe_all regs b) =
  Bus.subscribed k b
    ++ map snd (filter (fun r => String.eqb (fst r) k) regs).
Proof.
  induction regs as [|[k' h] regs IH]; intros b.
  - cbn. now rewrite app_nil_r.
  - cbn [Bus.subscribe_all fold_left]. fold (Bus.subscribe_all regs).
    rewrite IH, bus_subscribed_add.
    cbn [filter fst snd]. destruct (String.eqb k' k); cbn [map snd].
    + now rewrite <- app_assoc.
    + reflexivity.
Qed.

Lemma bus_id b :
  Bus.mkBus (Bus.bus_handlers b) (Bus.bus_calls b) (Bus.bus_stdout b) = b.
Proof. now destruct b. Qed.

(** Handlers that end inside [Exception] are all called. *)
Lemma bus_deliver_contained event_type data hs : forall b,
  Forall (Bus.contained event_type data) hs ->
  Bus.deliver event_type data hs b =
  (Bus.mkBus (Bus.bus_handlers b)
     (Bus.bus_calls b ++ Bus.invocations event_type data hs)
     (Bus.bus_stdout b ++ Bus.error_lines event_type data hs),
   Ok tt).
Proof.
  induction hs as [|h hs IH]; intros b Hc.
  - cbn. now rewrite !app_nil_r, bus_id.
  - inversion Hc as [|h' hs' Hh Hhs]; subst.
    cbn [Bus.deliver Bus.invocations Bus.error_lines map flat_map].
    unfold Bus.call_handler. unfold Bus.contained in Hh.
    destruct (Bus.callable_body h event_type data) as [|msg|name] eqn:Eb.
    + rewrite (IH _ Hhs). cbn [Bus.bus_handlers Bus.bus_calls Bus.bus_stdout].
      cbn [app]. now rewrite <- app_assoc.
    + rewrite (IH _ Hhs). cbn [Bus.bus_handlers Bus.bus_calls Bus.bus_stdout].
      now rewrite <- !app_assoc.
    + exfalso. exact (Hh name eq_refl).
Qed.

(** The first handler that raises outside [Exception] ends the delivery:
    the handlers after it are not called and the exception leaves
    [_emit_event]. *)
Lemma bus_deliver_stops event_type data pre h post name : forall b,
  Forall (Bus.contained event_type data) pre ->
  Bus.callable_body h event_type data = Bus.RaisesBaseException name ->
  Bus.deliver event_type data (pre ++ h :: post) b =
  (Bus.mkBus (Bus.bus_handlers b)
     (Bus.bus_calls b ++ Bus.invocations event_type data (pre ++ [h]))
     (Bus.bus_stdout b ++ Bus.error_lines event_type data pre),
   Raise (BaseException name)).
Proof.
  induction pre as [|p pre IH]; intros b Hc Hh.
  - cbn [app Bus.deliver Bus.invocations Bus.error_lines map flat_map].
    unfold Bus.call_handler. rewrite Hh. now rewrite app_nil_r.
  - inversion Hc as [|p' pre' Hp Hpre]; subst.
    cbn [app Bus.deliver Bus.invocations Bus.error_lines map flat_map].
    unfold Bus.call_handler at 1. unfold Bus.contained in Hp.
    destruct (Bus.callable_body p event_type data) as [|msg|n] eqn:Eb.
    + rewrite (IH _ Hpre Hh).
      cbn [Bus.bus_handlers Bus.bus_calls Bus.bus_stdout app].
      unfold Bus.invocations. now rewrite <- app_assoc.
    + rewrite (IH _ Hpre Hh).
      cbn [Bus.bus_handlers Bus.bus_calls Bus.bus_stdout].
      unfold Bus.invocations. now rewrite <- !app_assoc.
    + exfalso. exact (Hp n eq_refl).
Qed.

(** C10 (as stated, refuted).  Two handlers are registered for
    [task_completed]; the first raises [SystemExit], which is not an
    [Exception].  Publishing the event calls the first handler only, and
    the exception leaves [_emit_event]: [except Exception] does not catch
    it. *)
Lemma system_exit_stops_delivery :
  let h1 := Bus.mkCallable "h1"
              (fun _ _ => Bus.RaisesBaseException "SystemExit") in
  let h2 := Bus.mkCallable "h2" (fun _ _ => Bus.Returns) in
  let b := Bus.subscribe_all
             [("task_completed", h1); ("task_completed", h2)] Bus.new_bus in
  Bus.subscribed "task_completed" b = [h1; h2] /\
  Bus._emit_event "task_completed" [("task_id", VStr "t1")] b =
  (Bus.mkBus (Bus.bus_handlers b)
     [("h1", "task_completed", [("task_id", VStr "t1")])] [],
   Raise (BaseException "SystemExit")).
Proof. split; reflexivity. Qed.

(** C10 (amended).  After any sequence [regs] of [add_event_handler]
    calls, publishing an event of kind [event_type] to handlers each of
    which returns or raises an [Exception] (and does not itself call the
    bus) returns normally and calls, once
    per registration and in registration order, exactly the handlers
    registered for that kind (those the bus already had, then those of
    [regs]); handlers of other kinds are not called.  A handler that
    raises an [Exception] costs one printed line and nothing else: the
    later handlers are still called. *)
Theorem emit_event_delivery :
  forall (b0 : Bus.EventBus) (regs : list (string * Bus.Callable))
         (event_type : string) (data : EventData),
  let b := Bus.subscribe_all regs b0 in
  let hs := Bus.subscribed event_type b0
              ++ map snd (filter (fun r => String.eqb (fst r) event_type) regs) in
  Forall (Bus.contained event_type data) hs ->
  Bus._emit_event event_type data b =
  (Bus.mkBus (Bus.bus_handlers b)
     (Bus.bus_calls b ++ Bus.invocations event_type data hs)
     (Bus.bus_stdout b ++ Bus.error_lines event_type data hs),
   Ok tt).
Proof.
  intros b0 regs event_type data b hs Hc.
  assert (Hs : Bus.subscribed event_type b = hs)
    by (subst b hs; apply bus_subscribed_subscribe_all).
  unfold Bus._emit_event. unfold Bus.subscribed in Hs at 1.
  destruct (dict_get event_type (Bus.bus_handlers b)) as [l|].
  - subst l. now apply bus_deliver_contained.
  - subst hs. rewrite <- Hs. cbn. now rewrite !app_nil_r, bus_id.
Qed.

Lemma emit_event_delivery_witness :
  let h1 := Bus.mkCallable "h1" (fun _ _ => Bus.RaisesException "boom") in
  let h2 := Bus.mkCallable "h2" (fun _ _ => Bus.Returns) in
  let h3 := Bus.mkCallable "h3"
              (fun _ _ => Bus.RaisesBaseException "SystemExit") in
  let b := Bus.subscribe_all
             [("task_completed", h1); ("task_failed", h3);
              ("task_completed", h2)] Bus.new_bus in
  Bus._emit_event "task_completed" [] b =
  (Bus.mkBus (Bus.bus_handlers b)
     [("h1", "task_completed", []); ("h2", "task_completed", [])]
     ["Error in event handler: boom"],
   Ok tt).
Proof.
  intros h1 h2 h3 b.
  apply (@emit_event_delivery Bus.new_bus
           [("task_completed", h1); ("task_failed", h3);
            ("task_completed", h2)] "task_completed" []).
  repeat constructor; intros name H; discriminate H.
Defined.

(** The bus of the manager is the bus above with observers for
    callables: both [add_event_handler] and [_emit_event] commute with
    [Bus.of_manager]. *)
Lemma dict_get_map_values (A B : Type) (f : A -> B) k (d : dict A) :
  dict_get k (map (fun kv => (fst kv, f (snd kv))) d) =
  option_map f (dict_get k d).
Proof.
  induction d as [|[k' v] d IH]; [reflexivity|].
  cbn [map dict_get fst snd]. destruct (String.eqb k' k); [reflexivity|exact IH].
Qed.

Lemma dict_set_map_values (A B : Type) (f : A -> B) k v (d : dict A) :
  dict_set k (f v) (map (fun kv => (fst kv, f (snd kv))) d) =
  map (fun kv => (fst kv, f (snd kv))) (dict_set k v d).
Proof.
  induction d as [|[k' v'] d IH]; [reflexivity|].
  cbn [map dict_set fst snd]. destruct (String.eqb k' k); [reflexivity|].
  cbn [map fst snd]. now rewrite IH.
Qed.

Lemma observer_add_event_handler_refines k h s :
  Bus.add_event_handler k (Bus.of_handler h) (Bus.of_manager s) =
  Bus.of_manager (fst (add_event_handler k h s)).
Proof.
  unfold Bus.add_event_handler, Bus.of_manager, Bus.subscribed,
    add_event_handler, modify.
  cbn [fst Bus.bus_handlers Bus.bus_calls Bus.bus_stdout event_handlers
       handler_calls stdout with_event_handlers].
  rewrite dict_get_map_values.
  rewrite <- (dict_set_map_values (map Bus.of_handler)).
  destruct (dict_get k (event_handlers s)) as [l|]; cbn [option_map];
    now rewrite ?map_app.
Qed.

Lemma observer_emit_event_refines event_type data s :
  Bus._emit_event event_type data (Bus.of_manager s) =
  (Bus.of_manager (fst (_emit_event event_type data s)),
   snd (_emit_event event_type data s)).
Proof.
  rewrite emit_event_spec. cbn [fst snd].
  unfold Bus._emit_event, subscribed, Bus.of_manager at 1 2.
  cbn [Bus.bus_handlers]. rewrite dict_get_map_values.
  destruct (dict_get event_type (event_handlers s)) as [hs|]; cbn [option_map].
  - rewrite bus_deliver_contained.
    + unfold Bus.of_manager.
      cbn [Bus.bus_handlers Bus.bus_calls Bus.bus_stdout event_handlers
           handler_calls stdout with_bus_effects].
      f_equal. f_equal.
      * f_equal. unfold Bus.invocations. rewrite map_map. reflexivity.
      * f_equal. unfold Bus.error_lines, error_lines.
        induction hs as [|h hs IH]; [reflexivity|].
        cbn [map flat_map Bus.of_handler Bus.callable_body].
        rewrite IH. now destruct (handler_body h event_type data).
    + apply Forall_forall. intros c Hc. apply in_map_iff in Hc as (h & <- & _).
      intros name. unfold Bus.of_handler. cbn [Bus.callable_body].
      destruct (handler_body h event_type data); discriminate.
  - unfold Bus.of_manager.
    cbn [Bus.bus_handlers Bus.bus_calls Bus.bus_stdout event_handlers
         handler_calls stdout with_bus_effects map app].
    now rewrite !app_nil_r.
Qed.

(** ** Completion and dependents *)



(** In [Scenario.dependent_waiting], reached by public calls, [tY] waits
    in the queue; completing [tX] assigns it to the agent the earlier
    failure freed. *)
Example dependent_assigned_on_completion :
  Scenario.status_of "tX" Scenario.dependent_waiting = Some IN_PROGRESS /\
  Scenario.status_of "tY" Scenario.dependent_waiting = Some PENDING /\
  task_queue Scenario.dependent_waiting = ["tY"] /\
  let s' := fst (complete_task "tX" VNone Scenario.dependent_waiting) in
  Scenario.status_of "tY" s' = Some IN_PROGRESS /\
  Scenario.assigned_of "tY" s' = Some (Some "a2") /\
  task_queue s' = [].
Proof. vm_compute. repeat split; reflexivity. Qed.

(** ** Metrics of an agent along a run *)


Lemma fst_bind_ret A B (m : M A) (f : A -> B) s :
  fst (bind m (fun a => ret (f a)) s) = fst (m s).
Proof. unfold bind, ret. now destruct (m s) as [s' [a|e]]. Qed.



















(** After one completion and two failures the agent's [success_rate] is
    the double [0.3333333333333333], that is [6004799503160661 / 2^54],
    the double nearest to [1/3] (and not [1/3] itself). *)
Example success_rate_is_a_double :
  let s := run (new_manager CapabilityBasedStrategy)
               [RegisterAgent (Scenario.agent "a1" ["x"] 1);
                SubmitTask (Scenario.task "t1" ["x"] []);
                CompleteTask "t1" VNone;
                SubmitTask (Scenario.task "t2" ["x"] []);
                FailTask "t2" VNone;
                SubmitTask (Scenario.task "t3" ["x"] []);
                FailTask "t3" VNone] in
  option_map performance_metrics (get_agent "a1" (agents s)) =
    Some (metrics_dict 3 1 (6004799503160661 # 18014398509481984)) /\
  ~ (6004799503160661 # 18014398509481984 == 1 # 3).
Proof.
  split; [vm_compute; reflexivity|].
  unfold Qeq. cbn. discriminate.
Qed.




(** ** Pending tasks are queued

    Every write that makes or leaves a task Pending goes with an append of
    its id to the queue, and the drain only removes ids of tasks that are
    not Pending.  So through public calls the scan of
    [_process_dependent_tasks] never meets a Pending task outside the
    queue. *)

Lemma queue_sound_same s s' :
  tasks s' = tasks s -> task_queue s' = task_queue s ->
  queue_sound s -> queue_sound s'.
Proof.
  unfold queue_sound, queue_registered, pending_queued.
  intros -> ->. auto.
Qed.

Lemma queue_sound_emit k d s :
  queue_sound s -> queue_sound (fst (_emit_event k d s)).
Proof.
  intros H. rewrite emit_event_spec. cbn [fst].
  now apply queue_sound_same with (s := s).
Qed.

Lemma queue_sound_enqueue s task :
  queue_sound s -> In task (tasks s) ->
  queue_sound (with_queue (fun q => q ++ [task_id task]) s).
Proof.
  intros [Hq Hp] Hin. split.
  - intros tid Hi. cbn [tasks task_queue with_queue] in *.
    apply in_app_or in Hi as [Hi|[<-|[]]]; [now apply Hq|].
    now apply get_task_In.
  - intros tid t Hg Hs. cbn [tasks task_queue with_queue] in *.
    apply in_or_app. left. now apply (Hp tid t).
Qed.

Lemma queue_sound_not_pending s tid f :
  (forall t, task_id (f t) = task_id t) ->
  (forall t, status (f t) <> PENDING) ->
  queue_sound s -> queue_sound (with_tasks (update_task tid f) s).
Proof.
  intros Hid Hf [Hq Hp]. split.
  - intros x Hi. cbn [tasks task_queue with_tasks] in *.
    apply get_task_update_present; [assumption | now apply Hq].
  - intros x t Hg Hs. cbn [tasks task_queue with_tasks] in *.
    rewrite get_task_update in Hg by assumption.
    destruct (String.eqb tid x); [|now apply (Hp x t)].
    destruct (get_task x (tasks s)) as [t0|]; [|discriminate].
    cbn [option_map] in Hg. injection Hg as <-. now apply Hf in Hs.
Qed.

Lemma queue_sound_requeued s tid :
  get_task tid (tasks s) <> None ->
  queue_sound s -> queue_sound (requeued_state tid s).
Proof.
  intros Hreg [Hq Hp]. unfold requeued_state. split.
  - intros x Hi. cbn [tasks task_queue with_queue with_tasks] in *.
    apply get_task_update_present; [reflexivity|].
    apply in_app_or in Hi as [Hi|[<-|[]]]; [now apply Hq | assumption].
  - intros x t Hg Hs. cbn [tasks task_queue with_queue with_tasks] in *.
    rewrite get_task_update in Hg by reflexivity.
    apply in_or_app.
    destruct (String.eqb_spec tid x) as [->|Hne]; [right; now left|].
    left. now apply (Hp x t).
Qed.

Lemma queue_sound_reassign_task tid s :
  queue_sound s -> queue_sound (fst (_reassign_task tid s)).
Proof.
  intros H.
  destruct (reassign_task_cases tid s)
    as [->|(task & Hg & [->|(x & agent & l & _ & _ & ->)])].
  - assumption.
  - apply queue_sound_requeued; [congruence | assumption].
  - apply queue_sound_requeued; [cbn [tasks with_agents]; congruence|].
    now apply queue_sound_same with (s := s).
Qed.

Lemma task_ids_drain s :
  map task_id (tasks (fst (_process_task_queue s))) = map task_id (tasks s).
Proof.
  apply process_task_queue_preserves
    with (I := fun s' => map task_id (tasks s') = map task_id (tasks s)).
  - intros s0 c o H. exact H.
  - intros s0 st H. exact H.
  - intros s0 tid task agent H _ _ _.
    cbn [tasks assigned_state with_agents with_tasks].
    now rewrite map_task_id_update.
  - intros s0 tid q H _. exact H.
  - reflexivity.
Qed.

Lemma get_task_registered tid ts :
  In tid (map task_id ts) -> get_task tid ts <> None.
Proof.
  intros Hin. apply in_map_iff in Hin as (t & <- & Hin).
  now apply get_task_In.
Qed.

Lemma queue_sound_drain s :
  queue_sound s -> queue_sound (fst (_process_task_queue s)).
Proof.
  intros [Hq Hp].
  pose proof (task_ids_drain s) as Hids.
  destruct (process_task_queue_filter Hq) as (s' & Hrun & Hqueue & _ & Hev).
  rewrite Hrun in *. cbn [fst] in *. split.
  - intros tid Hi. rewrite Hqueue in Hi. apply filter_In in Hi as [Hi _].
    destruct (get_task tid (tasks s)) as [t|] eqn:Hg;
      [|exfalso; exact (Hq tid Hi Hg)].
    destruct (Hev _ _ Hg) as (t' & Hg' & _). congruence.
  - intros tid t' Hg' Hs.
    assert (Hreg : get_task tid (tasks s) <> None).
    { apply get_task_registered. rewrite <- Hids.
      apply get_task_Some in Hg' as [Hin <-]. now apply in_map. }
    destruct (get_task tid (tasks s)) as [t|] eqn:Hg; [|congruence].
    destruct (Hev _ _ Hg) as (t'' & Hg'' & Ht'').
    rewrite Hg' in Hg''. injection Hg'' as <-.
    destruct Ht'' as [->|(_ & aid & ->)]; [|discriminate].
    rewrite Hqueue. apply filter_In. split; [now apply (Hp tid t)|].
    unfold pending_in. now rewrite Hg', Hs.
Qed.

Lemma queue_sound_release assigned tid success s :
  queue_sound s -> queue_sound (fst (release_agent assigned tid success s)).
Proof.
  intros H.
  destruct (release_agent_frame assigned tid success s) as (Ht & Hqu & _).
  now apply queue_sound_same with (s := s).
Qed.

Lemma queue_sound_step s c : queue_sound s -> queue_sound (step s c).
Proof.
  intros H. unfold step.
  destruct c as [a|x|t|tid res|tid reason|k h]; cbn [exec].
  - rewrite fst_bind_ret with (f := fun _ => @None bool).
    unfold register_agent. apply bind_preserves.
    + cbn [modify fst]. now apply queue_sound_same with (s := s).
    + intros _ s1 H1. now apply queue_sound_emit.
  - rewrite fst_bind_ret with (f := @Some bool). unfold remove_agent.
    destruct (get_agent x (agents s)) as [agent|]; [|assumption].
    apply bind_preserves.
    + apply reassign_loop_preserves
        with (I := queue_sound) (J := fun _ _ => True); auto.
      intros s0 x0 ag tid H0 _ _ _. split; [|exact I].
      now apply queue_sound_reassign_task.
    + intros _ s1 H1. apply bind_preserves.
      * cbn [modify fst]. now apply queue_sound_same with (s := s1).
      * intros _ s2 H2. apply bind_preserves; [now apply queue_sound_emit|].
        intros _ s3 H3. exact H3.
  - rewrite fst_bind_ret with (f := @Some bool). unfold submit_task.
    destruct (existsb _ _); [assumption|].
    unfold bind at 1 2. cbn [modify].
    apply bind_preserves.
    + apply queue_sound_emit. destruct H as [Hq Hp]. split.
      * intros tid Hi. cbn [tasks task_queue with_queue with_tasks] in *.
        rewrite get_task_put.
        destruct (String.eqb_spec (task_id t) tid) as [E|E]; [discriminate|].
        apply in_app_or in Hi as [Hi|[Hi|[]]]; [now apply Hq | contradiction].
      * intros tid t0 Hg Hs. cbn [tasks task_queue with_queue with_tasks] in *.
        rewrite get_task_put in Hg. apply in_or_app.
        destruct (String.eqb_spec (task_id t) tid) as [E|E];
          [right; now left | left; now apply (Hp tid t0)].
    + intros _ s1 H1. apply bind_preserves; [now apply queue_sound_drain|].
      intros _ s2 H2. exact H2.
  - rewrite fst_bind_ret with (f := @Some bool). unfold complete_task.
    destruct (get_task tid (tasks s)) as [task|]; [|assumption].
    destruct (negb (status_eqb (status task) IN_PROGRESS)); [assumption|].
    unfold bind at 1. cbn [modify].
    apply bind_preserves.
    + apply queue_sound_release.
      apply queue_sound_not_pending; [reflexivity | discriminate | assumption].
    + intros _ s1 H1. apply bind_preserves; [now apply queue_sound_emit|].
      intros _ s2 H2. apply bind_preserves.
      * apply process_dependent_tasks_preserves with (I := queue_sound);
          [|assumption].
        intros s0 task0 H0 Hin. now apply queue_sound_enqueue.
      * intros _ s3 H3. apply bind_preserves; [now apply queue_sound_drain|].
        intros _ s4 H4. exact H4.
  - rewrite fst_bind_ret with (f := @Some bool). unfold fail_task.
    destruct (get_task tid (tasks s)) as [task|]; [|assumption].
    destruct (negb (status_eqb (status task) IN_PROGRESS)); [assumption|].
    unfold bind at 1. cbn [modify].
    apply bind_preserves.
    + apply queue_sound_release.
      apply queue_sound_not_pending; [reflexivity | discriminate | assumption].
    + intros _ s1 H1. apply bind_preserves; [now apply queue_sound_emit|].
      intros _ s2 H2. exact H2.
  - rewrite fst_bind_ret with (f := fun _ => @None bool).
    unfold add_event_handler. cbn [modify fst].
    now apply queue_sound_same with (s := s).
Qed.

Lemma pending_tasks_are_queued st cs :
  pending_queued (run (new_manager st) cs).
Proof.
  assert (H : queue_sound (run (new_manager st) cs)).
  { apply run_invariant with (I := queue_sound) (ok := fun _ _ => True).
    - intros s c Hs _. now apply queue_sound_step.
    - split; [intros tid [] | intros tid t Hg; discriminate].
    - clear. generalize (new_manager st).
      induction cs; intros s; cbn [admissible]; auto. }
  exact (proj2 H).
Qed.

Lemma task_ids_distinct_step s c :
  task_ids_distinct s -> task_ids_distinct (step s c).
Proof.
  intros H. revert H.
  assert (Hgo : task_ids_distinct s -> True -> task_ids_distinct (step s c));
    [|intros H; now apply Hgo].
  apply step_preserves with (ok := fun _ _ => True) (J := fun _ _ => True);
    unfold task_ids_distinct; try (intros; assumption);
    try (intros; exact I).
  - intros s0 t Hnd _. cbn [tasks with_tasks with_queue].
    rewrite map_task_id_put.
    destruct (get_task (task_id t) (tasks s0)) as [t0|] eqn:Eg;
      [assumption|].
    apply NoDup_app; [assumption | repeat constructor; intros [] | ].
    intros x Hx [<-|[]]. apply get_task_registered in Hx. congruence.
  - intros s0 tid task agent Hnd _ _ _.
    cbn [tasks assigned_state with_agents with_tasks].
    now rewrite map_task_id_update.
  - intros s0 tid task res Hnd _ _. cbn [tasks with_tasks].
    now rewrite map_task_id_update.
  - intros s0 tid task reason Hnd _ _. cbn [tasks with_tasks].
    now rewrite map_task_id_update.
  - intros s0 aid agent tid Hnd _ _ _. split; [|exact I].
    destruct (reassign_task_cases tid s0)
      as [->|(task & Hg & [->|(a & ag & l & Hag & Hl & ->)])];
      [assumption| |];
      cbn [tasks requeued_state with_queue with_tasks with_agents];
      now rewrite map_task_id_update.
Qed.

Lemma task_ids_distinct_run st cs :
  task_ids_distinct (run (new_manager st) cs).
Proof.
  apply run_invariant
    with (I := task_ids_distinct) (ok := fun _ _ => True).
  - intros s c H _. now apply task_ids_distinct_step.
  - constructor.
  - clear. generalize (new_manager st).
    induction cs; intros s; cbn [admissible]; auto.
Qed.

Lemma get_task_NoDup t ts :
  NoDup (map task_id ts) -> In t ts -> get_task (task_id t) ts = Some t.
Proof.
  unfold get_task.
  induction ts as [|b ts IH]; cbn [map find]; intros Hnd Hin;
    [contradiction|].
  inversion Hnd as [|x xs Hnot Hnd']; subst.
  destruct Hin as [->|Hin].
  - now rewrite String.eqb_refl.
  - destruct (String.eqb_spec (task_id b) (task_id t)) as [E|E].
    + exfalso. apply Hnot. rewrite E. now apply in_map.
    + now apply IH.
Qed.

(** Hence the scan of [_process_dependent_tasks] appends nothing in such
    a state (and in the states [complete_task] goes through from it, where
    the same holds): every dependent it could enqueue is in the queue
    already. *)
Lemma dependents_scan_appends_nothing s X :
  pending_queued s -> task_ids_distinct s ->
  _process_dependent_tasks X s = (s, Ok tt).
Proof.
  intros Hp Hnd. unfold _process_dependent_tasks.
  assert (H : forall l,
             incl l (tasks s) ->
             for_each l
               (fun task s' =>
                  if mem X (dependencies task)
                     && status_eqb (status task) PENDING
                     && negb (mem (task_id task) (task_queue s'))
                  then
                    if all_deps_completed (tasks s') task
                    then (with_queue (fun q => q ++ [task_id task]) s', Ok tt)
                    else (s', Ok tt)
                  else (s', Ok tt)) s = (s, Ok tt)).
  { induction l as [|t l IH]; intros Hl; cbn [for_each]; [reflexivity|].
    unfold bind at 1.
    assert (E : mem X (dependencies t) && status_eqb (status t) PENDING
                && negb (mem (task_id t) (task_queue s)) = false).
    { destruct (status_eqb (status t) PENDING) eqn:Es;
        [|now rewrite andb_false_r].
      apply status_eqb_eq in Es.
      assert (Hm : mem (task_id t) (task_queue s) = true).
      { apply mem_In. apply (Hp (task_id t) t); [|assumption].
        apply get_task_NoDup; [exact Hnd | apply Hl; now left]. }
      rewrite Hm. cbn [negb]. now rewrite andb_false_r. }
    rewrite E. apply IH. intros x Hx. apply Hl. now right. }
  apply H, incl_refl.
Qed.
